(** * auto_captcha: a shallow embedding of the detector, the capture strategy,
      the fill engine, the provider adapters and the recognition dispatcher

    Sources embedded here:
    - [src/content/content.js]: [CaptchaDetector] and [AutoFill] (the bundled
      content script),
    - [src/content/captcha-detector.js]: the module version of
      [captureImgElement],
    - [src/api/openai-compatible.js], [src/api/claude-adapter.js] and the
      Gemini adapter: the constructors, [buildHeaders] and the request of
      [recognize],
    - the API manager: [getAdapter], [updateAdapter], [recognize],
    - the storage module: [getActiveConfig], [getSettings], [updateStats],
      [addHistory], and [addApiConfig], [updateApiConfig], [deleteApiConfig],
    - [src/content/content.js] further on: [captureSvgElement],
      [captureCanvasElement], [handleRecognize], [initElementPicker], and
      the service worker's [handleMessage] with its handlers,
    - element-picker.js: the picker it exposes as [window.__captchaPicker],
    - the adapters' treatment of the image data, and [testConnection] of
      the API manager.

    The detector is that of content.js.  The module version
    (captcha-detector.js) has the same [scan], [isLikelyCaptcha],
    [isCaptchaSize], [calculateConfidence] and [getMostLikelyCaptcha]; it
    differs in [matchesKeywords] (no [toString()], so that an svg element
    raises a type error), in [findRelatedInput] (a middle tier by distance and
    keyword) and in [captureImgElement].

    Conventions.  Pixel quantities are rationals ([Q]); JavaScript [NaN] and
    infinities do not occur in layout rectangles.  The sums and differences
    the program takes of them ([right] and [bottom] of a rectangle, the
    distances of [findRelatedInput]) are rounded to the nearest double.
    Milliseconds are integers ([Z]); the delay of a timer is what
    [setTimeout] makes of its argument, a 32-bit integer that is not
    negative, and a timer fires when its delay is over, after what was due
    by then.  Strings are byte strings (UTF-8), so that [includes] on them
    agrees with [String.prototype.includes]; [toLowerCase] is modelled on
    the ASCII letters, which is where every keyword of the program lives.
    A property read on an element is what the page has there: on an
    element of the SVG namespace [className] is an object, and on a form
    the controls are found under their names before the form's own
    properties, so that a call on what was read may throw a [TypeError].
    The value of a text input holds no line feed and no carriage return.
    What the program does to its surroundings (events dispatched, requests
    made, time spent waiting, records written) is kept as a list of events
    next to the state. *)

From Stdlib Require Import QArith Qabs Qround Lqa ZArith String Ascii List Bool Lia.
From stdpp Require Import gmap strings list pretty.

#[local] Open Scope string_scope.
#[local] Open Scope list_scope.

(** ** JavaScript strings *)

Module JsString.

Definition lowerAscii (c : ascii) : ascii :=
  let n := nat_of_ascii c in
  if (65 <=? n)%nat && (n <=? 90)%nat then ascii_of_nat (n + 32) else c.

Fixpoint toLowerCase (s : string) : string :=
  match s with
  | EmptyString => EmptyString
  | String c s' => String (lowerAscii c) (toLowerCase s')
  end.

(** [includes s k] is [s.includes(k)]. *)
Fixpoint includes (s k : string) : bool :=
  String.prefix k s ||
  match s with
  | EmptyString => false
  | String _ s' => includes s' k
  end.

(** [startsWith s p] is [s.startsWith(p)]. *)
Definition startsWith (s p : string) : bool := String.prefix p s.

(** Truthiness of a string: every string but the empty one. *)
Definition truthy (s : string) : bool := negb (String.eqb s "").

(** [a || b] on strings. *)
Definition orElse (a b : string) : string := if truthy a then a else b.

(** [s.replace(/\/+$/, '')]: drop the trailing slashes. *)
Fixpoint stripTrailingSlashes (s : string) : string :=
  match s with
  | EmptyString => EmptyString
  | String c s' =>
      let r := stripTrailingSlashes s' in
      if Ascii.eqb c "/" && String.eqb r "" then "" else String c r
  end.

End JsString.

(** ** Numbers in double precision *)

Module Double.

(** [2 ^ e] for an integer exponent of either sign. *)
Definition pow2 (e : Z) : Q :=
  if (0 <=? e)%Z then inject_Z (2 ^ e) else 1 / inject_Z (2 ^ (- e)).

(** The exponent of a positive number [q]: the [e] with
    [2 ^ e <= q < 2 ^ (e + 1)]. *)
Definition exponent (q : Q) : Z :=
  let e := (Z.log2 (Qnum q) - Z.log2 (Zpos (Qden q)))%Z in
  if Qle_bool (pow2 e) q then e else (e - 1)%Z.

(** The nearest integer, the even one of two that are equally near. *)
Definition nearestEven (q : Q) : Z :=
  let f := Qfloor q in
  match Qcompare (q - inject_Z f) (1 # 2) with
  | Lt => f
  | Gt => (f + 1)%Z
  | Eq => if Z.even f then f else (f + 1)%Z
  end.

(** The double nearest to a number: 53 significant bits, the exponent not
    below that of the subnormal numbers, ties to even.  Numbers are far
    from the largest double, so that no result is infinite. *)
Definition round (q : Q) : Q :=
  if Qeq_bool q 0 then 0
  else
    let e := Z.max (exponent (Qabs q)) (-1022) in
    let ulp := pow2 (e - 52) in
    inject_Z (nearestEven (q / ulp)) * ulp.

(** [a + b] and [a - b] on doubles. *)
Definition add (a b : Q) : Q := round (a + b).
Definition sub (a b : Q) : Q := round (a - b).

End Double.

(** ** Calls that may fail *)

Module Js.

(** How a call completes: it returns a value, or it throws a [TypeError]
    because a member it calls is not a function; the name of the member
    is kept. *)
Inductive Result (A : Type) :=
| Returned (value : A)
| TypeError (member : string).
Arguments Returned {A} value.
Arguments TypeError {A} member.

#[global] Instance Result_ret : MRet Result := fun A a => Returned a.

#[global] Instance Result_bind : MBind Result := fun A B f m =>
  match m with
  | Returned a => f a
  | TypeError member => TypeError member
  end.

End Js.

(** ** The document *)

Module Dom.

(** What a form exposes as a property under the name of its controls: the
    control of that name, an element of the document, with the string its
    [toString()] gives; or, when several controls share the name, a
    [RadioNodeList]. *)
Inductive Named :=
| Control (position : nat) (toString : string)
| RadioNodeList.

(** The kind of an element.  [SVG] is the svg element, and [GRAPHIC] any
    other element of the SVG namespace (g, a, text, ...); the rest are
    HTML elements.  The name of a [GRAPHIC] or [OTHER] element is none of
    img, canvas, svg, input and form: an element that the selectors of the
    detector find is an HTML img, canvas or input, or the svg element.  A
    form comes with the properties its controls put on it: they are found
    before the properties a form has as an element, so that on a form
    with a control named [id], [form.id] is that control. *)
Inductive Tag :=
| IMG | CANVAS | SVG | INPUT
| GRAPHIC (tag : string)
| FORM (controls : list (string * Named))
| OTHER (tag : string).

Definition Tag_eqb (a b : Tag) : bool :=
  match a, b with
  | IMG, IMG | CANVAS, CANVAS | SVG, SVG | INPUT, INPUT | FORM _, FORM _ => true
  | GRAPHIC x, GRAPHIC y | OTHER x, OTHER y => String.eqb x y
  | _, _ => false
  end.

(** [getBoundingClientRect()]: a rectangle whose width and height are not
    negative, so that [left] and [top] are its origin. *)
Record DOMRect := mkRect { left : Q; top : Q; width : Q; height : Q }.

(** The getters [right] and [bottom] add in double precision. *)
Definition right (r : DOMRect) : Q := Double.add (left r) (width r).
Definition bottom (r : DOMRect) : Q := Double.add (top r) (height r).

(** The three properties of [getComputedStyle()] the detector reads. *)
Record Style := mkStyle { display : string; visibility : string; opacity : string }.

(** An element.  A string attribute that is absent reads as the empty
    string, as the DOM properties [id], [name], [placeholder], [alt] and
    [src] do ([src] of a canvas or an svg is [undefined], which the code
    only tests for truthiness).  [classAttr] is the class attribute;
    [typeAttr] is [None] when the element has no type attribute.
    [parentElement] is the position of the parent in the document. *)
Record Element := mkElement {
  tagName : Tag;
  elemId : string;
  classAttr : string;
  name : string;
  placeholder : string;
  src : string;
  alt : string;
  typeAttr : option string;
  rect : DOMRect;
  style : Style;
  parentElement : option nat
}.

(** A document is the sequence of its elements in document order; an
    element is identified by its position.  No element of the document
    is named after a property of [document] that the program reads. *)
Definition Document := list Element.

Definition Node : Type := nat * Element.

Definition nodes (doc : Document) : list Node := imap pair doc.

Definition node (doc : Document) (n : nat) : option Node :=
  match doc !! n with
  | Some e => Some (n, e)
  | None => None
  end.

Definition parentOf (doc : Document) (x : Node) : option Node :=
  match parentElement (snd x) with
  | Some p => node doc p
  | None => None
  end.

(** The ancestors of an element, nearest first, at most [levels] of them. *)
Fixpoint ancestors (doc : Document) (levels : nat) (x : Node) : list Node :=
  match levels with
  | O => []
  | S levels' =>
      match parentOf doc x with
      | Some p => p :: ancestors doc levels' p
      | None => []
      end
  end.

(** [document.querySelectorAll(sel)], in document order. *)
Definition querySelectorAll (doc : Document) (sel : Element -> bool) : list Node :=
  List.filter (fun x => sel (snd x)) (nodes doc).

(** Whether the chain of parents starting at [p] reaches [c]. *)
Fixpoint reaches (doc : Document) (fuel : nat) (p : option nat) (c : nat) : bool :=
  match fuel with
  | O => false
  | S fuel' =>
      match p with
      | None => false
      | Some q =>
          Nat.eqb q c ||
          reaches doc fuel' (match doc !! q with
                             | Some e => parentElement e
                             | None => None
                             end) c
      end
  end.

Definition isDescendantOf (doc : Document) (c : Node) (x : Node) : bool :=
  reaches doc (length doc) (parentElement (snd x)) (fst c).

(** [container.querySelectorAll(sel)]: the descendants of the container. *)
Definition querySelectorAllIn (doc : Document) (container : Node)
    (sel : Element -> bool) : list Node :=
  List.filter (fun x => sel (snd x) && isDescendantOf doc container x) (nodes doc).

Definition isTag (t : Tag) (e : Element) : bool := Tag_eqb (tagName e) t.

(** The selector [input[type="text"], input:not([type])].  The value of
    the type attribute is matched without regard to case in an HTML
    document. *)
Definition isTextInput (e : Element) : bool :=
  isTag INPUT e &&
  match typeAttr e with
  | None => true
  | Some t => String.eqb (JsString.toLowerCase t) "text"
  end.

(** What a form has put under the name of a property, if anything. *)
Definition named (e : Element) (property : string) : option Named :=
  match tagName e with
  | FORM controls =>
      snd <$> List.find (fun control => String.eqb (fst control) property) controls
  | _ => None
  end.

(** [(element.className || '').toString()].  [className] is a string on
    an HTML element and an [SVGAnimatedString] object on an element of
    the SVG namespace; on a form with a control of that name it is the
    control. *)
Definition classNameToString (e : Element) : string :=
  match named e "className" with
  | Some (Control _ toString) => toString
  | Some RadioNodeList => "[object RadioNodeList]"
  | None =>
      match tagName e with
      | SVG | GRAPHIC _ => "[object SVGAnimatedString]"
      | _ => classAttr e
      end
  end.

(** [(element.id || '').toLowerCase()]: a control is no string and has no
    such method. *)
Definition idToLowerCase (e : Element) : Js.Result string :=
  match named e "id" with
  | Some _ => Js.TypeError "toLowerCase"
  | None => Js.Returned (JsString.toLowerCase (elemId e))
  end.

(** What the loops that walk up the document hold in [parent]: an
    element, the list a form has under the name [parentElement], or
    nothing. *)
Inductive Parent :=
| ParentElement (x : Node)
| ParentList
| NoParent.

(** [x.parentElement]. *)
Definition parentElementOf (doc : Document) (x : Node) : Parent :=
  match named (snd x) "parentElement" with
  | Some (Control position _) =>
      match node doc position with
      | Some control => ParentElement control
      | None => NoParent
      end
  | Some RadioNodeList => ParentList
  | None =>
      match parentOf doc x with
      | Some p => ParentElement p
      | None => NoParent
      end
  end.

End Dom.

(** ** Comparisons of JavaScript numbers *)

#[global] Instance Qle_decision (a b : Q) : Decision (a <= b)%Q :=
  match Qlt_le_dec b a with
  | left H => right (Qlt_not_le _ _ H)
  | right H => left H
  end.

Definition Qlt_bool (a b : Q) : bool := negb (Qle_bool b a).
Definition Qgt_bool (a b : Q) : bool := Qlt_bool b a.
Definition Qge_bool (a b : Q) : bool := Qle_bool b a.

(** ** The detector of content.js *)

Module CaptchaDetector.
Import Dom.
Import Js.

Record SizeRange := { minWidth : Q; maxWidth : Q; minHeight : Q; maxHeight : Q }.

Definition classKeywords : list string :=
  ["captcha"; "verify"; "code"; "vcode"; "imgcode";
   "checkcode"; "seccode"; "authcode"; "validcode";
   "yzm"; "yanzhengma"; "验证码"].

Definition idKeywords : list string :=
  ["captcha"; "verify"; "code"; "vcode"; "imgcode";
   "checkcode"; "seccode"; "authcode"; "validcode";
   "yzm"; "captchaImg"; "codeImg"].

Definition sizeRange : SizeRange :=
  {| minWidth := 50; maxWidth := 300; minHeight := 20; maxHeight := 100 |}.

Definition inputKeywords : list string :=
  ["captcha"; "verify"; "code"; "vcode";
   "checkcode"; "seccode"; "authcode"; "validcode";
   "yzm"; "yanzhengma"; "验证码"].

Inductive CaptchaType := image | canvas | svg.

(** An entry of [detectedCaptchas].  [element] and [inputElement] are
    references to elements of the document. *)
Record Candidate := mkCandidate {
  type : CaptchaType;
  element : nat;
  candSrc : option string;
  candRect : DOMRect;
  confidence : Z;
  inputElement : option nat;
  id : string
}.

Record Detector := mkDetector { detectedCaptchas : list Candidate }.

(** The methods that change the detector: the value returned or the error
    thrown, and the detector afterwards. *)
Definition D (A : Type) : Type := Detector -> Result A * Detector.

#[global] Instance D_ret : MRet D := fun A a this => (Returned a, this).

#[global] Instance D_bind : MBind D := fun A B f m this =>
  match m this with
  | (Returned a, this') => f a this'
  | (TypeError member, this') => (TypeError member, this')
  end.

(** A call of a method that leaves the detector as it is. *)
Definition call {A} (r : Result A) : D A := fun this => (r, this).

(** [Array.prototype.some]. *)
Definition some {A} (l : list A) (p : A -> bool) : bool := existsb p l.

Definition isCaptchaSize (w h : Q) : bool :=
  Qge_bool w (minWidth sizeRange) && Qle_bool w (maxWidth sizeRange) &&
  Qge_bool h (minHeight sizeRange) && Qle_bool h (maxHeight sizeRange).

Definition isVisible (e : Element) : bool :=
  negb (String.eqb (display (style e)) "none") &&
  negb (String.eqb (visibility (style e)) "hidden") &&
  negb (String.eqb (opacity (style e)) "0") &&
  Qgt_bool (width (rect e)) 0 && Qgt_bool (height (rect e)) 0.

Definition matchesKeywords (e : Element) : Result bool :=
  let className := JsString.toLowerCase (classNameToString e) in
  id ← idToLowerCase e;
  mret (some classKeywords (fun k => JsString.includes className k) ||
        some idKeywords (fun k => JsString.includes id k)).

Definition matchesKeywordsInText (text : string) : bool :=
  if negb (JsString.truthy text) then false
  else
    let lowerText := JsString.toLowerCase text in
    some classKeywords (fun k => JsString.includes lowerText k).

Definition srcContainsKeywords (src : string) : bool :=
  if negb (JsString.truthy src) then false
  else
    let lowerSrc := JsString.toLowerCase src in
    some classKeywords (fun k => JsString.includes lowerSrc k).

(** The loop [while (parent && depth < 3)]; [fuel] is [3 - depth].  A
    [RadioNodeList] has no class and no id, and no parent element. *)
Fixpoint parentLoop (doc : Document) (fuel : nat) (parent : Parent) : Result bool :=
  match fuel with
  | O => mret false
  | S fuel' =>
      match parent with
      | NoParent => mret false
      | ParentList => mret false
      | ParentElement p =>
          matches ← matchesKeywords (snd p);
          if matches : bool then mret true
          else parentLoop doc fuel' (parentElementOf doc p)
      end
  end.

Definition parentContainsKeywords (doc : Document) (x : Node) : Result bool :=
  parentLoop doc 3 (parentElementOf doc x).

(** [isCaptchaInputByName(input)], for an input element: its properties
    are strings. *)
Definition isCaptchaInputByName (input : Element) : bool :=
  let name := JsString.toLowerCase (name input) in
  let id := JsString.toLowerCase (elemId input) in
  let placeholder := JsString.toLowerCase (placeholder input) in
  let className := JsString.toLowerCase (classNameToString input) in
  some inputKeywords (fun k =>
    JsString.includes name k || JsString.includes id k ||
    JsString.includes placeholder k || JsString.includes className k).

(** [findCaptchaInput(container)]: on a form with a control named
    [querySelectorAll] the call of that member fails. *)
Definition findCaptchaInput (doc : Document) (container : Node)
    : Result (option Node) :=
  match named (snd container) "querySelectorAll" with
  | Some _ => TypeError "querySelectorAll"
  | None =>
      mret (List.find (fun input => isCaptchaInputByName (snd input))
                      (querySelectorAllIn doc container isTextInput))
  end.

(** The loop [while (parent && depth < 5)] of [findRelatedInput]. *)
Fixpoint inputLoop (doc : Document) (fuel : nat) (parent : Parent)
    : Result (option Node) :=
  match fuel with
  | O => mret None
  | S fuel' =>
      match parent with
      | NoParent => mret None
      | ParentList => TypeError "querySelectorAll"
      | ParentElement p =>
          found ← findCaptchaInput doc p;
          match found with
          | Some input => mret (Some input)
          | None => inputLoop doc fuel' (parentElementOf doc p)
          end
      end
  end.

(** The test of the second loop of [findRelatedInput]: the input is to the
    right of the element, or below it.  The differences are taken in
    double precision. *)
Definition positioned (r inputRect : DOMRect) : bool :=
  (Qgt_bool (left inputRect) (right r) &&
   Qlt_bool (Double.sub (left inputRect) (right r)) 150 &&
   Qlt_bool (Qabs (Double.sub (top inputRect) (top r))) 50)
  ||
  (Qgt_bool (top inputRect) (bottom r) &&
   Qlt_bool (Double.sub (top inputRect) (bottom r)) 100 &&
   Qlt_bool (Qabs (Double.sub (left inputRect) (left r))) 100).

Definition findRelatedInput (doc : Document) (x : Node) : Result (option Node) :=
  found ← inputLoop doc 5 (parentElementOf doc x);
  match found with
  | Some input => mret (Some input)
  | None =>
      let r := rect (snd x) in
      let inputs := querySelectorAll doc isTextInput in
      mret (List.find (fun input => positioned r (rect (snd input))) inputs)
  end.

Definition hasNearbyInput (doc : Document) (x : Node) : Result bool :=
  found ← findRelatedInput doc x;
  mret (match found with
        | Some _ => true
        | None => false
        end).

Definition isLikelyCaptcha (doc : Document) (img : Node) : Result bool :=
  let r := rect (snd img) in
  if negb (isCaptchaSize (width r) (height r)) then mret false
  else if negb (isVisible (snd img)) then mret false
  else
    matches ← matchesKeywords (snd img);
    if matches : bool then mret true
    else if srcContainsKeywords (src (snd img)) then mret true
    else if matchesKeywordsInText (alt (snd img)) then mret true
    else
      inParent ← parentContainsKeywords doc img;
      if inParent : bool then mret true
      else
        nearby ← hasNearbyInput doc img;
        if nearby : bool then mret true else mret false.

Definition isLikelyCanvasCaptcha (doc : Document) (c : Node) : Result bool :=
  let r := rect (snd c) in
  if negb (isCaptchaSize (width r) (height r)) then mret false
  else if negb (isVisible (snd c)) then mret false
  else
    matches ← matchesKeywords (snd c);
    if matches : bool then mret true
    else
      inParent ← parentContainsKeywords doc c;
      if inParent : bool then mret true
      else
        nearby ← hasNearbyInput doc c;
        if nearby : bool then mret true else mret false.

Definition isLikelySvgCaptcha (doc : Document) (s : Node) : Result bool :=
  let r := rect (snd s) in
  if negb (isCaptchaSize (width r) (height r)) then mret false
  else if negb (isVisible (snd s)) then mret false
  else
    matches ← matchesKeywords (snd s);
    if matches : bool then mret true
    else
      inParent ← parentContainsKeywords doc s;
      if inParent : bool then mret true
      else
        nearby ← hasNearbyInput doc s;
        if nearby : bool then mret true else mret false.

Definition calculateConfidence (doc : Document) (x : Node) : Result Z :=
  let score := 0%Z in
  matches ← matchesKeywords (snd x);
  let score := if matches : bool then (score + 30)%Z else score in
  let score :=
    if JsString.truthy (src (snd x)) && srcContainsKeywords (src (snd x))
    then (score + 20)%Z else score in
  inParent ← parentContainsKeywords doc x;
  let score := if inParent : bool then (score + 15)%Z else score in
  found ← findRelatedInput doc x;
  let score :=
    match found with
    | Some _ => (score + 25)%Z
    | None => score
    end in
  let r := rect (snd x) in
  let score := if isCaptchaSize (width r) (height r) then (score + 10)%Z else score in
  mret (Z.min score 100).

(** [this.detectedCaptchas.push(c)]. *)
Definition push (c : Candidate) : D unit := fun this =>
  (Returned tt, {| detectedCaptchas := detectedCaptchas this ++ [c] |}).

(** [nodeList.forEach((x, index) => ...)]: a call that throws ends the
    loop. *)
Fixpoint forEachFrom (index : nat) (l : list Node) (body : Node -> nat -> D unit)
    : D unit :=
  match l with
  | [] => mret tt
  | x :: l' => body x index;; forEachFrom (S index) l' body
  end.

Definition forEach (l : list Node) (body : Node -> nat -> D unit) : D unit :=
  forEachFrom 0 l body.

Definition scanImages (doc : Document) : D unit :=
  let images := querySelectorAll doc (isTag IMG) in
  forEach images (fun img index =>
    likely ← call (isLikelyCaptcha doc img);
    if likely : bool then
      confidence ← call (calculateConfidence doc img);
      inputElement ← call (findRelatedInput doc img);
      push {| type := image;
              element := fst img;
              candSrc := Some (src (snd img));
              candRect := rect (snd img);
              confidence := confidence;
              inputElement := fst <$> inputElement;
              id := "captcha-" +:+ pretty index |}
    else mret tt).

Definition scanCanvas (doc : Document) : D unit :=
  let canvases := querySelectorAll doc (isTag CANVAS) in
  forEach canvases (fun c index =>
    likely ← call (isLikelyCanvasCaptcha doc c);
    if likely : bool then
      confidence ← call (calculateConfidence doc c);
      inputElement ← call (findRelatedInput doc c);
      push {| type := canvas;
              element := fst c;
              candSrc := None;
              candRect := rect (snd c);
              confidence := confidence;
              inputElement := fst <$> inputElement;
              id := "captcha-canvas-" +:+ pretty index |}
    else mret tt).

Definition scanSvg (doc : Document) : D unit :=
  let svgs := querySelectorAll doc (isTag SVG) in
  forEach svgs (fun s index =>
    likely ← call (isLikelySvgCaptcha doc s);
    if likely : bool then
      confidence ← call (calculateConfidence doc s);
      inputElement ← call (findRelatedInput doc s);
      push {| type := svg;
              element := fst s;
              candSrc := None;
              candRect := rect (snd s);
              confidence := confidence;
              inputElement := fst <$> inputElement;
              id := "captcha-svg-" +:+ pretty index |}
    else mret tt).

(** [scan()]: the list returned, or the error thrown, and the detector
    afterwards; when a call throws, the detector keeps the entries pushed
    until then. *)
Definition reset : D unit := fun this => (Returned tt, {| detectedCaptchas := [] |}).

Definition getDetectedCaptchas : D (list Candidate) := fun this =>
  (Returned (detectedCaptchas this), this).

Definition scan (doc : Document) : D (list Candidate) :=
  reset;;
  scanImages doc;;
  scanCanvas doc;;
  scanSvg doc;;
  getDetectedCaptchas.

(** [getMostLikelyCaptcha()]: [reduce] without an initial value starts from
    the first entry. *)
Definition getMostLikelyCaptcha (this : Detector) : option Candidate :=
  match detectedCaptchas this with
  | [] => None
  | first :: others =>
      Some (fold_left (fun best current =>
                         if (confidence current >? confidence best)%Z
                         then current else best)
                      others first)
  end.

End CaptchaDetector.


(** ** Capturing an img element *)

Module Capture.

(** What a capture does that the page or the network can observe. *)
Inductive Effect :=
| Subscribe (event : string)      (* img.onload = ..., img.onerror = ... *)
| SetTimeout (ms : Z)
| CreateCanvas
| DrawImage (w h : Z)
| ToDataURL
| ImageLoad (url : string).       (* a new Image whose src is set: the url is fetched *)

(** An image load for anything but an inline data URI goes to the network. *)
Definition isNetworkRequest (e : Effect) : bool :=
  match e with
  | ImageLoad url => negb (JsString.startsWith url "data:")
  | _ => false
  end.

(** An image as the page holds it.  [bitmap] names the decoded pixels;
    [tainted] holds when the image is cross-origin and was served without
    CORS approval, so that a canvas it is drawn to cannot be read back. *)
Record Img := mkImg {
  src : string;
  complete : bool;
  naturalWidth : Z;
  naturalHeight : Z;
  width : Z;
  height : Z;
  rectWidth : Q;
  rectHeight : Q;
  tainted : bool;
  bitmap : string
}.

(** What happens to an image that is still loading. *)
Inductive Pending :=
| Loads (after : Z) (loaded : Img)
| Fails (after : Z)
| Never.

Inductive Settled (A : Type) :=
| Resolved (value : A)
| Rejected (message : string).
Arguments Resolved {A} value.
Arguments Rejected {A} message.

Record Canvas := mkCanvas {
  canvasWidth : Z;
  canvasHeight : Z;
  drawn : string;
  originClean : bool
}.

(** [a || b] on numbers. *)
Definition orElseZ (a b : Z) : Z := if Z.eqb a 0 then b else a.

Section Serializer.
(** The base64 payload of the PNG of a bitmap drawn at a size. *)
Variable pngPayload : string -> Z -> Z -> string.

(** [canvas.toDataURL('image/png')]: a security error on a tainted
    canvas, the string [data:,] for a canvas without pixels. *)
Definition toDataURL (c : Canvas) : Settled string :=
  if negb (originClean c) then Rejected "SecurityError"
  else if Z.leb (canvasWidth c) 0 || Z.leb (canvasHeight c) 0 then Resolved "data:,"
  else Resolved ("data:image/png;base64," +:+
                 pngPayload (drawn c) (canvasWidth c) (canvasHeight c)).

Definition drawImage (img : Img) (w h : Z) : Canvas :=
  {| canvasWidth := w; canvasHeight := h; drawn := bitmap img;
     originClean := negb (tainted img) |}.

Record Run := mkRun {
  outcome : Settled string;
  effects : list Effect;
  waited : Z
}.

(** *** content.js *)

(** [waitForImageLoad(img)]: the image once it is loaded, and how long
    the wait took. *)
Definition waitForImageLoad (img : Img) (pending : Pending)
    : Settled Img * list Effect * Z :=
  if complete img && Z.gtb (naturalWidth img) 0 then (Resolved img, [], 0%Z)
  else if JsString.truthy (src img) && JsString.startsWith (src img) "data:"
  then (Resolved img, [], 0%Z)
  else
    let subscribed := [SetTimeout 5000; Subscribe "load"; Subscribe "error"] in
    if complete img && Z.gtb (naturalWidth img) 0 then (Resolved img, subscribed, 0%Z)
    else
      match pending with
      | Loads after loaded =>
          if Z.ltb after 5000 then (Resolved loaded, subscribed, after)
          else (Rejected "图片加载超时", subscribed, 5000%Z)
      | Fails after =>
          if Z.ltb after 5000 then (Rejected "图片加载失败", subscribed, after)
          else (Rejected "图片加载超时", subscribed, 5000%Z)
      | Never => (Rejected "图片加载超时", subscribed, 5000%Z)
      end.

(** [captureElementAsScreenshot(element)]: the canvas takes the size of
    the bounding rectangle, truncated to whole pixels. *)
Definition captureElementAsScreenshot (img : Img) : Settled string * list Effect :=
  let w := Qfloor (rectWidth img) in
  let h := Qfloor (rectHeight img) in
  let fx := [CreateCanvas; DrawImage w h; ToDataURL] in
  match toDataURL (drawImage img w h) with
  | Resolved dataUrl =>
      if JsString.truthy dataUrl && negb (String.eqb dataUrl "data:,")
      then (Resolved dataUrl, fx)
      else (Rejected "截图失败", fx)
  | Rejected e => (Rejected e, fx)
  end.

(** The handler of the inner [catch] of [captureImgElement]. *)
Definition fallback (img : Img) : Settled string * list Effect :=
  if JsString.startsWith (src img) "data:" then (Resolved (src img), [])
  else
    match captureElementAsScreenshot img with
    | (Resolved dataUrl, fx) => (Resolved dataUrl, fx)
    | (Rejected _, fx) => (Rejected "无法捕获跨域图片，请尝试手动截图", fx)
    end.

Definition captureImgElement (img : Img) (pending : Pending) : Run :=
  match waitForImageLoad img pending with
  | (Rejected e, fx, t) => mkRun (Rejected e) fx t
  | (Resolved img, fx, t) =>
      let width := orElseZ (naturalWidth img) (width img) in
      let height := orElseZ (naturalHeight img) (height img) in
      if Z.eqb width 0 || Z.eqb height 0
      then mkRun (Rejected "图片尺寸为0，可能未加载完成") (fx ++ [CreateCanvas]) t
      else
        let fx := fx ++ [CreateCanvas; DrawImage width height; ToDataURL] in
        match toDataURL (drawImage img width height) with
        | Resolved dataUrl =>
            if String.eqb dataUrl "data:," then
              let '(r, fx') := fallback img in mkRun r (fx ++ fx') t
            else mkRun (Resolved dataUrl) fx t
        | Rejected _ =>
            let '(r, fx') := fallback img in mkRun r (fx ++ fx') t
        end
  end.

(** *** captcha-detector.js *)

(** [captureImgElement(img)] of the module version: a new [Image] with
    [crossOrigin = 'anonymous'] is pointed at the source with a time
    stamp appended; [reload url] is what that load yields, [None] when it
    fails. *)
Definition srcWithTimestamp (img : Img) (now : Z) : string :=
  if JsString.includes (src img) "?"
  then src img +:+ "&_t=" +:+ pretty now
  else src img +:+ "?_t=" +:+ pretty now.

Definition captureImgElementModule (img : Img) (now : Z)
    (reload : string -> option Img) : Run :=
  let url := srcWithTimestamp img now in
  let fx := [CreateCanvas; Subscribe "load"; Subscribe "error"; ImageLoad url] in
  match reload url with
  | Some newImg =>
      let w := orElseZ (naturalWidth newImg) (width newImg) in
      let h := orElseZ (naturalHeight newImg) (height newImg) in
      let fx := fx ++ [DrawImage w h; ToDataURL] in
      match toDataURL (drawImage newImg w h) with
      | Resolved dataUrl => mkRun (Resolved dataUrl) fx 0
      | Rejected _ =>
          if JsString.startsWith (src img) "data:"
          then mkRun (Resolved (src img)) fx 0
          else mkRun (Rejected "无法捕获跨域图片") fx 0
      end
  | None =>
      if JsString.startsWith (src img) "data:"
      then mkRun (Resolved (src img)) fx 0
      else mkRun (Rejected "图片加载失败") fx 0
  end.

End Serializer.

End Capture.

(** ** The fill engine of content.js *)

Module AutoFill.

Inductive Event :=
| Focus
| Dispatch (eventType : string)
| DispatchKey (eventType : string) (key : string)
| Delay (ms : Q)
| HighlightInput
| DispatchSubmit          (* form.dispatchEvent(submitEvent) *)
| FormSubmit              (* form.submit() *)
| Click.                  (* submitBtn.click() *)

(** A form element: whether the page cancels its submit event, and the
    names of its controls.  A form exposes its controls as properties under
    their names, before its own properties: with a control named [submit],
    [form.submit] is that control and not the method. *)
Record Form := mkForm { prevented : bool; controls : list string }.

(** What [submitForm] finds around the input: the enclosing form, if any,
    and whether a submit control is found when there is no form. *)
Record Surroundings := mkSurroundings {
  closestForm : option Form;
  submitBtn : bool
}.

(** A JavaScript string as [for (const char of text)] goes through it: the
    sequence of its characters (code points), each one a string. *)
Definition Text : Type := list string.

Definition lineFeed : string := String (ascii_of_nat 10) "".
Definition carriageReturn : string := String (ascii_of_nat 13) "".

(** The value sanitization of a text input ([input[type="text"]] or an
    input without a type, the only inputs the detector links): line feeds
    and carriage returns are stripped from every value set. *)
Definition stripNewlines (v : Text) : Text :=
  List.filter (fun c => negb (String.eqb c lineFeed || String.eqb c carriageReturn)) v.

(** The input: its value, the events dispatched to it, and what is around
    it.  Listeners of the page are taken not to change the value. *)
Record Input := mkInput { value : Text; events : list Event; around : Surroundings }.

Record Options := mkOptions { simulate : option bool; autoSubmit : option bool }.

(** The state of the page: the input, and how many numbers [Math.random()]
    has handed out. *)
Record State := mkState { input : Input; draws : nat }.

Section Engine.
(** [Math.random()], by the number of the call. *)
Variable random : nat -> Q.

Definition emit (e : Event) (s : State) : State :=
  {| input := {| value := value (input s);
                 events := events (input s) ++ [e];
                 around := around (input s) |};
     draws := draws s |}.

(** [input.value = v]. *)
Definition setValue (v : Text) (s : State) : State :=
  {| input := {| value := stripNewlines v; events := events (input s);
                 around := around (input s) |};
     draws := draws s |}.

Definition dispatchEvent (eventType : string) : State -> State :=
  emit (Dispatch eventType).

Definition dispatchKeyEvent (eventType key : string) : State -> State :=
  emit (DispatchKey eventType key).

(** [await this.delay(50 + Math.random() * 100)]. *)
Definition randomDelay (s : State) : State :=
  let s' := emit (Delay (50 + random (draws s) * 100)) s in
  {| input := input s'; draws := S (draws s) |}.

(** The body of [for (const char of text)]. *)
Definition typeChar (s : State) (char : string) : State :=
  let s := dispatchKeyEvent "keydown" char s in
  let s := setValue (value (input s) ++ [char]) s in
  let s := dispatchEvent "input" s in
  let s := dispatchKeyEvent "keyup" char s in
  randomDelay s.

Definition simulateTyping (text : Text) (s : State) : State :=
  let s := fold_left typeChar text s in
  let s := dispatchEvent "change" s in
  dispatchEvent "blur" s.

(** Whether a property of the form is one of its controls. *)
Definition shadowed (form : Form) (property : string) : bool :=
  existsb (String.eqb property) (controls form).

(** [submitForm(input)]: whether it returned (it throws a type error when
    the method it calls on the form is a control of the form), and the
    page afterwards. *)
Definition submitForm (s : State) : bool * State :=
  match closestForm (around (input s)) with
  | Some form =>
      if shadowed form "dispatchEvent" then (false, s)
      else
        let s := emit DispatchSubmit s in
        if negb (prevented form) then
          if shadowed form "submit" then (false, s)
          else (true, emit FormSubmit s)
        else (true, s)
  | None =>
      if submitBtn (around (input s)) then (true, emit Click s)
      else
        let s := dispatchKeyEvent "keydown" "Enter" s in
        let s := dispatchKeyEvent "keypress" "Enter" s in
        (true, dispatchKeyEvent "keyup" "Enter" s)
  end.

(** [fill(inputElement, text, options)]; the input element comes with the
    state of the page it lives in, [None] is an absent input.  The result is
    the boolean returned ([false] from the [catch] clause) and the page
    afterwards.  The assignment to [this.lastFilledInput], which only
    [getLastFilledInput] reads, is left out. *)
Definition fill (inputElement : option State) (text : Text) (options : Options)
    : bool * option State :=
  let simulate := default true (simulate options) in
  let autoSubmit := default false (autoSubmit options) in
  match inputElement with
  | None => (false, None)
  | Some s =>
      let s := emit Focus s in
      let s := setValue [] s in
      let s := dispatchEvent "input" s in
      let s :=
        if simulate then simulateTyping text s
        else
          let s := setValue text s in
          let s := dispatchEvent "input" s in
          dispatchEvent "change" s in
      let s := emit HighlightInput s in
      if autoSubmit then
        let '(returned, s) := submitForm s in (returned, Some s)
      else (true, Some s)
  end.

End Engine.

End AutoFill.

(** ** Provider configurations and adapters *)

Module Api.

(** A configuration object.  [id], [name] and [customPrompt] read as the
    empty string when absent (the code only tests them for truthiness or
    compares them); the other optional properties are [None] when
    absent. *)
Record Config := mkConfig {
  id : string;
  name : string;
  type : string;
  baseUrl : option string;
  model : option string;
  apiKey : option string;
  maxTokens : option Z;
  temperature : option Q;
  customHeaders : option (gmap string string);
  customPrompt : string
}.

Definition OPENAI_COMPATIBLE : string := "openai_compatible".
Definition GEMINI : string := "gemini".
Definition CLAUDE : string := "claude".

Inductive AdapterKind := OpenAICompatible | Gemini | Claude.

(** An adapter instance: its class and its [this.config]. *)
Record Adapter := mkAdapter { kind : AdapterKind; config : Config }.

(** A property of [{ ...defaults, ...config }]. *)
Definition spread {A} (dflt : option A) (given : option A) : option A :=
  match given with
  | Some v => Some v
  | None => dflt
  end.

(** The constructors: the defaults of the class under the configuration,
    then the trailing slashes of [baseUrl] removed. *)
Definition normalize (c : Config) (dBaseUrl dModel : string)
    (dMaxTokens : option Z) (dTemperature : option Q) : Config :=
  {| id := id c; name := name c; type := type c;
     baseUrl := JsString.stripTrailingSlashes <$> spread (Some dBaseUrl) (baseUrl c);
     model := spread (Some dModel) (model c);
     apiKey := apiKey c;
     maxTokens := spread dMaxTokens (maxTokens c);
     temperature := spread dTemperature (temperature c);
     customHeaders := customHeaders c;
     customPrompt := customPrompt c |}.

Definition newOpenAICompatibleAdapter (c : Config) : Adapter :=
  mkAdapter OpenAICompatible
    (normalize c "https://api.openai.com/v1" "gpt-4o" (Some 100%Z) (Some (1 # 10))).

Definition newGeminiAdapter (c : Config) : Adapter :=
  mkAdapter Gemini
    (normalize c "https://generativelanguage.googleapis.com/v1beta" "gemini-1.5-flash"
       None None).

Definition newClaudeAdapter (c : Config) : Adapter :=
  mkAdapter Claude
    (normalize c "https://api.anthropic.com" "claude-3-5-sonnet-20241022"
       (Some 1024%Z) None).

(** A string property inside a template literal. *)
Definition interpolate (o : option string) : string := default "undefined" o.

Definition truthyKey (o : option string) : option string :=
  match o with
  | Some k => if JsString.truthy k then Some k else None
  | None => None
  end.

(** [Object.assign(headers, customHeaders)]: the custom value wins. *)
Definition assign (headers custom : gmap string string) : gmap string string :=
  custom ∪ headers.

Module OpenAICompatibleAdapter.
Definition buildHeaders (c : Config) : gmap string string :=
  let headers : gmap string string := {[ "Content-Type" := "application/json" ]} in
  let headers :=
    match truthyKey (apiKey c) with
    | Some k => <[ "Authorization" := "Bearer " +:+ k ]> headers
    | None => headers
    end in
  match customHeaders c with
  | Some custom => assign headers custom
  | None => headers
  end.

Definition endpoint (c : Config) : string :=
  interpolate (baseUrl c) +:+ "/chat/completions".
End OpenAICompatibleAdapter.

Module ClaudeAdapter.
Definition buildHeaders (c : Config) : gmap string string :=
  let headers : gmap string string :=
    <[ "anthropic-version" := "2023-06-01" ]>
      {[ "Content-Type" := "application/json" ]} in
  let headers :=
    match truthyKey (apiKey c) with
    | Some k => <[ "x-api-key" := k ]> headers
    | None => headers
    end in
  match customHeaders c with
  | Some custom => assign headers custom
  | None => headers
  end.

Definition endpoint (c : Config) : string :=
  interpolate (baseUrl c) +:+ "/v1/messages".
End ClaudeAdapter.

Module GeminiAdapter.
(** The headers literal of the [fetch] call of [recognize]. *)
Definition requestHeaders (c : Config) : gmap string string :=
  {[ "Content-Type" := "application/json" ]}.

Definition endpoint (c : Config) : string :=
  interpolate (baseUrl c) +:+ "/models/" +:+ interpolate (model c) +:+
  ":generateContent?key=" +:+ interpolate (apiKey c).
End GeminiAdapter.

(** The request of [adapter.recognize(imageData, prompt)]: where it goes,
    its headers, and the model, image and instruction its body carries. *)
Record Request := mkRequest {
  url : string;
  headers : gmap string string;
  bodyModel : option string;
  bodyImage : string;
  bodyPrompt : string
}.

Definition requestHeaders (a : Adapter) : gmap string string :=
  match kind a with
  | OpenAICompatible => OpenAICompatibleAdapter.buildHeaders (config a)
  | Gemini => GeminiAdapter.requestHeaders (config a)
  | Claude => ClaudeAdapter.buildHeaders (config a)
  end.

Definition request (a : Adapter) (imageData prompt : string) : Request :=
  match kind a with
  | OpenAICompatible =>
      mkRequest (OpenAICompatibleAdapter.endpoint (config a)) (requestHeaders a)
                (model (config a)) imageData prompt
  | Gemini =>
      mkRequest (GeminiAdapter.endpoint (config a)) (requestHeaders a)
                None imageData prompt
  | Claude =>
      mkRequest (ClaudeAdapter.endpoint (config a)) (requestHeaders a)
                (model (config a)) imageData prompt
  end.

End Api.

(** ** The persisted store *)

Module Storage.
Import Api.

Record Settings := mkSettings {
  timeout : Z;
  retryCount : Z;
  autoFill : bool;
  autoSubmit : bool;
  debugMode : bool;
  historyRetention : Z
}.

Definition DEFAULT_SETTINGS : Settings :=
  {| timeout := 30000; retryCount := 3; autoFill := true; autoSubmit := false;
     debugMode := false; historyRetention := 7 |}.

Record Stats := mkStats {
  totalRequests : Z;
  successCount : Z;
  failCount : Z;
  totalTime : Z
}.

Record HistoryRecord := mkHistoryRecord {
  configName : string;
  result : string;
  success : bool;
  elapsed : Z;
  recordId : string;
  timestamp : Z
}.

(** The keys of [chrome.storage.local] the dispatcher touches.  The API
    keys are held in the clear: [encrypt] and [decrypt] are a round trip the
    model leaves out, and [decrypt] is taken not to fail.
    [chrome.runtime.lastError] is taken to be unset, so that every storage
    call resolves. *)
Record Store := mkStore {
  api_configs : list Config;
  active_config_id : string;
  settings : option Settings;
  recognition_history : list HistoryRecord;
  statistics : option Stats
}.

Definition getActiveConfigId (st : Store) : option string :=
  if JsString.truthy (active_config_id st) then Some (active_config_id st) else None.

(** [getDecryptedApiConfigs()]: the API key of each configuration becomes
    the decrypted key, or the empty string when there is none. *)
Definition decrypted (c : Config) : Config :=
  {| id := id c; name := name c; type := type c;
     baseUrl := baseUrl c; model := model c;
     apiKey := Some (default "" (truthyKey (apiKey c)));
     maxTokens := maxTokens c; temperature := temperature c;
     customHeaders := customHeaders c; customPrompt := customPrompt c |}.

Definition getDecryptedApiConfigs (st : Store) : list Config :=
  decrypted <$> api_configs st.

Definition getActiveConfig (st : Store) : option Config :=
  match getActiveConfigId st with
  | None => None
  | Some activeId =>
      List.find (fun c => String.eqb (id c) activeId) (getDecryptedApiConfigs st)
  end.

Definition getSettings (st : Store) : Settings := default DEFAULT_SETTINGS (settings st).

Definition getHistory (limit : nat) (st : Store) : list HistoryRecord :=
  take limit (recognition_history st).

Definition getStats (st : Store) : Stats :=
  default {| totalRequests := 0; successCount := 0; failCount := 0; totalTime := 0 |}
          (statistics st).

Definition updateStats (success : bool) (time : Z) (st : Store) : Store :=
  let stats := getStats st in
  let stats :=
    {| totalRequests := totalRequests stats + 1;
       successCount := if success then successCount stats + 1 else successCount stats;
       failCount := if success then failCount stats else failCount stats + 1;
       totalTime := totalTime stats + time |} in
  {| api_configs := api_configs st; active_config_id := active_config_id st;
     settings := settings st; recognition_history := recognition_history st;
     statistics := Some stats |}.

(** [addHistory(record)] at time [now], with [newId] the identifier
    [generateId()] yields. *)
Definition addHistory (configName result : string) (success : bool) (elapsed : Z)
    (newId : string) (now : Z) (st : Store) : Store :=
  let history := getHistory 999 st in
  let newRecord := mkHistoryRecord configName result success elapsed newId now in
  let history := newRecord :: history in
  let retentionMs := (historyRetention (getSettings st) * 24 * 60 * 60 * 1000)%Z in
  let cutoff := (now - retentionMs)%Z in
  let filteredHistory := List.filter (fun r => (timestamp r >? cutoff)%Z) history in
  {| api_configs := api_configs st; active_config_id := active_config_id st;
     settings := settings st; recognition_history := take 500 filteredHistory;
     statistics := statistics st |}.

End Storage.

(** ** The API manager (the recognition dispatcher) *)

Module ApiManager.
Import Api.

Definition quote : string := String (ascii_of_nat 34) EmptyString.

Definition DEFAULT_RECOGNITION_PROMPT : string :=
  "请识别这张验证码图片中的文字或数字。
要求：
1. 只返回识别出的验证码内容，不要有任何其他文字
2. 如果是数学运算验证码，请计算结果并只返回最终数字
3. 忽略图片中的干扰线条和噪点
4. 如果无法识别，请返回" +:+ quote +:+ "无法识别" +:+ quote.

(** A value that is thrown: an [Error] object, or [null] (what
    [throw lastError] throws when no attempt was made). *)
Inductive Thrown := Error (message : string) | Null.

Inductive Result (A : Type) := Returned (value : A) | Threw (error : Thrown).
Arguments Returned {A} value.
Arguments Threw {A} error.

(** How a call of [adapter.recognize] settles, and after how long. *)
Inductive Answer := Text (text : string) | Failure (message : string).
Record Reply := mkReply { latency : Z; answer : Answer }.

(** What the dispatcher does that its collaborators observe. *)
Inductive Event :=
| Fetch (time : Z) (req : Request)
| Sleep (ms : Z)
| UpdateStats (success : bool) (time : Z)
| AddHistory (configName result : string) (success : bool) (elapsed : Z).

(** The clock, the persisted store, [this.adapters], the number of calls
    made to providers so far, and the events so far. *)
Record World := mkWorld {
  now : Z;
  store : Storage.Store;
  adapters : gmap string Adapter;
  calls : nat;
  trace : list Event
}.

Record Options := mkOptions { timeoutOption : option Z; retryCountOption : option Z }.

(** The object [recognize] returns. *)
Record Outcome := mkOutcome {
  success : bool;
  text : option string;
  error : option string;
  elapsed : Z;
  attempt : option Z
}.

(** Computations that read and change the world and may throw. *)
Definition M (A : Type) : Type := World -> Result A * World.

#[global] Instance M_ret : MRet M := fun A a w => (Returned a, w).

#[global] Instance M_bind : MBind M := fun A B f m w =>
  match m w with
  | (Returned a, w') => f a w'
  | (Threw e, w') => (Threw e, w')
  end.

Definition throw {A} (e : Thrown) : M A := fun w => (Threw e, w).

Definition tryCatch {A} (body : M A) (handler : Thrown -> M A) : M A := fun w =>
  match body w with
  | (Returned a, w') => (Returned a, w')
  | (Threw e, w') => handler e w'
  end.

Definition dateNow : M Z := fun w => (Returned (now w), w).

Definition elapse (ms : Z) : M unit := fun w =>
  (Returned tt, mkWorld (now w + ms) (store w) (adapters w) (calls w) (trace w)).

Definition emit (e : Event) : M unit := fun w =>
  (Returned tt, mkWorld (now w) (store w) (adapters w) (calls w) (trace w ++ [e])).

Definition readStore {A} (f : Storage.Store -> A) : M A := fun w =>
  (Returned (f (store w)), w).

Definition writeStore (f : Storage.Store -> Storage.Store) : M unit := fun w =>
  (Returned tt, mkWorld (now w) (f (store w)) (adapters w) (calls w) (trace w)).

(** [a || b] where [a] is an optional number. *)
Definition orElseZ (a : option Z) (b : Z) : Z :=
  match a with
  | Some v => if Z.eqb v 0 then b else v
  | None => b
  end.

(** The delay of [setTimeout(f, ms)]: the number is converted to a 32-bit
    signed integer, which wraps around, and a negative delay counts as 0. *)
Definition toInt32 (n : Z) : Z := ((n + 2 ^ 31) mod 2 ^ 32 - 2 ^ 31)%Z.

Definition timerDelay (ms : Z) : Z := Z.max 0 (toInt32 ms).

(** [error.message]: a type error when [error] is [null]. *)
Definition messageOf (e : Thrown) : M string :=
  match e with
  | Error m => mret m
  | Null => throw (Error "Cannot read properties of null (reading 'message')")
  end.

(** The adapter [switch (config.type)] builds. *)
Definition newAdapter (config : Config) : Adapter :=
  if String.eqb (type config) GEMINI then newGeminiAdapter config
  else if String.eqb (type config) CLAUDE then newClaudeAdapter config
  else newOpenAICompatibleAdapter config.

Definition adapterKey (config : Config) : string :=
  JsString.orElse (id config) (type config).

Definition getAdapter (config : Config) : M Adapter := fun w =>
  let key := adapterKey config in
  match adapters w !! key with
  | Some adapter => (Returned adapter, w)
  | None =>
      let adapter := newAdapter config in
      (Returned adapter,
       mkWorld (now w) (store w) (<[ key := adapter ]> (adapters w)) (calls w) (trace w))
  end.

Definition withId (config : Config) (configId : string) : Config :=
  {| id := configId; name := name config; type := type config;
     baseUrl := baseUrl config; model := model config; apiKey := apiKey config;
     maxTokens := maxTokens config; temperature := temperature config;
     customHeaders := customHeaders config; customPrompt := customPrompt config |}.

Definition updateAdapter (configId : string) (newConfig : Config) : M unit := fun w =>
  let w :=
    match adapters w !! configId with
    | Some _ =>
        mkWorld (now w) (store w) (delete configId (adapters w)) (calls w) (trace w)
    | None => w
    end in
  (_ ← getAdapter (withId newConfig configId); mret tt) w.

Section Dispatcher.
(** The providers: what the [n]-th call made answers to a request. *)
Variable network : nat -> Request -> Reply.
(** [generateId()], from the time of the call. *)
Variable generateId : Z -> string.

Definition getActiveConfig : M (option Config) := readStore Storage.getActiveConfig.

Definition getSettings : M Storage.Settings := readStore Storage.getSettings.

Definition updateStats (success : bool) (time : Z) : M unit :=
  emit (UpdateStats success time);;
  writeStore (Storage.updateStats success time).

Definition addHistory (configName result : string) (success : bool) (elapsed : Z)
    : M unit :=
  t ← dateNow;
  emit (AddHistory configName result success elapsed);;
  writeStore (Storage.addHistory configName result success elapsed (generateId t) t).

(** [this.delay(ms)]: a timer of [ms]. *)
Definition delay (ms : Z) : M unit := emit (Sleep ms);; elapse (timerDelay ms).

(** [adapter.recognize(imageData, prompt)]: the request leaves; the reply
    is what the call will settle to. *)
Definition adapterRecognize (adapter : Adapter) (imageData prompt : string)
    : M Reply := fun w =>
  let req := request adapter imageData prompt in
  (Returned (network (calls w) req),
   mkWorld (now w) (store w) (adapters w) (S (calls w))
           (trace w ++ [Fetch (now w) req])).

(** [this.executeWithTimeout(promise, timeout)]: the call wins when it
    settles no later than the timer fires; the request of the call left
    before the timer was set, so that the call also wins when both are due
    at the same time. *)
Definition executeWithTimeout (reply : Reply) (timeout : Z) : M string :=
  if (latency reply <=? timerDelay timeout)%Z then
    elapse (latency reply);;
    match answer reply with
    | Text t => mret t
    | Failure m => throw (Error m)
    end
  else
    elapse (timerDelay timeout);;
    throw (Error ("请求超时 (" +:+ pretty timeout +:+ "ms)")).

Section Loop.
Variables (config : Config) (adapter : Adapter) (imageData prompt : string)
          (timeout retryCount startTime : Z).

(** One turn of the [for] loop: the outcome returned from inside it, or
    the error caught. *)
Definition attemptOnce (attempt : Z) : M (Outcome + Thrown) :=
  tryCatch
    (reply ← adapterRecognize adapter imageData prompt;
     text ← executeWithTimeout reply timeout;
     t ← dateNow;
     let elapsed := (t - startTime)%Z in
     updateStats true elapsed;;
     addHistory (name config) text true elapsed;;
     mret (inl {| success := true; text := Some text; error := None;
                  elapsed := elapsed; attempt := Some (attempt + 1)%Z |}))
    (fun error =>
       (if (attempt <? retryCount - 1)%Z
        then delay (1000 * (attempt + 1))
        else mret tt);;
       mret (inr error)).

(** [for (let attempt = 0; attempt < retryCount; attempt++)], with
    [lastError] carried along; [fuel] bounds the turns. *)
Fixpoint attempts (fuel : nat) (attempt : Z) (lastError : Thrown)
    : M (Outcome + Thrown) :=
  match fuel with
  | O => mret (inr lastError)
  | S fuel' =>
      if (attempt <? retryCount)%Z then
        step ← attemptOnce attempt;
        match step with
        | inl outcome => mret (inl outcome)
        | inr error => attempts fuel' (attempt + 1)%Z error
        end
      else mret (inr lastError)
  end.
End Loop.

(** The [try] block of [recognize]. *)
Definition dispatch (imageData : string) (options : Options) (startTime : Z)
    : M Outcome :=
  config ← getActiveConfig;
  match config with
  | None => throw (Error "请先配置API")
  | Some config =>
      settings ← getSettings;
      let prompt := JsString.orElse (customPrompt config) DEFAULT_RECOGNITION_PROMPT in
      let timeout := orElseZ (timeoutOption options) (Storage.timeout settings) in
      let retryCount :=
        orElseZ (retryCountOption options) (Storage.retryCount settings) in
      adapter ← getAdapter config;
      r ← attempts config adapter imageData prompt timeout retryCount startTime
            (Z.to_nat retryCount) 0%Z Null;
      match r with
      | inl outcome => mret outcome
      | inr lastError => throw lastError
      end
  end.

(** The [catch] clause of [recognize]. *)
Definition recordFailure (startTime : Z) (error : Thrown) : M Outcome :=
  t ← dateNow;
  let elapsed := (t - startTime)%Z in
  updateStats false elapsed;;
  active ← getActiveConfig;
  let configName :=
    JsString.orElse (match active with Some c => name c | None => "" end) "未知" in
  message ← messageOf error;
  addHistory configName message false elapsed;;
  message ← messageOf error;
  mret {| success := false; text := None; error := Some message;
          elapsed := elapsed; attempt := None |}.

Definition recognize (imageData : string) (options : Options) : M Outcome :=
  startTime ← dateNow;
  tryCatch (dispatch imageData options startTime) (recordFailure startTime).

End Dispatcher.

End ApiManager.

(** ** The confidence score in the words of the specification *)

Module ConfidenceSpec.
Import Dom CaptchaDetector.

(** A text contains a keyword of a list, the case of the letters
    aside. *)
Definition containsKeyword (keywords : list string) (text : string) : bool :=
  existsb (fun k => JsString.includes (JsString.toLowerCase text)
                                      (JsString.toLowerCase k)) keywords.

(** Own class/id keyword match: the class or the id of the element
    contains a keyword. *)
Definition ownKeyword (e : Element) : bool :=
  containsKeyword classKeywords (classAttr e) || containsKeyword idKeywords (elemId e).

(** Source-URL keyword match. *)
Definition sourceUrlKeyword (e : Element) : bool := containsKeyword classKeywords (src e).

(** Ancestor keyword match, within three levels. *)
Definition ancestorKeyword (doc : Document) (x : Node) : bool :=
  existsb (fun a => ownKeyword (snd a)) (ancestors doc 3 x).

(** A linked input found: the candidate has one. *)
Definition linkedInputFound (c : Candidate) : bool :=
  match inputElement c with
  | Some _ => true
  | None => false
  end.

(** Size within the envelope: width in [50,300], height in [20,100]. *)
Definition sizeWithinEnvelope (e : Element) : bool :=
  let r := rect e in
  bool_decide ((50 <= width r)%Q /\ (width r <= 300)%Q /\
               (20 <= height r)%Q /\ (height r <= 100)%Q).

(** The five signals of a candidate and its element, each with its
    weight. *)
Definition signals (doc : Document) (c : Candidate) (x : Node) : list (bool * Z) :=
  [(ownKeyword (snd x), 30%Z); (sourceUrlKeyword (snd x), 20%Z);
   (ancestorKeyword doc x, 15%Z); (linkedInputFound c, 25%Z);
   (sizeWithinEnvelope (snd x), 10%Z)].

(** The sum of the weights of the signals that fire, capped at 100. *)
Definition score (doc : Document) (c : Candidate) (x : Node) : Z :=
  Z.min 100 (fold_right Z.add 0%Z (map snd (List.filter fst (signals doc c x)))).

End ConfidenceSpec.

(** ** The scenario of the specification: an image next to its input *)

Module Scenario.
Import Dom CaptchaDetector.

Definition shown : Style :=
  {| display := "inline"; visibility := "visible"; opacity := "1" |}.

Definition page : DOMRect := {| left := 0; top := 0; width := 1280; height := 800 |}.

Definition html (cls ident : string) : Element :=
  mkElement (OTHER "html") ident cls "" "" "" "" None page
            {| display := "block"; visibility := "visible"; opacity := "1" |} None.

Definition body (cls ident : string) : Element :=
  mkElement (OTHER "body") ident cls "" "" "" "" None page
            {| display := "block"; visibility := "visible"; opacity := "1" |} (Some 0%nat).

(** [<img id="captchaImg" src="https://example.com/cap.png">], 120 by 40. *)
Definition img (x y : Q) : Element :=
  mkElement IMG "captchaImg" "" "" "" "https://example.com/cap.png" "" None
            {| left := x; top := y; width := 120; height := 40 |} shown (Some 1%nat).

(** [<input name="vcode">], 10 px to the right of the image. *)
Definition input (x y w h : Q) : Element :=
  mkElement INPUT "" "" "vcode" "" "" "" None
            {| left := x + 120 + 10; top := y; width := w; height := h |} shown (Some 1%nat).

Definition doc (x y w h : Q) (htmlClass htmlId bodyClass bodyId : string) : Document :=
  [html htmlClass htmlId; body bodyClass bodyId; img x y; input x y w h].

Definition plain : Document := doc 100 200 150 30 "" "" "" "".

(** The image of the scenario as the page shows it, and the image the
    server hands out when the source is requested again. *)
Definition shownImg : Capture.Img :=
  Capture.mkImg "https://example.com/cap.png" true 120 40 120 40 120 40 false "shown".

Definition rotatedImg : Capture.Img :=
  Capture.mkImg "https://example.com/cap.png?_t=1700000000000" true 120 40 120 40
                120 40 false "rotated".


(** A configuration that reaches its provider through a proxy that wants
    its own authorization header. *)
Definition proxied : Api.Config :=
  Api.mkConfig "cfg-1" "Proxy" "gemini" (Some "https://proxy.example.com/v1beta/")
               (Some "gemini-1.5-flash") (Some "key-1") None None
               (Some {[ "Authorization" := "Basic cHJveHk=" ]}) "".

(** A store with one configuration, the active one, and the retry count
    given; a world at time 1000 with no adapter built yet. *)
Definition openai : Api.Config :=
  Api.mkConfig "cfg-1" "My OpenAI" "openai_compatible"
               (Some "https://api.example.com/v1/") (Some "gpt-4o") (Some "sk-1")
               (Some 100%Z) None None "".

Definition stored (config : Api.Config) (retries : Z) : Storage.Store :=
  Storage.mkStore [config] "cfg-1"
                  (Some (Storage.mkSettings 30000 retries true false false 7)) [] None.

Definition world (retries : Z) : ApiManager.World :=
  ApiManager.mkWorld 1000 (stored openai retries) ∅ 0 [].

(** The same world with three attempts allowed and a history retention of
    the given number of days, as the options page saves it. *)
Definition worldKeeping (days : Z) : ApiManager.World :=
  ApiManager.mkWorld 1000
    (Storage.mkStore [openai] "cfg-1"
                     (Some (Storage.mkSettings 30000 3 true false false days)) [] None)
    ∅ 0 [].

(** A provider that rejects every call after 200 ms, and one that rejects
    two calls and then answers after 300 ms. *)
Definition failing : nat -> Api.Request -> ApiManager.Reply :=
  fun _ _ => ApiManager.mkReply 200 (ApiManager.Failure "boom").

Definition flaky : nat -> Api.Request -> ApiManager.Reply :=
  fun n _ => if (n <? 2)%nat then ApiManager.mkReply 200 (ApiManager.Failure "boom")
             else ApiManager.mkReply 300 (ApiManager.Text "AB3x").

Definition stamp (t : Z) : string := "id-" +:+ pretty t.

Definition noOptions : ApiManager.Options := ApiManager.mkOptions None None.

(** The same configuration after its endpoint was edited, and a world
    whose cache still holds the adapter built before the edit. *)
Definition moved : Api.Config :=
  Api.mkConfig "cfg-1" "My OpenAI" "openai_compatible"
               (Some "https://new.example.com/v1") (Some "gpt-4o") (Some "sk-1")
               (Some 100%Z) None None "".

Definition staleWorld : ApiManager.World :=
  ApiManager.mkWorld 1000 (stored moved 1)
                     {[ "cfg-1" := ApiManager.newAdapter openai ]} 0 [].

End Scenario.

(** ** Vocabulary of the statements *)

Module Vocabulary.

(** The test a scan puts an element of a type to, and the first part of
    the identifier it gives a candidate of that type. *)
Definition likely (doc : Dom.Document) (t : CaptchaDetector.CaptchaType)
    : Dom.Node -> Js.Result bool :=
  match t with
  | CaptchaDetector.image => CaptchaDetector.isLikelyCaptcha doc
  | CaptchaDetector.canvas => CaptchaDetector.isLikelyCanvasCaptcha doc
  | CaptchaDetector.svg => CaptchaDetector.isLikelySvgCaptcha doc
  end.

Definition tagOf (t : CaptchaDetector.CaptchaType) : Dom.Tag :=
  match t with
  | CaptchaDetector.image => Dom.IMG
  | CaptchaDetector.canvas => Dom.CANVAS
  | CaptchaDetector.svg => Dom.SVG
  end.

Definition idPrefix (t : CaptchaDetector.CaptchaType) : string :=
  match t with
  | CaptchaDetector.image => "captcha-"
  | CaptchaDetector.canvas => "captcha-canvas-"
  | CaptchaDetector.svg => "captcha-svg-"
  end.

(** The entry a scan pushes for the element at an index of the list it
    goes through. *)
Definition entry (t : CaptchaDetector.CaptchaType) (x : Dom.Node) (index : nat)
    (confidence : Z) (input : option Dom.Node) : CaptchaDetector.Candidate :=
  {| CaptchaDetector.type := t;
     CaptchaDetector.element := fst x;
     CaptchaDetector.candSrc :=
       match t with
       | CaptchaDetector.image => Some (Dom.src (snd x))
       | _ => None
       end;
     CaptchaDetector.candRect := Dom.rect (snd x);
     CaptchaDetector.confidence := confidence;
     CaptchaDetector.inputElement := fst <$> input;
     CaptchaDetector.id := idPrefix t +:+ pretty index |}.

(** What a scan decides about the element at an index: no entry, the
    entry it pushes, or the error one of its calls throws. *)
Definition examine (doc : Dom.Document) (t : CaptchaDetector.CaptchaType)
    (x : Dom.Node) (index : nat) : Js.Result (option CaptchaDetector.Candidate) :=
  passes ← likely doc t x;
  if passes : bool then
    confidence ← CaptchaDetector.calculateConfidence doc x;
    input ← CaptchaDetector.findRelatedInput doc x;
    mret (Some (entry t x index confidence input))
  else mret None.

(** One turn of the [forEach] of a scan, by what it decides. *)
Definition visit (doc : Dom.Document) (t : CaptchaDetector.CaptchaType)
    (x : Dom.Node) (index : nat) : CaptchaDetector.D unit := fun this =>
  match examine doc t x index with
  | Js.Returned (Some c) => CaptchaDetector.push c this
  | Js.Returned None => (Js.Returned tt, this)
  | Js.TypeError member => (Js.TypeError member, this)
  end.

(** The entries a scan pushes for the elements of a list, from an index
    on, and how it gets through the list: to the end, or up to the
    element on which a call throws. *)
Fixpoint pushes (doc : Dom.Document) (t : CaptchaDetector.CaptchaType)
    (index : nat) (l : list Dom.Node)
    : Js.Result unit * list CaptchaDetector.Candidate :=
  match l with
  | [] => (Js.Returned tt, [])
  | x :: l' =>
      match examine doc t x index with
      | Js.Returned (Some c) =>
          let '(r, cs) := pushes doc t (S index) l' in (r, c :: cs)
      | Js.Returned None => pushes doc t (S index) l'
      | Js.TypeError member => (Js.TypeError member, [])
      end
  end.

(** The elements of the tag of a type, in document order, and those of
    them that pass the test of the type. *)
Definition selected (doc : Dom.Document) (t : CaptchaDetector.CaptchaType)
    : list Dom.Node :=
  Dom.querySelectorAll doc (Dom.isTag (tagOf t)).

Definition passes (doc : Dom.Document) (t : CaptchaDetector.CaptchaType)
    (x : Dom.Node) : bool :=
  match likely doc t x with
  | Js.Returned true => true
  | _ => false
  end.


(** An HTML element that reads its own class, id and parent: it is no
    element of the SVG namespace, and no form with a control named
    [className], [id] or [parentElement]. *)
Definition plainElement (e : Dom.Element) : bool :=
  match Dom.named e "className", Dom.named e "id", Dom.named e "parentElement",
        Dom.tagName e with
  | _, _, _, Dom.SVG | _, _, _, Dom.GRAPHIC _ => false
  | None, None, None, _ => true
  | _, _, _, _ => false
  end.

(** The elements the walk up of [findRelatedInput] visits from what
    [parent] holds, nearest first, at most [fuel] of them. *)
Fixpoint walk (doc : Dom.Document) (fuel : nat) (parent : Dom.Parent) : list Dom.Node :=
  match fuel with
  | O => []
  | S fuel' =>
      match parent with
      | Dom.ParentElement p => p :: walk doc fuel' (Dom.parentElementOf doc p)
      | _ => []
      end
  end.


(** The entries a scan leaves: each comes from an element of the document
    with the tag of its type that passed the test of that type, with the
    confidence and the input computed for that element. *)
Definition fromElement (doc : Dom.Document) (c : CaptchaDetector.Candidate)
    (x : Dom.Node) : Prop :=
  doc !! CaptchaDetector.element c = Some (snd x) /\
  fst x = CaptchaDetector.element c /\
  Dom.tagName (snd x) = tagOf (CaptchaDetector.type c) /\
  likely doc (CaptchaDetector.type c) x = Js.Returned true /\
  CaptchaDetector.calculateConfidence doc x
    = Js.Returned (CaptchaDetector.confidence c) /\
  (exists input,
     CaptchaDetector.findRelatedInput doc x = Js.Returned input /\
     CaptchaDetector.inputElement c = fst <$> input) /\
  CaptchaDetector.candRect c = Dom.rect (snd x).








(** How an attempt ends whose call gets this reply: the message of the
    error the loop catches, or the text the adapter resolves to in time. *)
Definition attemptError (reply : ApiManager.Reply) (timeout : Z) : option string :=
  if (ApiManager.latency reply <=? ApiManager.timerDelay timeout)%Z then
    match ApiManager.answer reply with
    | ApiManager.Failure m => Some m
    | ApiManager.Text _ => None
    end
  else Some ("请求超时 (" +:+ pretty timeout +:+ "ms)").

Definition attemptText (reply : ApiManager.Reply) (timeout : Z) : option string :=
  if (ApiManager.latency reply <=? ApiManager.timerDelay timeout)%Z then
    match ApiManager.answer reply with
    | ApiManager.Failure _ => None
    | ApiManager.Text t => Some t
    end
  else None.

(** How long an attempt lasts: until the call settles or the timer fires. *)
Definition spent (reply : ApiManager.Reply) (timeout : Z) : Z :=
  if (ApiManager.latency reply <=? ApiManager.timerDelay timeout)%Z
  then ApiManager.latency reply
  else ApiManager.timerDelay timeout.

(** The adapter [getAdapter] hands out for a configuration. *)
Definition adapterFor (w : ApiManager.World) (config : Api.Config) : Api.Adapter :=
  default (ApiManager.newAdapter config)
          (ApiManager.adapters w !! ApiManager.adapterKey config).

(** The requests among some events. *)
Definition requestsOf (evs : list ApiManager.Event) : list Api.Request :=
  omap (fun e => match e with
                 | ApiManager.Fetch _ req => Some req
                 | _ => None
                 end) evs.

(** The statistics after one more request that took [time]. *)
Definition counted (stats : Storage.Stats) (ok : bool) (time : Z) : Storage.Stats :=
  {| Storage.totalRequests := Storage.totalRequests stats + 1;
     Storage.successCount :=
       if ok then Storage.successCount stats + 1 else Storage.successCount stats;
     Storage.failCount :=
       if ok then Storage.failCount stats else Storage.failCount stats + 1;
     Storage.totalTime := Storage.totalTime stats + time |}.

(** What the recording of one outcome leaves in the store: the statistics
    count one more request; with a positive retention the record is the
    newest entry of the history, before entries that were there; with a
    retention of zero days or less the record is not kept; configurations
    and settings are as they were. *)
Definition recorded (before after : Storage.Store) (record : Storage.HistoryRecord)
    : Prop :=
  Storage.api_configs after = Storage.api_configs before /\
  Storage.active_config_id after = Storage.active_config_id before /\
  Storage.settings after = Storage.settings before /\
  Storage.statistics after =
    Some (counted (Storage.getStats before) (Storage.success record)
                  (Storage.elapsed record)) /\
  let retention := Storage.historyRetention (Storage.getSettings before) in
  ((0 < retention)%Z ->
   exists older,
     Storage.recognition_history after = record :: older /\
     sublist older (Storage.recognition_history before)) /\
  ((retention <= 0)%Z ->
   (record ∉ Storage.recognition_history after) /\
   sublist (Storage.recognition_history after) (Storage.recognition_history before)).

(** The stats updates and the history records among some events. *)
Definition recordings (evs : list ApiManager.Event) : list ApiManager.Event :=
  List.filter (fun e => match e with
                        | ApiManager.UpdateStats _ _ | ApiManager.AddHistory _ _ _ _ => true
                        | _ => false
                        end) evs.


End Vocabulary.

(** ** The image the adapters put in the request body *)

Module Payload.

(** The characters the dot of a regular expression leaves out: the line
    terminators LF, CR, U+2028 and U+2029, the last two in UTF-8. *)
Definition lineFeed : string := String (ascii_of_nat 10) "".
Definition carriageReturn : string := String (ascii_of_nat 13) "".
Definition lineSeparator : string :=
  String (ascii_of_nat 226) (String (ascii_of_nat 128) (String (ascii_of_nat 168) "")).
Definition paragraphSeparator : string :=
  String (ascii_of_nat 226) (String (ascii_of_nat 128) (String (ascii_of_nat 169) "")).

Definition hasLineTerminator (s : string) : bool :=
  JsString.includes s lineFeed || JsString.includes s carriageReturn ||
  JsString.includes s lineSeparator || JsString.includes s paragraphSeparator.

(** What [[^;]+] can take: the longest prefix without a semicolon, and
    what follows it. *)
Fixpoint untilSemicolon (s : string) : string * string :=
  match s with
  | EmptyString => ("", "")
  | String c s' =>
      if Ascii.eqb c ";" then ("", s)
      else let '(m, r) := untilSemicolon s' in (String c m, r)
  end.

(** The string after a literal prefix of the pattern. *)
Fixpoint after (p s : string) : option string :=
  match p, s with
  | EmptyString, _ => Some s
  | String a p', String b s' => if Ascii.eqb a b then after p' s' else None
  | String _ _, EmptyString => None
  end.

(** [imageData.match(/^data:([^;]+);base64,(.+)$/)]: the two groups of
    the match, [None] when there is no match. *)
Definition matchDataUrl (imageData : string) : option (string * string) :=
  match after "data:" imageData with
  | None => None
  | Some rest =>
      let '(group1, rest) := untilSemicolon rest in
      if negb (JsString.truthy group1) then None
      else
        match after ";base64," rest with
        | None => None
        | Some group2 =>
            if JsString.truthy group2 && negb (hasLineTerminator group2)
            then Some (group1, group2)
            else None
        end
  end.

(** The Claude adapter's [media_type] and [data], and the Gemini
    adapter's [mime_type] and [data]: the same lines in both. *)
Definition mediaTypeAndData (imageData : string) : string * string :=
  let base64Data := imageData in
  let mediaType := "image/png" in
  if JsString.startsWith imageData "data:" then
    match matchDataUrl imageData with
    | Some (group1, group2) => (group1, group2)
    | None => (mediaType, base64Data)
    end
  else (mediaType, base64Data).

(** The OpenAI-compatible adapter's [image_url.url]. *)
Definition imageUrl (imageData : string) : string :=
  if JsString.startsWith imageData "data:" then imageData
  else "data:image/png;base64," +:+ imageData.

End Payload.

(** ** Capturing a canvas or an svg element (content.js) *)

Module SvgCapture.
Import Capture.

(** What [captureSvgElement] does, in order. *)
Inductive Step :=
| CloneNode
| SerializeToString
| CreateObjectURL (url : string)
| SetSrc (url : string)               (* img.src = url *)
| NewCanvas (w h : Z)
| Draw
| RevokeObjectURL (url : string)
| Serialize.                          (* canvas.toDataURL('image/png') *)

(** How the image built from the markup comes out: it loads, with its
    bitmap and whether it taints a canvas, or it fails to load. *)
Inductive Rasterized := Loaded (bitmap : string) (taints : bool) | Broken.

Record Svg := mkSvg { rectWidth : Q; rectHeight : Q }.

Record Run := mkRun {
  outcome : option (Settled string);    (* [None]: the promise never settles *)
  steps : list Step
}.

Section Serializer.
Variable pngPayload : string -> Z -> Z -> string.

(** [captureSvgElement(svg)], with [url] the object URL the browser hands
    out.  A security error of [toDataURL] is thrown inside the load
    handler, where nothing catches it: the promise is left pending. *)
Definition captureSvgElement (svg : Svg) (url : string) (image : Rasterized) : Run :=
  let prepared := [CloneNode; SerializeToString; CreateObjectURL url; SetSrc url] in
  match image with
  | Loaded bitmap taints =>
      let w := Qfloor (rectWidth svg) in
      let h := Qfloor (rectHeight svg) in
      let done := prepared ++ [NewCanvas w h; Draw; RevokeObjectURL url; Serialize] in
      match toDataURL pngPayload (mkCanvas w h bitmap (negb taints)) with
      | Resolved dataUrl => mkRun (Some (Resolved dataUrl)) done
      | Rejected _ => mkRun None done
      end
  | Broken =>
      mkRun (Some (Rejected "SVG转换失败")) (prepared ++ [RevokeObjectURL url])
  end.

(** [captureCanvasElement(canvas)]: an async function, so that a security
    error rejects the promise. *)
Definition captureCanvasElement (c : Canvas) : Settled string :=
  toDataURL pngPayload c.

End Serializer.

End SvgCapture.

(** ** The configurations in the store *)

Module ConfigStore.
Import Api Storage.

(** The properties an update object may carry. *)
Record Updates := mkUpdates {
  uId : option string;
  uName : option string;
  uType : option string;
  uBaseUrl : option string;
  uModel : option string;
  uApiKey : option string;
  uMaxTokens : option Z;
  uTemperature : option Q;
  uCustomHeaders : option (gmap string string);
  uCustomPrompt : option string
}.

Definition setApiConfigs (configs : list Config) (st : Store) : Store :=
  {| api_configs := configs; active_config_id := active_config_id st;
     settings := settings st; recognition_history := recognition_history st;
     statistics := statistics st |}.

Definition setActiveConfigId (id : string) (st : Store) : Store :=
  {| api_configs := api_configs st; active_config_id := id;
     settings := settings st; recognition_history := recognition_history st;
     statistics := statistics st |}.

(** [remove(STORAGE_KEYS.ACTIVE_CONFIG_ID)]. *)
Definition removeActiveConfigId (st : Store) : Store := setActiveConfigId "" st.

(** [key ? await encrypt(key) : ''], the store holding keys in the clear. *)
Definition storedKey (key : option string) : option string :=
  Some (default "" (truthyKey key)).

(** [addApiConfig(config)], with [newId] what [generateId()] yields: the
    identifier returned and the store afterwards.  The [createdAt] stamp,
    which nothing reads, is left out. *)
Definition addApiConfig (config : Config) (newId : string) (st : Store)
    : string * Store :=
  let configs := api_configs st in
  let newConfig :=
    {| id := newId; name := name config; type := type config;
       baseUrl := baseUrl config; model := model config;
       apiKey := storedKey (apiKey config);
       maxTokens := maxTokens config; temperature := temperature config;
       customHeaders := customHeaders config; customPrompt := customPrompt config |} in
  let configs := configs ++ [newConfig] in
  let st := setApiConfigs configs st in
  let st := if Nat.eqb (length configs) 1 then setActiveConfigId (id newConfig) st
            else st in
  (id newConfig, st).

(** [Array.prototype.findIndex], [None] for -1. *)
Fixpoint findIndex {A} (p : A -> bool) (l : list A) : option nat :=
  match l with
  | [] => None
  | x :: l' => if p x then Some 0%nat else S <$> findIndex p l'
  end.

(** [{ ...config, ...updates }], after the key of the update was encrypted
    again.  The [updatedAt] stamp is left out. *)
Definition merge (config : Config) (updates : Updates) : Config :=
  {| id := default (id config) (uId updates);
     name := default (name config) (uName updates);
     type := default (type config) (uType updates);
     baseUrl := spread (baseUrl config) (uBaseUrl updates);
     model := spread (model config) (uModel updates);
     apiKey := match uApiKey updates with
               | Some key => storedKey (Some key)
               | None => apiKey config
               end;
     maxTokens := spread (maxTokens config) (uMaxTokens updates);
     temperature := spread (temperature config) (uTemperature updates);
     customHeaders := spread (customHeaders config) (uCustomHeaders updates);
     customPrompt := default (customPrompt config) (uCustomPrompt updates) |}.

(** [updateApiConfig(id, updates)]: the message of the error thrown, or
    the store afterwards. *)
Definition updateApiConfig (id : string) (updates : Updates) (st : Store)
    : string + Store :=
  let configs := api_configs st in
  match findIndex (fun c => String.eqb (Api.id c) id) configs with
  | None => inl "配置不存在"
  | Some index =>
      inr (setApiConfigs (alter (fun c => merge c updates) index configs) st)
  end.

(** [deleteApiConfig(id)]. *)
Definition deleteApiConfig (id : string) (st : Store) : Store :=
  let configs := api_configs st in
  let filteredConfigs := List.filter (fun c => negb (String.eqb (Api.id c) id)) configs in
  let st := setApiConfigs filteredConfigs st in
  let activeId := getActiveConfigId st in
  let activeIsId :=
    match activeId with
    | Some a => String.eqb a id
    | None => false
    end in
  if activeIsId && (0 <? length filteredConfigs)%nat then
    match filteredConfigs with
    | first :: _ => setActiveConfigId (Api.id first) st
    | [] => st
    end
  else if (length filteredConfigs =? 0)%nat then removeActiveConfigId st
  else st.

(** What the options page does to the configurations. *)
Inductive Operation :=
| Add (config : Config) (newId : string)
| Update (id : string) (updates : Updates)
| Delete (id : string)
| Activate (id : string).

(** An operation the options page can issue on a store: identifiers
    generated are not empty, the page edits a configuration without
    touching its identifier, and it activates a configuration it lists. *)
Definition issuable (op : Operation) (st : Store) : bool :=
  match op with
  | Add _ newId => JsString.truthy newId
  | Update _ updates => bool_decide (uId updates = None)
  | Delete _ => true
  | Activate id => existsb (fun c => String.eqb (Api.id c) id) (api_configs st)
  end.

Definition apply (op : Operation) (st : Store) : Store :=
  match op with
  | Add config newId => snd (addApiConfig config newId st)
  | Update id updates =>
      match updateApiConfig id updates st with
      | inr st' => st'
      | inl _ => st
      end
  | Delete id => deleteApiConfig id st
  | Activate id => setActiveConfigId id st
  end.

(** The store after a sequence of operations, [None] when one of them
    could not be issued. *)
Fixpoint run (ops : list Operation) (st : Store) : option Store :=
  match ops with
  | [] => Some st
  | op :: ops' => if issuable op st then run ops' (apply op st) else None
  end.

Definition empty : Store := mkStore [] "" None [] None.

End ConfigStore.

(** ** Testing a connection (the API manager) *)

Module ConnectionTest.
Import Api ApiManager.

Definition TEST_PROMPT : string :=
  "Hi, please respond with " +:+ quote +:+ "OK" +:+ quote +:+ " to confirm the connection.".

(** The request of [adapter.testConnection()]: no image, the fixed
    greeting. *)
Definition testRequest (a : Adapter) : Request :=
  match kind a with
  | OpenAICompatible =>
      mkRequest (OpenAICompatibleAdapter.endpoint (config a))
                (OpenAICompatibleAdapter.buildHeaders (config a))
                (model (config a)) "" TEST_PROMPT
  | Gemini =>
      mkRequest (GeminiAdapter.endpoint (config a))
                {[ "Content-Type" := "application/json" ]}
                None "" TEST_PROMPT
  | Claude =>
      mkRequest (ClaudeAdapter.endpoint (config a))
                (ClaudeAdapter.buildHeaders (config a))
                (model (config a)) "" TEST_PROMPT
  end.

(** The object [testConnection] returns. *)
Record TestOutcome := mkTestOutcome {
  success : bool;
  message : option string;
  error : option string;
  elapsed : Z
}.

Section Manager.
Variable network : nat -> Request -> Reply.

(** [adapter.testConnection()]: the request leaves; the call resolves,
    with the message 连接成功, when the reply is an answer, and rejects
    with the error of the reply otherwise. *)
Definition adapterTestConnection (adapter : Adapter) : M Reply := fun w =>
  let req := testRequest adapter in
  let reply := network (calls w) req in
  (Returned (mkReply (latency reply)
                     match answer reply with
                     | Text _ => Text "连接成功"
                     | Failure m => Failure m
                     end),
   mkWorld (now w) (store w) (adapters w) (S (calls w))
           (trace w ++ [Fetch (now w) req])).

(** [testConnection(config)]: a temporary adapter, a timeout of thirty
    seconds. *)
Definition testConnection (config : Config) : M TestOutcome :=
  startTime ← dateNow;
  tryCatch
    (let adapter := newAdapter config in
     reply ← adapterTestConnection adapter;
     resultMessage ← executeWithTimeout reply 30000;
     t ← dateNow;
     let elapsed := (t - startTime)%Z in
     mret {| success := true;
             message := Some (JsString.orElse resultMessage "连接成功");
             error := None; elapsed := elapsed |})
    (fun error =>
       t ← dateNow;
       let elapsed := (t - startTime)%Z in
       errorMessage ← messageOf error;
       mret {| success := false; message := None; error := Some errorMessage;
               elapsed := elapsed |}).

End Manager.

End ConnectionTest.

(** ** The service worker: the messages it answers *)

Module ServiceWorker.
Import Api ApiManager.

(** The messages of the [switch] of [handleMessage] that reach the
    dispatcher or read the store, and [otherAction] for an action the
    switch does not list.  A property that is absent is [None]. *)
Inductive Message :=
| recognizeCaptcha (imageData : option string)
| testConnection (config : option Config)
| getActiveConfig
| getSettings
| getStats
| getHistory (limit : option nat)
| otherAction.

(** The objects handed to [sendResponse]. *)
Inductive Response :=
| Recognized (result : Outcome)
| Tested (result : ConnectionTest.TestOutcome)
| Failed (error : string)
| ActiveConfig (config : option Config)
| SettingsOf (settings : Storage.Settings)
| StatsOf (stats : Storage.Stats)
| HistoryOf (history : list Storage.HistoryRecord).

(** The dispatcher's world and the responses sent so far. *)
Record Worker := mkWorker { world : World; sent : list Response }.

Definition W (A : Type) : Type := Worker -> Result A * Worker.

#[global] Instance W_ret : MRet W := fun A a s => (Returned a, s).

#[global] Instance W_bind : MBind W := fun A B f m s =>
  match m s with
  | (Returned a, s') => f a s'
  | (Threw e, s') => (Threw e, s')
  end.

(** A call into the API manager or the storage module. *)
Definition await {A} (m : M A) : W A := fun s =>
  let '(r, w) := m (world s) in (r, mkWorker w (sent s)).

Definition sendResponse (r : Response) : W unit := fun s =>
  (Returned tt, mkWorker (world s) (sent s ++ [r])).

Definition tryCatchW {A} (body : W A) (handler : Thrown -> W A) : W A := fun s =>
  match body s with
  | (Returned a, s') => (Returned a, s')
  | (Threw e, s') => handler e s'
  end.

(** [!value] on an optional string. *)
Definition missing (value : option string) : bool :=
  match value with
  | Some v => negb (JsString.truthy v)
  | None => true
  end.

(** [config.apiKey ? '******' : '']. *)
Definition mask (config : Config) : Config :=
  {| id := id config; name := name config; type := type config;
     baseUrl := baseUrl config; model := model config;
     apiKey := match truthyKey (apiKey config) with
               | Some _ => Some "******"
               | None => Some ""
               end;
     maxTokens := maxTokens config; temperature := temperature config;
     customHeaders := customHeaders config; customPrompt := customPrompt config |}.

(** [message.limit || 50]. *)
Definition limitOr50 (limit : option nat) : nat :=
  match limit with
  | Some (S n) => S n
  | _ => 50
  end.

Section Handlers.
Variable network : nat -> Request -> Reply.
Variable generateId : Z -> string.

Definition handleRecognizeCaptcha (imageData : option string) : W unit :=
  if missing imageData then sendResponse (Failed "缺少图像数据")
  else
    result ← await (recognize network generateId (default "" imageData)
                              (mkOptions None None));
    sendResponse (Recognized result).

Definition handleTestConnection (config : option Config) : W unit :=
  match config with
  | None => sendResponse (Failed "缺少配置信息")
  | Some config =>
      result ← await (ConnectionTest.testConnection network config);
      sendResponse (Tested result)
  end.

Definition handleGetActiveConfig : W unit :=
  config ← await ApiManager.getActiveConfig;
  sendResponse (ActiveConfig (mask <$> config)).

Definition handleGetSettings : W unit :=
  settings ← await ApiManager.getSettings;
  sendResponse (SettingsOf settings).

Definition handleGetStats : W unit :=
  stats ← await (readStore Storage.getStats);
  sendResponse (StatsOf stats).

Definition handleGetHistory (limit : option nat) : W unit :=
  let limit := limitOr50 limit in
  history ← await (readStore (Storage.getHistory limit));
  sendResponse (HistoryOf history).

Definition handleMessage (message : Message) : W unit :=
  tryCatchW
    (match message with
     | recognizeCaptcha imageData => handleRecognizeCaptcha imageData
     | testConnection config => handleTestConnection config
     | getActiveConfig => handleGetActiveConfig
     | getSettings => handleGetSettings
     | getStats => handleGetStats
     | getHistory limit => handleGetHistory limit
     | otherAction => sendResponse (Failed "未知操作")
     end)
    (fun error =>
       errorMessage ← await (messageOf error);
       sendResponse (Failed errorMessage)).

End Handlers.

End ServiceWorker.

(** ** The content script: answering a recognize request *)

Module ContentScript.
Import Dom CaptchaDetector.

(** The object the service worker answers a [recognizeCaptcha] message
    with, by the properties read. *)
Record Reply := mkReply {
  success : bool;
  text : option string;
  error : option string;
  elapsed : option Z
}.

(** The objects handed to [sendResponse]. *)
Inductive Response :=
| Recognized (text : option string) (elapsed : option Z) (captchaId : string)
| Failed (error : option string).

Inductive Event :=
| Highlight (captcha : Candidate)
| Unhighlight (captcha : Candidate)
| Wait (ms : Z)
| CaptureImage (captcha : Candidate)
| SendMessage (imageData : string)       (* action: 'recognizeCaptcha' *)
| SendResponse (response : Response).

(** The variables of the content script, and what it has done so far. *)
Record Page := mkPage {
  detector : Detector;
  currentCaptcha : option Candidate;
  isProcessing : bool;
  events : list Event
}.

Definition log (e : Event) (p : Page) : Page :=
  mkPage (detector p) (currentCaptcha p) (isProcessing p) (events p ++ [e]).

Definition setCurrentCaptcha (c : Candidate) (p : Page) : Page :=
  mkPage (detector p) (Some c) (isProcessing p) (events p).

Definition setIsProcessing (b : bool) (p : Page) : Page :=
  mkPage (detector p) (currentCaptcha p) b (events p).

(** How a block of statements ends: it runs to its end, it throws an
    error with a message, or it waits for a promise that never settles. *)
Inductive Completion := Completed | Throws (message : string) | Waits.

Section Handlers.
(** [document.body.contains(captcha.element)]. *)
Variable contains : Candidate -> bool.
(** [captcha.element.getBoundingClientRect()] at the time of the call. *)
Variable boundingRect : Candidate -> DOMRect.
(** [detector.captureImage(captcha)]: how the promise settles, [None]
    when it never does. *)
Variable captureImage : Candidate -> option (Capture.Settled string).
(** [chrome.runtime.sendMessage] of the image to the service worker. *)
Variable coordinator : string -> Capture.Settled Reply.

(** [captchaId ? captchas.find(c => c.id === captchaId)
              : detector.getMostLikelyCaptcha()]. *)
Definition chosen (captchaId : string) (p : Page) : option Candidate :=
  let captchas := detectedCaptchas (detector p) in
  if JsString.truthy captchaId
  then List.find (fun c => String.eqb (id c) captchaId) captchas
  else getMostLikelyCaptcha (detector p).

(** The [try] block of [handleRecognize].  The length of the image data
    is counted in bytes, which is its length in JavaScript for the ASCII
    text of a data URI. *)
Definition tryBlock (captchaId : string) (p : Page) : Completion * Page :=
  match chosen captchaId p with
  | None => (Throws "未找到验证码", p)
  | Some captcha =>
      if negb (contains captcha) then (Throws "验证码元素已不存在，请重新扫描", p)
      else
        let p := setCurrentCaptcha captcha p in
        let p := log (Highlight captcha) p in
        let p := log (Wait 100) p in
        let rect := boundingRect captcha in
        if Qeq_bool (width rect) 0 || Qeq_bool (height rect) 0
        then (Throws "验证码元素不可见", p)
        else
          let p := log (CaptureImage captcha) p in
          match captureImage captcha with
          | None => (Waits, p)
          | Some (Capture.Rejected message) => (Throws message, p)
          | Some (Capture.Resolved imageData) =>
              if negb (JsString.truthy imageData) ||
                 (String.length imageData <? 100)%nat
              then (Throws "图像数据无效，请重试", p)
              else
                let p := log (SendMessage imageData) p in
                match coordinator imageData with
                | Capture.Rejected message => (Throws message, p)
                | Capture.Resolved response =>
                    let p := log (Unhighlight captcha) p in
                    if success response then
                      (Completed,
                       log (SendResponse (Recognized (text response) (elapsed response)
                                                     (id captcha))) p)
                    else
                      (Completed, log (SendResponse (Failed (error response))) p)
                end
          end
  end.

(** [handleRecognize(captchaId, sendResponse)]: the page when the call
    has run as far as it gets. *)
Definition handleRecognize (captchaId : string) (p : Page) : Page :=
  if isProcessing p then log (SendResponse (Failed (Some "正在处理中"))) p
  else
    let p := setIsProcessing true p in
    match tryBlock captchaId p with
    | (Completed, p) => setIsProcessing false p
    | (Throws message, p) =>
        let p :=
          match currentCaptcha p with
          | Some c => log (Unhighlight c) p
          | None => p
          end in
        let p := log (SendResponse (Failed (Some message))) p in
        setIsProcessing false p
    | (Waits, p) => p
    end.

End Handlers.

End ContentScript.

(** ** The element pickers *)

Module PickerEvents.

(** What is under the pointer: the picker's own overlay or tooltip (or
    nothing), an element with the img, canvas or svg the handler settles
    on, or an element without one. *)
Inductive Hover := OverPicker | OverTarget (element : nat) | OverOther.

(** What the user does.  A click lands on the cancel button of the
    tooltip or elsewhere. *)
Inductive UserEvent :=
| MouseMove (under : Hover)
| Click (onCancelButton : bool)
| KeyDown (key : string).

(** The object handed to the callback. *)
Inductive Selection :=
| Selected (element : nat) (selector : string)
| Cancelled.

End PickerEvents.

(** *** element-picker.js *)

Module ElementPicker.
Import PickerEvents.

(** The variables of the module; [listening] holds while the three
    listeners are registered on the document, [tooltip] while the tooltip
    with its cancel button is in the page; [calls] are the calls made to
    callbacks, each with the callback it went to. *)
Record State := mkState {
  isActive : bool;
  hoveredElement : option nat;
  onSelectCallback : option nat;
  listening : bool;
  tooltip : bool;
  calls : list (nat * Selection)
}.

Definition initial : State := mkState false None None false false [].

Inductive Action :=
| Start (callback : nat)      (* window.__captchaPicker.start(callback) *)
| Stop                        (* window.__captchaPicker.stop() *)
| User (e : UserEvent).

Section Picker.
(** [generateSelector(element)], [None] when it throws. *)
Variable generateSelector : nat -> option string.

Definition startPicker (callback : nat) (s : State) : State :=
  if isActive s then s
  else mkState true (hoveredElement s) (Some callback) true true (calls s).

Definition stopPicker (s : State) : State :=
  if negb (isActive s) then s
  else mkState false (hoveredElement s) None false false (calls s).

(** [if (onSelectCallback) onSelectCallback(result)]. *)
Definition notify (result : Selection) (s : State) : State :=
  match onSelectCallback s with
  | Some callback =>
      mkState (isActive s) (hoveredElement s) (onSelectCallback s) (listening s)
              (tooltip s) (calls s ++ [(callback, result)])
  | None => s
  end.

Definition handleMouseMove (under : Hover) (s : State) : State :=
  if negb (isActive s) then s
  else
    match under with
    | OverPicker => s
    | OverTarget e =>
        mkState (isActive s) (Some e) (onSelectCallback s) (listening s) (tooltip s)
                (calls s)
    | OverOther =>
        mkState (isActive s) None (onSelectCallback s) (listening s) (tooltip s)
                (calls s)
    end.

(** The click listener of the document, registered for the capture
    phase: whether it stopped the propagation of the event, and the
    state. *)
Definition handleClick (s : State) : bool * State :=
  if negb (isActive s) then (false, s)
  else
    (true,
     match hoveredElement s with
     | Some e =>
         match generateSelector e with
         | Some selector =>
             let s := stopPicker s in
             notify (Selected e selector) s
         | None => s
         end
     | None => s
     end).

Definition handleKeyDown (key : string) (s : State) : State :=
  if negb (isActive s) then s
  else if String.eqb key "Escape" then
    let s := stopPicker s in
    notify Cancelled s
  else s.

(** The click listener of the cancel button. *)
Definition handleCancelClick (s : State) : State :=
  let s := stopPicker s in
  notify Cancelled s.

(** An event of the user goes to the listeners of the document first;
    a click reaches the cancel button when it landed there, the button is
    in the page and the propagation was not stopped on the way. *)
Definition dispatch (e : UserEvent) (s : State) : State :=
  match e with
  | MouseMove under => if listening s then handleMouseMove under s else s
  | Click onCancelButton =>
      let '(stopped, s') := if listening s then handleClick s else (false, s) in
      if onCancelButton && tooltip s && negb stopped then handleCancelClick s' else s'
  | KeyDown key => if listening s then handleKeyDown key s else s
  end.

Definition step (s : State) (a : Action) : State :=
  match a with
  | Start callback => startPicker callback s
  | Stop => stopPicker s
  | User e => dispatch e s
  end.

Definition run (actions : list Action) : State := fold_left step actions initial.

End Picker.

End ElementPicker.

(** *** content.js: [initElementPicker] *)

Module ContentPicker.
Import PickerEvents.

(** The variables of one call of [initElementPicker(callback)], and the
    results handed to its callback. *)
Record State := mkState {
  isActive : bool;
  hoveredElement : option nat;
  listening : bool;
  tooltip : bool;
  results : list Selection
}.

(** The state when [initElementPicker] returns. *)
Definition initial : State := mkState true None true true [].

Section Picker.
Variable generateSelector : nat -> option string.

Definition cleanup (s : State) : State :=
  mkState false (hoveredElement s) false false (results s).

Definition callback (result : Selection) (s : State) : State :=
  mkState (isActive s) (hoveredElement s) (listening s) (tooltip s)
          (results s ++ [result]).

Definition handleMouseMove (under : Hover) (s : State) : State :=
  if negb (isActive s) then s
  else
    match under with
    | OverPicker => s
    | OverTarget e => mkState (isActive s) (Some e) (listening s) (tooltip s) (results s)
    | OverOther => mkState (isActive s) None (listening s) (tooltip s) (results s)
    end.

Definition handleClick (s : State) : bool * State :=
  if negb (isActive s) then (false, s)
  else
    (true,
     match hoveredElement s with
     | Some e =>
         match generateSelector e with
         | Some selector =>
             let s := cleanup s in
             callback (Selected e selector) s
         | None => s
         end
     | None => s
     end).

Definition handleKeyDown (key : string) (s : State) : State :=
  if negb (isActive s) then s
  else if String.eqb key "Escape" then
    let s := cleanup s in
    callback Cancelled s
  else s.

Definition handleCancelClick (s : State) : State :=
  let s := cleanup s in
  callback Cancelled s.

Definition dispatch (s : State) (e : UserEvent) : State :=
  match e with
  | MouseMove under => if listening s then handleMouseMove under s else s
  | Click onCancelButton =>
      let '(stopped, s') := if listening s then handleClick s else (false, s) in
      if onCancelButton && tooltip s && negb stopped then handleCancelClick s' else s'
  | KeyDown key => if listening s then handleKeyDown key s else s
  end.

Definition run (events : list UserEvent) : State := fold_left dispatch events initial.

End Picker.

End ContentPicker.

(** ** Vocabulary of the further statements *)

Module Terms.

(** A run of slashes. *)
Fixpoint slashes (n : nat) : string :=
  match n with
  | O => ""
  | S n' => String "/" (slashes n')
  end.

(** A configuration with another base URL. *)
Definition withBaseUrl (c : Api.Config) (url : string) : Api.Config :=
  {| Api.id := Api.id c; Api.name := Api.name c; Api.type := Api.type c;
     Api.baseUrl := Some url; Api.model := Api.model c; Api.apiKey := Api.apiKey c;
     Api.maxTokens := Api.maxTokens c; Api.temperature := Api.temperature c;
     Api.customHeaders := Api.customHeaders c; Api.customPrompt := Api.customPrompt c |}.

(** A base64 data URL, and when its two parts are what the pattern of the
    adapters can take: a media type that is not empty and has no
    semicolon, data that are not empty and have no line terminator. *)
Definition base64Url (mediaType data : string) : string :=
  "data:" +:+ mediaType +:+ ";base64," +:+ data.

Definition splittable (mediaType data : string) : Prop :=
  mediaType <> "" /\ JsString.includes mediaType ";" = false /\
  data <> "" /\ Payload.hasLineTerminator data = false.

(** The object URLs created and released among the steps of an svg
    capture. *)
Definition created (steps : list SvgCapture.Step) : list string :=
  omap (fun s => match s with
                 | SvgCapture.CreateObjectURL url => Some url
                 | _ => None
                 end) steps.

Definition revoked (steps : list SvgCapture.Step) : list string :=
  omap (fun s => match s with
                 | SvgCapture.RevokeObjectURL url => Some url
                 | _ => None
                 end) steps.

(** The keywords that decide a match: every other keyword of the lists
    contains one of them. *)
Definition classCore : list string :=
  ["captcha"; "verify"; "code"; "yzm"; "yanzhengma"; "验证码"].

Definition idCore : list string := ["captcha"; "verify"; "code"; "yzm"].

(** The longest a call of [recognize] can last with a retry count and a
    timeout: each attempt up to the timeout, and the backoffs of 1000 ms,
    2000 ms, ... between them. *)
Definition timeBudget (retryCount timeout : Z) : Z :=
  (retryCount * ApiManager.timerDelay timeout + 500 * retryCount * (retryCount - 1))%Z.

(** A store in which every configuration has an identifier and, when
    there is a configuration, the active identifier is that of one of
    them. *)
Definition wellFormed (st : Storage.Store) : Prop :=
  (forall c, c ∈ Storage.api_configs st -> Api.id c <> "") /\
  (Storage.api_configs st <> [] ->
   exists c, c ∈ Storage.api_configs st /\ Storage.active_config_id st = Api.id c).

(** The responses and the images sent among the events of the content
    script. *)
Definition responses (evs : list ContentScript.Event) : list ContentScript.Response :=
  omap (fun e => match e with
                 | ContentScript.SendResponse r => Some r
                 | _ => None
                 end) evs.

Definition imagesSent (evs : list ContentScript.Event) : list string :=
  omap (fun e => match e with
                 | ContentScript.SendMessage imageData => Some imageData
                 | _ => None
                 end) evs.

(** The answer of a content script that is busy. *)
Definition busy : ContentScript.Response := ContentScript.Failed (Some "正在处理中").

End Terms.

(** ** Further cases *)

Module Cases.

(** The candidate a scan of the scenario's document yields, and a page
    of the content script after that scan. *)
Definition candidate : CaptchaDetector.Candidate :=
  CaptchaDetector.mkCandidate CaptchaDetector.image 2%nat
    (Some "https://example.com/cap.png")
    {| Dom.left := 100; Dom.top := 200; Dom.width := 120; Dom.height := 40 |}
    65%Z (Some 3%nat) "captcha-0".

Definition page : ContentScript.Page :=
  ContentScript.mkPage
    (snd (CaptchaDetector.scan Scenario.plain (CaptchaDetector.mkDetector [])))
    None false [].

(** The document of the scenario with the image 400 px wide, and a
    keyword in its class, its id, its source, its alt text and the class
    of the body. *)
Definition wideImg : Dom.Element :=
  Dom.mkElement Dom.IMG "captchaImg" "captcha" "" "" "https://example.com/captcha.png"
                "captcha" None
                {| Dom.left := 100; Dom.top := 200; Dom.width := 400; Dom.height := 40 |}
                Scenario.shown (Some 1%nat).

Definition wide : Dom.Document :=
  [Scenario.html "" ""; Scenario.body "captcha" ""; wideImg;
   Scenario.input 100 200 150 30].

(** The document of the scenario with an svg element of class captcha in
    the place of the image. *)
Definition svgCaptcha : Dom.Element :=
  Dom.mkElement Dom.SVG "" "captcha" "" "" "" "" None
                {| Dom.left := 100; Dom.top := 200; Dom.width := 120; Dom.height := 40 |}
                Scenario.shown (Some 1%nat).

Definition svgDocument : Dom.Document :=
  [Scenario.html "" ""; Scenario.body "" ""; svgCaptcha; Scenario.input 100 200 150 30].

(** An svg element of CAPTCHA size whose class names it a CAPTCHA, and
    the candidate of a page that holds it. *)
Definition svgElement : Dom.Element :=
  Dom.mkElement Dom.SVG "logo" "captcha" "" "" "" "" None
                {| Dom.left := 0; Dom.top := 0; Dom.width := 120; Dom.height := 40 |}
                Scenario.shown None.

Definition svgCandidate : CaptchaDetector.Candidate :=
  CaptchaDetector.mkCandidate CaptchaDetector.svg 0%nat None
    {| Dom.left := 0; Dom.top := 0; Dom.width := 120; Dom.height := 40 |}
    35%Z None "captcha-svg-0".

Definition svgPage : ContentScript.Page :=
  ContentScript.mkPage (CaptchaDetector.mkDetector [svgCandidate]) None false [].

(** The image of the scenario served from another origin without CORS
    approval. *)
Definition crossOriginImg : Capture.Img :=
  Capture.mkImg "https://cdn.example.com/cap.png" true 120 40 120 40 120 40 true "shown".

(** A service worker whose reply is a success with the text given. *)
Definition answering (text : string) : string -> Capture.Settled ContentScript.Reply :=
  fun _ => Capture.Resolved (ContentScript.mkReply true (Some text) None (Some 300%Z)).

(** A world without a configuration. *)
Definition unconfigured : ApiManager.World :=
  ApiManager.mkWorld 1000 ConfigStore.empty ∅ 0 [].

End Cases.

(** * Properties *)

(** ** Comparisons *)

Lemma Qlt_bool_iff (a b : Q) : Qlt_bool a b = true <-> (a < b)%Q.
Proof.
  unfold Qlt_bool. rewrite negb_true_iff. split.
  - intros H. apply Qnot_le_lt. intros Hle.
    apply Qle_bool_iff in Hle. congruence.
  - intros H. destruct (Qle_bool b a) eqn:E; [|reflexivity].
    apply Qle_bool_iff in E. exfalso. apply (Qlt_not_le _ _ H E).
Qed.

Lemma Qge_bool_iff (a b : Q) : Qge_bool a b = true <-> (b <= a)%Q.
Proof. unfold Qge_bool. apply Qle_bool_iff. Qed.

(** ** Strings and sizes on small inputs *)

Example toLowerCase_id : JsString.toLowerCase "captchaImg" = "captchaimg".
Proof. reflexivity. Qed.

Example includes_keyword : JsString.includes "imgvcode-1" "vcode" = true.
Proof. reflexivity. Qed.

Example includes_missing : JsString.includes "https://example.com/cap.png" "captcha" = false.
Proof. reflexivity. Qed.

Example stripTrailingSlashes_url :
  JsString.stripTrailingSlashes "https://api.example.com/v1//" = "https://api.example.com/v1".
Proof. reflexivity. Qed.

Example stripTrailingSlashes_inner :
  JsString.stripTrailingSlashes "a//b/" = "a//b".
Proof. reflexivity. Qed.

Example isCaptchaSize_edges :
  CaptchaDetector.isCaptchaSize 50 20 = true /\
  CaptchaDetector.isCaptchaSize 300 100 = true /\
  CaptchaDetector.isCaptchaSize (99 # 2) 40 = false /\
  CaptchaDetector.isCaptchaSize 120 (201 # 2) = false.
Proof. repeat split. Qed.

(** ** The detector *)

Section DetectorFacts.
Import Dom CaptchaDetector Vocabulary.

Lemma isCaptchaSize_bounds (w h : Q) :
  isCaptchaSize w h = true <->
  (50 <= w)%Q /\ (w <= 300)%Q /\ (20 <= h)%Q /\ (h <= 100)%Q.
Proof.
  unfold isCaptchaSize. rewrite !andb_true_iff, !Qge_bool_iff, !Qle_bool_iff.
  simpl. tauto.
Qed.

(** Each of the three tests starts with the size and the visibility. *)
Lemma likely_size doc t x :
  likely doc t x = Js.Returned true ->
  isCaptchaSize (width (rect (snd x))) (height (rect (snd x))) = true /\
  isVisible (snd x) = true.
Proof.
  destruct t; cbn [likely];
    unfold isLikelyCaptcha, isLikelyCanvasCaptcha, isLikelySvgCaptcha;
    destruct (isCaptchaSize _ _); try discriminate;
    destruct (isVisible _); try discriminate; auto.
Qed.

Lemma nodes_lookup doc (x : Node) :
  x ∈ nodes doc <-> doc !! fst x = Some (snd x).
Proof.
  unfold nodes. rewrite list_elem_of_lookup. split.
  - intros [i Hi]. apply list_lookup_imap_Some in Hi as (e & E & ->). exact E.
  - intros H. exists (fst x). apply list_lookup_imap_Some.
    exists (snd x). by destruct x.
Qed.

Lemma querySelectorAll_elem doc sel (x : Node) :
  x ∈ querySelectorAll doc sel -> doc !! fst x = Some (snd x) /\ sel (snd x) = true.
Proof.
  unfold querySelectorAll. rewrite list_elem_of_In, filter_In, <- list_elem_of_In.
  rewrite nodes_lookup. tauto.
Qed.

(** A [forEach] only depends on what its body does. *)
Lemma forEachFrom_ext (body body' : Node -> nat -> D unit) (l : list Node) :
  (forall x i this, body x i this = body' x i this) ->
  forall index this, forEachFrom index l body this = forEachFrom index l body' this.
Proof.
  intros Hbody. induction l as [|x l IH]; intros index this; [reflexivity|].
  cbn [forEachFrom]. unfold mbind, D_bind. rewrite Hbody.
  destruct (body' x index this) as [[[]|member] this']; [apply IH | reflexivity].
Qed.

(** What a [forEach] of a scan leaves in the detector, and how it ends. *)
Lemma forEachFrom_visit doc t (l : list Node) :
  forall index this,
    forEachFrom index l (visit doc t) this
    = (fst (pushes doc t index l),
       {| detectedCaptchas := detectedCaptchas this ++ snd (pushes doc t index l) |}).
Proof.
  induction l as [|x l IH]; intros index this.
  - cbn. rewrite app_nil_r. by destruct this.
  - cbn [forEachFrom pushes]. unfold mbind, D_bind, visit at 1.
    destruct (examine doc t x index) as [[c|]|member].
    + cbn [push]. rewrite IH. cbn [detectedCaptchas].
      destruct (pushes doc t (S index) l) as [r cs]. cbn [fst snd].
      by rewrite <- app_assoc.
    + apply IH.
    + cbn [fst snd]. rewrite app_nil_r. by destruct this.
Qed.

Lemma scanImages_run doc this :
  scanImages doc this
  = (fst (pushes doc image 0 (selected doc image)),
     {| detectedCaptchas :=
          detectedCaptchas this ++ snd (pushes doc image 0 (selected doc image)) |}).
Proof.
  rewrite <- forEachFrom_visit. unfold scanImages, forEach.
  apply forEachFrom_ext. intros x i this'.
  unfold visit, examine, mbind, D_bind, call, Js.Result_bind. cbn [likely].
  destruct (isLikelyCaptcha doc x) as [[|]|]; try reflexivity.
  destruct (calculateConfidence doc x); [|reflexivity].
  destruct (findRelatedInput doc x); reflexivity.
Qed.

Lemma scanCanvas_run doc this :
  scanCanvas doc this
  = (fst (pushes doc canvas 0 (selected doc canvas)),
     {| detectedCaptchas :=
          detectedCaptchas this ++ snd (pushes doc canvas 0 (selected doc canvas)) |}).
Proof.
  rewrite <- forEachFrom_visit. unfold scanCanvas, forEach.
  apply forEachFrom_ext. intros x i this'.
  unfold visit, examine, mbind, D_bind, call, Js.Result_bind. cbn [likely].
  destruct (isLikelyCanvasCaptcha doc x) as [[|]|]; try reflexivity.
  destruct (calculateConfidence doc x); [|reflexivity].
  destruct (findRelatedInput doc x); reflexivity.
Qed.

Lemma scanSvg_run doc this :
  scanSvg doc this
  = (fst (pushes doc svg 0 (selected doc svg)),
     {| detectedCaptchas :=
          detectedCaptchas this ++ snd (pushes doc svg 0 (selected doc svg)) |}).
Proof.
  rewrite <- forEachFrom_visit. unfold scanSvg, forEach.
  apply forEachFrom_ext. intros x i this'.
  unfold visit, examine, mbind, D_bind, call, Js.Result_bind. cbn [likely].
  destruct (isLikelySvgCaptcha doc x) as [[|]|]; try reflexivity.
  destruct (calculateConfidence doc x); [|reflexivity].
  destruct (findRelatedInput doc x); reflexivity.
Qed.

(** A scan goes through the images, the canvases and the svg elements,
    as far as it gets; what it returns is what it leaves in the
    detector. *)
Lemma scan_run doc this :
  let images := pushes doc image 0 (selected doc image) in
  let canvases := pushes doc canvas 0 (selected doc canvas) in
  let svgs := pushes doc svg 0 (selected doc svg) in
  scan doc this =
  match fst images with
  | Js.TypeError member => (Js.TypeError member, mkDetector (snd images))
  | Js.Returned _ =>
      match fst canvases with
      | Js.TypeError member =>
          (Js.TypeError member, mkDetector (snd images ++ snd canvases))
      | Js.Returned _ =>
          match fst svgs with
          | Js.TypeError member =>
              (Js.TypeError member, mkDetector (snd images ++ snd canvases ++ snd svgs))
          | Js.Returned _ =>
              (Js.Returned (snd images ++ snd canvases ++ snd svgs),
               mkDetector (snd images ++ snd canvases ++ snd svgs))
          end
      end
  end.
Proof.
  intros images canvases svgs.
  unfold scan, reset, getDetectedCaptchas, mbind, D_bind.
  rewrite scanImages_run. fold images. cbn [detectedCaptchas app].
  destruct (fst images); [|reflexivity].
  rewrite scanCanvas_run. fold canvases. cbn [detectedCaptchas].
  destruct (fst canvases); [|reflexivity].
  rewrite scanSvg_run. fold svgs. cbn [detectedCaptchas].
  rewrite <- app_assoc.
  destruct (fst svgs); reflexivity.
Qed.

(** The detector a scan leaves holds entries pushed for images, canvases
    and svg elements, in that order. *)
Lemma scan_detected doc this :
  exists cs,
    detectedCaptchas (snd (scan doc this)) = cs /\
    cs `prefix_of` (snd (pushes doc image 0 (selected doc image)) ++
                    snd (pushes doc canvas 0 (selected doc canvas)) ++
                    snd (pushes doc svg 0 (selected doc svg))) /\
    (forall l, fst (scan doc this) = Js.Returned l ->
               l = cs /\
               cs = snd (pushes doc image 0 (selected doc image)) ++
                    snd (pushes doc canvas 0 (selected doc canvas)) ++
                    snd (pushes doc svg 0 (selected doc svg))).
Proof.
  eexists. split; [reflexivity|]. rewrite scan_run. cbv zeta.
  destruct (fst (pushes doc image 0 _)); cbn [fst snd detectedCaptchas].
  2:{ split; [by apply prefix_app_r | discriminate]. }
  destruct (fst (pushes doc canvas 0 _)); cbn [fst snd detectedCaptchas].
  2:{ split; [|discriminate]. rewrite (app_assoc _ _ (snd (pushes doc svg 0 _))).
      by apply prefix_app_r. }
  destruct (fst (pushes doc svg 0 _)); cbn [fst snd detectedCaptchas].
  - split; [reflexivity|]. intros l [= <-]. auto.
  - split; [reflexivity | discriminate].
Qed.

(** An entry pushed for a list of elements is the one decided for the
    element at some index of the list. *)
Lemma pushes_elem doc t (l : list Node) (c : Candidate) :
  forall index,
    c ∈ snd (pushes doc t index l) ->
    exists j x, l !! j = Some x /\ examine doc t x (index + j) = Js.Returned (Some c).
Proof.
  induction l as [|x l IH]; intros index; cbn [pushes].
  - intros H. by apply elem_of_nil in H.
  - destruct (examine doc t x index) as [[c'|]|member] eqn:E.
    + destruct (pushes doc t (S index) l) as [r cs] eqn:P. cbn [snd].
      intros H. apply elem_of_cons in H as [-> | H].
      * exists 0%nat, x. by rewrite Nat.add_0_r.
      * destruct (IH (S index)) as (j & y & Hj & Hy); [by rewrite P|].
        exists (S j), y. split; [exact Hj|]. by rewrite Nat.add_succ_r.
    + intros H. destruct (IH (S index) H) as (j & y & Hj & Hy).
      exists (S j), y. split; [exact Hj|]. by rewrite Nat.add_succ_r.
    + intros H. by apply elem_of_nil in H.
Qed.

(** What the decision to push an entry says about the entry. *)
Lemma examine_entry doc t x index c :
  examine doc t x index = Js.Returned (Some c) ->
  exists confidence input,
    likely doc t x = Js.Returned true /\
    calculateConfidence doc x = Js.Returned confidence /\
    findRelatedInput doc x = Js.Returned input /\
    c = entry t x index confidence input.
Proof.
  unfold examine, mbind, Js.Result_bind.
  destruct (likely doc t x) as [[|]|]; try discriminate.
  destruct (calculateConfidence doc x) as [confidence|]; [|discriminate].
  destruct (findRelatedInput doc x) as [input|]; [|discriminate].
  intros [= <-]. eauto 10.
Qed.

Lemma selected_elem doc t (x : Node) :
  x ∈ selected doc t -> doc !! fst x = Some (snd x) /\ tagName (snd x) = tagOf t.
Proof.
  intros H. apply querySelectorAll_elem in H as [H Htag]. split; [exact H|].
  unfold isTag in Htag. destruct t, (tagName (snd x)); cbn in *; congruence.
Qed.

Lemma scan_elem doc this c :
  c ∈ detectedCaptchas (snd (scan doc this)) -> exists x, fromElement doc c x.
Proof.
  destruct (scan_detected doc this) as (cs & -> & Hprefix & _).
  intros Hc. eapply elem_of_prefix in Hc; [|exact Hprefix].
  assert (Hfrom : forall t, c ∈ snd (pushes doc t 0 (selected doc t)) ->
                            exists x, fromElement doc c x).
  { intros t Ht. apply pushes_elem in Ht as (j & x & Hj & Hx).
    apply list_elem_of_lookup_2, selected_elem in Hj as [Hdoc Htag].
    apply examine_entry in Hx as (score & input & Hlikely & Hconf & Hin & ->).
    exists x. unfold fromElement. cbn [element type confidence inputElement candRect entry].
    eauto 10. }
  rewrite !elem_of_app in Hc. destruct Hc as [Hc | [Hc | Hc]]; eauto.
Qed.

End DetectorFacts.

Section DetectorClaims.
Import Dom CaptchaDetector Vocabulary.

(** C5.  An element whose rendered width is outside [50,300] or whose
    rendered height is outside [20,100] is the element of no candidate of
    [scan()], whatever its keywords, source, alt text and ancestors. *)
Theorem C5_outside_envelope_never_candidate doc this n e :
  doc !! n = Some e ->
  (width (rect e) < 50 \/ 300 < width (rect e) \/
   height (rect e) < 20 \/ 100 < height (rect e))%Q ->
  (forall c, c ∈ detectedCaptchas (snd (scan doc this)) -> element c <> n) /\
  (forall l, fst (scan doc this) = Js.Returned l ->
             forall c, c ∈ l -> element c <> n).
Proof.
  intros He Hout.
  assert (Hnever : forall c, c ∈ detectedCaptchas (snd (scan doc this)) ->
                             element c <> n).
  { intros c Hc Heq.
    destruct (scan_elem _ _ _ Hc) as (x & Hx & _ & _ & Hlikely & _).
    rewrite Heq, He in Hx. injection Hx as ->.
    apply likely_size in Hlikely as [Hsize _].
    apply isCaptchaSize_bounds in Hsize.
    destruct Hsize as (H1 & H2 & H3 & H4).
    destruct Hout as [H | [H | [H | H]]];
      eapply Qlt_not_le; eassumption. }
  split; [exact Hnever|].
  intros l Hl c Hc. apply Hnever.
  destruct (scan_detected doc this) as (cs & <- & _ & Hreturned).
  by destruct (Hreturned l Hl) as [<- _].
Qed.

(** The reduction of [getMostLikelyCaptcha]: with [best] the best of the
    entries [seen] so far, the first of them of its confidence, the
    reduction over [others] ends on the best of all, again the first. *)
Lemma reduce_best (others : list Candidate) :
  forall (seen : list Candidate) (best : Candidate) (k : nat),
    seen !! k = Some best ->
    (forall j c, seen !! j = Some c -> (confidence c <= confidence best)%Z) ->
    (forall j c, (j < k)%nat -> seen !! j = Some c ->
                 (confidence c < confidence best)%Z) ->
    let final := fold_left (fun best current =>
                              if (confidence current >? confidence best)%Z
                              then current else best) others best in
    exists k', (seen ++ others) !! k' = Some final /\
      (forall j c, (seen ++ others) !! j = Some c ->
                   (confidence c <= confidence final)%Z) /\
      (forall j c, (j < k')%nat -> (seen ++ others) !! j = Some c ->
                   (confidence c < confidence final)%Z).
Proof.
  induction others as [|current others IH]; intros seen best k Hk Hmax Hbefore; simpl.
  - exists k. rewrite app_nil_r. auto.
  - replace (seen ++ current :: others) with ((seen ++ [current]) ++ others)
      by (by rewrite <- app_assoc).
    destruct (Z.gtb_spec (confidence current) (confidence best)) as [Hgt | Hle].
    + apply (IH (seen ++ [current]) current (length seen)).
      * by rewrite lookup_app_r, Nat.sub_diag.
      * intros j c Hj. apply lookup_app_Some in Hj as [Hj | [_ Hj]].
        -- specialize (Hmax _ _ Hj). lia.
        -- apply list_lookup_singleton_Some in Hj as [_ <-]. lia.
      * intros j c Hlt Hj. rewrite lookup_app_l in Hj by exact Hlt.
        specialize (Hmax _ _ Hj). lia.
    + apply (IH (seen ++ [current]) best k).
      * rewrite lookup_app_l; [exact Hk|]. eapply lookup_lt_Some; exact Hk.
      * intros j c Hj. apply lookup_app_Some in Hj as [Hj | [_ Hj]].
        -- exact (Hmax _ _ Hj).
        -- apply list_lookup_singleton_Some in Hj as [_ <-]. exact Hle.
      * intros j c Hlt Hj. apply lookup_app_Some in Hj as [Hj | [Hge Hj]].
        -- exact (Hbefore _ _ Hlt Hj).
        -- apply lookup_lt_Some in Hk. lia.
Qed.

(** C6.  [getMostLikelyCaptcha()] returns nothing when there is no
    candidate; otherwise it returns a candidate of the list whose confidence
    is the maximum, and, among the candidates of that confidence, the first
    in scan order. *)
Theorem C6_most_likely_is_first_maximum (this : Detector) :
  match detectedCaptchas this with
  | [] => getMostLikelyCaptcha this = None
  | _ :: _ =>
      exists (best : Candidate) (k : nat),
        getMostLikelyCaptcha this = Some best /\
        detectedCaptchas this !! k = Some best /\
        (forall j c, detectedCaptchas this !! j = Some c ->
                     (confidence c <= confidence best)%Z) /\
        (forall j c, (j < k)%nat -> detectedCaptchas this !! j = Some c ->
                     (confidence c < confidence best)%Z)
  end.
Proof.
  unfold getMostLikelyCaptcha.
  destruct (detectedCaptchas this) as [|first others]; [reflexivity|].
  destruct (reduce_best others [first] first 0%nat) as (k & Hk & Hmax & Hbefore).
  - reflexivity.
  - intros [|j] c Hj; simpl in Hj; [injection Hj as <-; lia | discriminate].
  - intros j c Hlt. lia.
  - eexists _, k. split; [reflexivity|]. auto.
Qed.

End DetectorClaims.

Section ScenarioFacts.
Import Dom CaptchaDetector Vocabulary.

Variables (x y w h : Q) (htmlClass htmlId bodyClass bodyId : string).

Let d : Document := Scenario.doc x y w h htmlClass htmlId bodyClass bodyId.
Let theImg : Node := (2%nat, Scenario.img x y).
Let theInput : Node := (3%nat, Scenario.input x y w h).

Lemma matchesKeywords_returns (e : Element) :
  named e "id" = None ->
  matchesKeywords e =
  Js.Returned
    (some classKeywords
          (fun k => JsString.includes (JsString.toLowerCase (classNameToString e)) k) ||
     some idKeywords (fun k => JsString.includes (JsString.toLowerCase (elemId e)) k)).
Proof. intros H. unfold matchesKeywords, idToLowerCase. by rewrite H. Qed.

Lemma scenario_images : selected d image = [theImg].
Proof. reflexivity. Qed.

Lemma scenario_canvases : selected d canvas = [].
Proof. reflexivity. Qed.

Lemma scenario_svgs : selected d svg = [].
Proof. reflexivity. Qed.

Lemma scenario_likely : isLikelyCaptcha d theImg = Js.Returned true.
Proof. reflexivity. Qed.

Lemma scenario_input : findRelatedInput d theImg = Js.Returned (Some theInput).
Proof. reflexivity. Qed.

Lemma scenario_ancestors :
  exists inBody inHtml,
    matchesKeywords (Scenario.body bodyClass bodyId) = Js.Returned inBody /\
    matchesKeywords (Scenario.html htmlClass htmlId) = Js.Returned inHtml /\
    parentContainsKeywords d theImg = Js.Returned (inBody || inHtml).
Proof.
  eexists _, _. split; [by apply matchesKeywords_returns|].
  split; [by apply matchesKeywords_returns|].
  unfold parentContainsKeywords.
  change (parentElementOf d theImg)
    with (ParentElement (1%nat, Scenario.body bodyClass bodyId)).
  cbn [parentLoop snd]. rewrite matchesKeywords_returns by reflexivity.
  cbn [mbind Js.Result_bind].
  destruct (_ || _); [reflexivity|].
  change (parentElementOf d (1%nat, Scenario.body bodyClass bodyId))
    with (ParentElement (0%nat, Scenario.html htmlClass htmlId)).
  cbn [parentLoop snd]. rewrite matchesKeywords_returns by reflexivity.
  cbn [mbind Js.Result_bind].
  destruct (_ || _); reflexivity.
Qed.

Lemma scenario_confidence :
  exists inBody inHtml,
    matchesKeywords (Scenario.body bodyClass bodyId) = Js.Returned inBody /\
    matchesKeywords (Scenario.html htmlClass htmlId) = Js.Returned inHtml /\
    calculateConfidence d theImg
    = Js.Returned (if inBody || inHtml then 80%Z else 65%Z).
Proof.
  destruct scenario_ancestors as (inBody & inHtml & HinBody & HinHtml & Hparents).
  exists inBody, inHtml. split; [exact HinBody|]. split; [exact HinHtml|].
  unfold calculateConfidence.
  rewrite Hparents, scenario_input.
  change (matchesKeywords (snd theImg)) with (Js.Returned true).
  change (JsString.truthy (src (snd theImg)) && srcContainsKeywords (src (snd theImg)))
    with false.
  change (isCaptchaSize (width (rect (snd theImg))) (height (rect (snd theImg))))
    with true.
  destruct (_ || _); reflexivity.
Qed.

Lemma scenario_scan this :
  exists inBody inHtml,
    matchesKeywords (Scenario.body bodyClass bodyId) = Js.Returned inBody /\
    matchesKeywords (Scenario.html htmlClass htmlId) = Js.Returned inHtml /\
    let c := {| type := image; element := 2%nat;
                candSrc := Some "https://example.com/cap.png";
                candRect := {| left := x; top := y; width := 120; height := 40 |};
                confidence := if inBody || inHtml then 80%Z else 65%Z;
                inputElement := Some 3%nat;
                id := "captcha-0" |} in
    scan d this = (Js.Returned [c], mkDetector [c]).
Proof.
  destruct scenario_confidence as (inBody & inHtml & HinBody & HinHtml & Hconfidence).
  exists inBody, inHtml. split; [exact HinBody|]. split; [exact HinHtml|].
  cbv zeta. rewrite scan_run. cbv zeta.
  rewrite scenario_svgs, scenario_canvases, scenario_images.
  cbn [pushes]. unfold examine. cbn [likely].
  rewrite scenario_likely, Hconfidence, scenario_input.
  reflexivity.
Qed.

End ScenarioFacts.

Section ScenarioClaims.
Import Dom CaptchaDetector.

(** C7, as amended.  In the document of the scenario (a visible 120 by 40
    image with id captchaImg and source https://example.com/cap.png, and a
    text input named vcode 10 px to its right, both children of the body),
    [scan()] returns one candidate, the one it leaves in the detector: an
    image candidate whose linked input is that input; its confidence is 65
    (30 for the id, 25 for the input, 10 for the size), or 80 when the body
    or the html element carries a keyword, so it never reaches 85. *)
Theorem C7_scenario_confidence_65_or_80
    (x y w h : Q) (htmlClass htmlId bodyClass bodyId : string) (this : Detector) :
  exists (c : Candidate) (inBody inHtml : bool),
    matchesKeywords (Scenario.body bodyClass bodyId) = Js.Returned inBody /\
    matchesKeywords (Scenario.html htmlClass htmlId) = Js.Returned inHtml /\
    scan (Scenario.doc x y w h htmlClass htmlId bodyClass bodyId) this
      = (Js.Returned [c], mkDetector [c]) /\
    type c = image /\ element c = 2%nat /\ inputElement c = Some 3%nat /\
    confidence c = (65 + if inBody || inHtml then 15 else 0)%Z /\
    (65 <= confidence c < 85)%Z.
Proof.
  destruct (scenario_scan x y w h htmlClass htmlId bodyClass bodyId this)
    as (inBody & inHtml & HinBody & HinHtml & Hscan).
  eexists _, inBody, inHtml. split; [exact HinBody|]. split; [exact HinHtml|].
  split; [exact Hscan|]. cbn [type element inputElement confidence].
  destruct (_ || _); repeat split; lia.
Qed.

(** The statement of C7 as the specification has it fails on the plain
    instance of the scenario: the one candidate has confidence 65. *)
Lemma C7_confidence_below_85 :
  ~ exists c : Candidate,
      detectedCaptchas (snd (scan Scenario.plain (mkDetector []))) = [c] /\
      type c = image /\ inputElement c = Some 3%nat /\
      (85 <= confidence c)%Z.
Proof.
  intros (c & Hscan & _ & _ & Hconf).
  vm_compute in Hscan. injection Hscan as <-. vm_compute in Hconf. by apply Hconf.
Qed.

(** An image 400 px wide is no candidate, though its class, its id, its
    source, its alt text and the body all carry a keyword. *)
Lemma C5_witness :
  Cases.wide !! 2%nat = Some Cases.wideImg /\
  matchesKeywords Cases.wideImg = Js.Returned true /\
  srcContainsKeywords (src Cases.wideImg) = true /\
  matchesKeywordsInText (alt Cases.wideImg) = true /\
  parentContainsKeywords Cases.wide (2%nat, Cases.wideImg) = Js.Returned true /\
  (300 < width (rect Cases.wideImg))%Q /\
  (forall c, c ∈ detectedCaptchas (snd (scan Cases.wide (mkDetector []))) ->
             element c <> 2%nat) /\
  (forall l, fst (scan Cases.wide (mkDetector [])) = Js.Returned l ->
             forall c, c ∈ l -> element c <> 2%nat).
Proof.
  split; [reflexivity|]. split; [reflexivity|]. split; [reflexivity|].
  split; [reflexivity|]. split; [reflexivity|]. split; [reflexivity|].
  apply (C5_outside_envelope_never_candidate Cases.wide (mkDetector []) 2%nat
           Cases.wideImg).
  - reflexivity.
  - right. left. reflexivity.
Defined.

End ScenarioClaims.

(** ** The fill engine *)

Section AutoFillFacts.
Import AutoFill Vocabulary.

Variable random : nat -> Q.













End AutoFillFacts.

Section AutoFillClaims.
Import AutoFill Vocabulary.




(** A form with a control named [submit], as many have: [form.submit] is
    that control, the call throws after the text was typed, and [fill]
    returns false. *)
Example fill_fails_on_a_shadowed_submit :
  fst (fill (fun _ => 0%Q)
            (Some (mkState (mkInput [] [] (mkSurroundings
                                             (Some (mkForm false ["vcode"; "submit"]))
                                             false)) 0))
            ["A"] (mkOptions None (Some true))) = false.
Proof. reflexivity. Qed.

End AutoFillClaims.

(** ** Capturing an image *)

Section CaptureFacts.
Import Capture.

Variable pngPayload : string -> Z -> Z -> string.

(** A prefix that fails on a string still fails when the string is
    extended by text whose first character the prefix does not contain. *)
Lemma prefix_extended (p : string) :
  forall (s r : string) (c : ascii),
    String.prefix p s = false ->
    existsb (Ascii.eqb c) (list_ascii_of_string p) = false ->
    String.prefix p (s +:+ String c r) = false.
Proof.
  induction p as [|x p IH]; intros s r c Hp Hc; [by destruct s|].
  simpl in Hc. apply orb_false_iff in Hc as [Hx Hc].
  destruct s as [|a s]; simpl.
  - change ("" +:+ String c r) with (String c r). simpl.
    destruct (ascii_dec x c) as [->|]; [|reflexivity].
    by rewrite Ascii.eqb_refl in Hx.
  - change (String a s +:+ String c r) with (String a (s +:+ String c r)).
    simpl in *. destruct (ascii_dec x a); [|reflexivity]. by apply IH.
Qed.

Lemma srcWithTimestamp_not_inline (img : Img) (now : Z) :
  JsString.startsWith (src img) "data:" = false ->
  JsString.startsWith (srcWithTimestamp img now) "data:" = false.
Proof.
  intros H. unfold srcWithTimestamp, JsString.startsWith in *.
  destruct (JsString.includes (src img) "?").
  - change ("&_t=" +:+ pretty now) with (String "&" ("_t=" +:+ pretty now)).
    by apply prefix_extended.
  - change ("?_t=" +:+ pretty now) with (String "?" ("_t=" +:+ pretty now)).
    by apply prefix_extended.
Qed.

(** X7.  content.js: no capture of an img element loads anything: among
    the effects of a capture there is no request to the network, whatever
    the image and however its loading ends. *)
Lemma content_capture_loads_nothing (img : Img) (pending : Pending) :
  existsb isNetworkRequest (effects (captureImgElement pngPayload img pending)) = false.
Proof.
  unfold captureImgElement, waitForImageLoad, fallback, captureElementAsScreenshot.
  repeat case_match; simplify_eq; reflexivity.
Qed.

(** X8.  content.js: the wait for the image is at most five seconds. *)
Lemma content_capture_wait_bounded (img : Img) (pending : Pending) :
  (waited (captureImgElement pngPayload img pending) <= 5000)%Z.
Proof.
  unfold captureImgElement, waitForImageLoad.
  repeat case_match; simplify_eq; simpl; lia.
Qed.

Lemma waitForImageLoad_loaded (img : Img) (pending : Pending) :
  complete img = true -> (0 < naturalWidth img)%Z ->
  waitForImageLoad img pending = (Resolved img, [], 0%Z).
Proof.
  intros Hc Hw. unfold waitForImageLoad. rewrite Hc.
  destruct (Z.gtb_spec (naturalWidth img) 0); [reflexivity | lia].
Qed.

(** X9.  content.js: a loaded image that taints the canvas yields its own
    inline source, or else the cross-origin error. *)
Lemma content_capture_tainted (img : Img) (pending : Pending) :
  complete img = true -> (0 < naturalWidth img)%Z -> (0 < naturalHeight img)%Z ->
  tainted img = true ->
  outcome (captureImgElement pngPayload img pending) =
  if JsString.startsWith (src img) "data:" then Resolved (src img)
  else Rejected "无法捕获跨域图片，请尝试手动截图".
Proof.
  intros Hc Hw Hh Ht.
  unfold captureImgElement. rewrite (waitForImageLoad_loaded _ _ Hc Hw).
  assert (Hw0 : (naturalWidth img =? 0)%Z = false) by (apply Z.eqb_neq; lia).
  assert (Hh0 : (naturalHeight img =? 0)%Z = false) by (apply Z.eqb_neq; lia).
  unfold fallback, captureElementAsScreenshot, toDataURL, drawImage, orElseZ.
  rewrite !Hw0, !Hh0. simpl. rewrite ?Hw0, ?Hh0, ?Ht. simpl.
  destruct (JsString.startsWith (src img) "data:"); reflexivity.
Qed.

(** X10.  content.js: a loaded image that does not taint the canvas yields
    the PNG of the bitmap shown, at its natural size. *)
Lemma content_capture_clean (img : Img) (pending : Pending) :
  complete img = true -> (0 < naturalWidth img)%Z -> (0 < naturalHeight img)%Z ->
  tainted img = false ->
  outcome (captureImgElement pngPayload img pending) =
  Resolved ("data:image/png;base64," +:+
            pngPayload (bitmap img) (naturalWidth img) (naturalHeight img)).
Proof.
  intros Hc Hw Hh Ht.
  unfold captureImgElement. rewrite (waitForImageLoad_loaded _ _ Hc Hw).
  assert (Hw0 : (naturalWidth img =? 0)%Z = false) by (apply Z.eqb_neq; lia).
  assert (Hh0 : (naturalHeight img =? 0)%Z = false) by (apply Z.eqb_neq; lia).
  assert (Hw1 : (naturalWidth img <=? 0)%Z = false) by (apply Z.leb_gt; lia).
  assert (Hh1 : (naturalHeight img <=? 0)%Z = false) by (apply Z.leb_gt; lia).
  unfold toDataURL, drawImage, orElseZ.
  rewrite !Hw0, !Hh0. simpl. rewrite ?Hw0, ?Hh0, ?Ht, ?Hw1, ?Hh1. simpl.
  reflexivity.
Qed.


(** The module version of [captureImgElement] (captcha-detector.js, which
    nothing in the extension imports) does otherwise: it points a new
    image at the source with a time stamp appended, which for any source
    but an inline data URI is a new request to the network; and when that
    load succeeds without taint, the bytes returned are those of the image
    just loaded, not of the one shown. *)
Theorem module_capture_requests_the_source_again
    (img : Img) (now : Z) (reload : string -> option Img) :
  JsString.startsWith (src img) "data:" = false ->
  let run := captureImgElementModule pngPayload img now reload in
  ImageLoad (srcWithTimestamp img now) ∈ effects run /\
  existsb isNetworkRequest (effects run) = true /\
  forall newImg,
    reload (srcWithTimestamp img now) = Some newImg ->
    tainted newImg = false ->
    (0 < naturalWidth newImg)%Z -> (0 < naturalHeight newImg)%Z ->
    outcome run =
    Resolved ("data:image/png;base64," +:+
              pngPayload (bitmap newImg) (naturalWidth newImg) (naturalHeight newImg)).
Proof.
  intros Hsrc run.
  assert (Hreq : isNetworkRequest (ImageLoad (srcWithTimestamp img now)) = true).
  { simpl. by rewrite srcWithTimestamp_not_inline. }
  assert (Hin : ImageLoad (srcWithTimestamp img now) ∈ effects run).
  { unfold run, captureImgElementModule.
    repeat case_match; simpl; set_solver. }
  split; [exact Hin|]. split.
  - apply existsb_exists. exists (ImageLoad (srcWithTimestamp img now)).
    split; [by apply list_elem_of_In | exact Hreq].
  - intros newImg Hre Ht Hw Hh.
    assert (Hw0 : (naturalWidth newImg =? 0)%Z = false) by (apply Z.eqb_neq; lia).
    assert (Hh0 : (naturalHeight newImg =? 0)%Z = false) by (apply Z.eqb_neq; lia).
    assert (Hw1 : (naturalWidth newImg <=? 0)%Z = false) by (apply Z.leb_gt; lia).
    assert (Hh1 : (naturalHeight newImg <=? 0)%Z = false) by (apply Z.leb_gt; lia).
    unfold run, captureImgElementModule, toDataURL, drawImage, orElseZ.
    rewrite Hre, !Hw0, !Hh0. simpl. rewrite ?Hw0, ?Hh0, ?Ht, ?Hw1, ?Hh1. simpl.
    reflexivity.
Qed.

End CaptureFacts.

Section CaptureExamples.
Import Capture Scenario.

Example module_capture_rotates_the_image :
  JsString.startsWith (src shownImg) "data:" = false /\
  let run := captureImgElementModule (fun b _ _ => b) shownImg 1700000000000
               (fun _ => Some rotatedImg) in
  ImageLoad "https://example.com/cap.png?_t=1700000000000" ∈ effects run /\
  existsb isNetworkRequest (effects run) = true /\
  outcome run = Resolved "data:image/png;base64,rotated".
Proof.
  split; [reflexivity|].
  destruct (module_capture_requests_the_source_again (fun b _ _ => b) shownImg
              1700000000000 (fun _ => Some rotatedImg) eq_refl) as (Hin & Hreq & Hout).
  split; [exact Hin|]. split; [exact Hreq|].
  apply (Hout rotatedImg); [reflexivity | reflexivity | reflexivity | reflexivity].
Qed.

(** On the same image content.js asks the network for nothing and returns
    the bitmap shown. *)
Example content_capture_same_image :
  let run := captureImgElement (fun b _ _ => b) shownImg Never in
  existsb isNetworkRequest (effects run) = false /\
  outcome run = Resolved "data:image/png;base64,shown".
Proof. split; reflexivity. Qed.

End CaptureExamples.

(** ** The request headers of the adapters *)

Section HeaderFacts.
Import Api.

Lemma assign_custom (headers custom : gmap string string) key value :
  custom !! key = Some value -> assign headers custom !! key = Some value.
Proof. intros H. unfold assign. by apply lookup_union_Some_l. Qed.

Lemma assign_builtin (headers custom : gmap string string) key :
  custom !! key = None -> assign headers custom !! key = headers !! key.
Proof. intros H. unfold assign. by apply lookup_union_r. Qed.

(** C8, as amended.  In the OpenAI-compatible and the Claude adapter the
    custom headers of the configuration are merged over the built-in
    headers: a custom header is sent with its custom value, also when a
    built-in header (the bearer authorization, the x-api-key) has the same
    name, and the built-in headers without a custom namesake are sent as
    they are.  The Gemini adapter sends the content type only, whatever the
    custom headers. *)
Theorem C8_custom_headers_take_precedence (c : Config) (custom : gmap string string) :
  customHeaders c = Some custom ->
  (forall key value, custom !! key = Some value ->
     OpenAICompatibleAdapter.buildHeaders c !! key = Some value /\
     ClaudeAdapter.buildHeaders c !! key = Some value) /\
  (forall k, truthyKey (apiKey c) = Some k ->
     custom !! "Authorization" = None -> custom !! "x-api-key" = None ->
     OpenAICompatibleAdapter.buildHeaders c !! "Authorization" = Some ("Bearer " +:+ k) /\
     ClaudeAdapter.buildHeaders c !! "x-api-key" = Some k) /\
  GeminiAdapter.requestHeaders c = {[ "Content-Type" := "application/json" ]}.
Proof.
  intros Hc. unfold OpenAICompatibleAdapter.buildHeaders, ClaudeAdapter.buildHeaders.
  rewrite Hc. split; [|split].
  - intros key value Hk. split; by apply assign_custom.
  - intros k Hkey Ha Hx. rewrite Hkey.
    rewrite !assign_builtin by assumption.
    split; apply lookup_insert_eq.
  - reflexivity.
Qed.

End HeaderFacts.

Section HeaderExamples.
Import Api.

Lemma C8_witness :
  customHeaders Scenario.proxied = Some {[ "Authorization" := "Basic cHJveHk=" ]} /\
  OpenAICompatibleAdapter.buildHeaders Scenario.proxied !! "Authorization"
    = Some "Basic cHJveHk=" /\
  ClaudeAdapter.buildHeaders Scenario.proxied !! "Authorization"
    = Some "Basic cHJveHk=".
Proof.
  split; [reflexivity|].
  apply (C8_custom_headers_take_precedence Scenario.proxied
           {[ "Authorization" := "Basic cHJveHk=" ]} eq_refl).
  apply lookup_singleton_eq.
Defined.

(** The statement of C8 as the specification has it fails for the Gemini
    adapter: a custom header of the configuration is not in the headers of
    its request. *)
Lemma C8_gemini_drops_custom_headers :
  ~ (forall key value,
       customHeaders Scenario.proxied = Some {[ key := value ]} ->
       requestHeaders (newGeminiAdapter Scenario.proxied) !! key = Some value).
Proof.
  intros H. specialize (H "Authorization" "Basic cHJveHk=" eq_refl).
  vm_compute in H. discriminate H.
Qed.

End HeaderExamples.

(** ** The store *)

Section StorageFacts.
Import Storage.

(** One stats update counts one request, as a success or as a failure. *)
Lemma updateStats_counts (ok : bool) (time : Z) (st : Store) :
  let before := getStats st in
  let after := getStats (updateStats ok time st) in
  totalRequests after = (totalRequests before + 1)%Z /\
  (successCount after + failCount after
   = successCount before + failCount before + 1)%Z /\
  totalTime after = (totalTime before + time)%Z.
Proof. destruct ok; simpl; repeat split; lia. Qed.

(** The record of [addHistory] is the newest of the history kept, provided
    the retention is a positive number of days. *)
Lemma addHistory_newest (configName result : string) (ok : bool) (elapsed : Z)
      (newId : string) (now : Z) (st : Store) :
  (0 < historyRetention (getSettings st))%Z ->
  head (recognition_history (addHistory configName result ok elapsed newId now st))
  = Some (mkHistoryRecord configName result ok elapsed newId now).
Proof.
  intros Hret. unfold addHistory.
  cbn [recognition_history List.filter timestamp].
  destruct (Z.gtb_spec now (now - historyRetention (getSettings st) * 24 * 60 * 60 * 1000));
    [reflexivity | lia].
Qed.

Lemma List_filter_sublist {A} (p : A -> bool) (l : list A) : sublist (List.filter p l) l.
Proof.
  induction l as [|x l IH]; simpl; [constructor|].
  destruct (p x); by constructor.
Qed.

(** One stats update and then one history record, of the same outcome. *)
Lemma addHistory_updateStats_recorded (configName result : string) (ok : bool)
      (elapsed : Z) (newId : string) (now : Z) (st : Store) :
  Vocabulary.recorded st
    (addHistory configName result ok elapsed newId now (updateStats ok elapsed st))
    (mkHistoryRecord configName result ok elapsed newId now).
Proof.
  unfold Vocabulary.recorded.
  do 4 (split; [reflexivity|]).
  unfold addHistory, getHistory.
  change (getSettings (updateStats ok elapsed st)) with (getSettings st).
  cbn [recognition_history updateStats].
  set (retentionMs := (historyRetention (getSettings st) * 24 * 60 * 60 * 1000)%Z).
  set (newRecord := mkHistoryRecord configName result ok elapsed newId now).
  set (recent := fun r : HistoryRecord => (timestamp r >? now - retentionMs)%Z).
  set (old := take 999 (recognition_history st)).
  assert (Hold : sublist (List.filter recent old) (recognition_history st)).
  { etrans; [apply List_filter_sublist|]. apply sublist_take. }
  change (List.filter recent (newRecord :: old))
    with (if recent newRecord then newRecord :: List.filter recent old
          else List.filter recent old).
  assert (Hnew : recent newRecord = (now >? now - retentionMs)%Z) by reflexivity.
  rewrite Hnew.
  split; intros Hret.
  - destruct (Z.gtb_spec now (now - retentionMs)) as [_|]; [|lia].
    exists (take 499 (List.filter recent old)). split; [reflexivity|].
    etrans; [apply sublist_take|]. exact Hold.
  - destruct (Z.gtb_spec now (now - retentionMs)) as [|_]; [lia|].
    split.
    + intros Hin. apply elem_of_take in Hin as (i & Hin & _).
      apply list_elem_of_lookup_2, list_elem_of_In, filter_In in Hin as [_ Hin].
      unfold recent in Hin. apply Z.gtb_lt in Hin. cbn [timestamp newRecord] in Hin. lia.
    + etrans; [apply sublist_take|]. exact Hold.
Qed.

End StorageFacts.

(** ** The dispatcher *)

Section DispatcherFacts.
Import Api ApiManager Vocabulary.

Variable network : nat -> Request -> Reply.
Variable generateId : Z -> string.

Lemma getAdapter_run (config : Config) (w : World) :
  exists w',
    getAdapter config w = (Returned (adapterFor w config), w') /\
    now w' = now w /\ store w' = store w /\ calls w' = calls w /\ trace w' = trace w /\
    adapters w' !! adapterKey config = Some (adapterFor w config) /\
    adapterFor w' config = adapterFor w config.
Proof.
  unfold getAdapter, adapterFor.
  destruct (adapters w !! adapterKey config) as [a|] eqn:E; simpl.
  - exists w. by rewrite E.
  - eexists. split; [reflexivity|]. simpl. by rewrite lookup_insert_eq.
Qed.

Section Loop.
Variables (config : Config) (adapter : Adapter) (imageData prompt : string)
          (timeout retryCount startTime : Z).

Let req := request adapter imageData prompt.

(** A turn of the loop whose attempt fails: the error is handed on, the
    request was made, the time of the attempt and of the backoff has
    passed; nothing is recorded. *)
Lemma attemptOnce_failure (attempt : Z) (w : World) (message : string) :
  attemptError (network (calls w) req) timeout = Some message ->
  attemptOnce network generateId config adapter imageData prompt timeout retryCount
              startTime attempt w
  = (Returned (inr (Error message)),
     if (attempt <? retryCount - 1)%Z
     then mkWorld (now w + spent (network (calls w) req) timeout
                   + timerDelay (1000 * (attempt + 1)))
                  (store w) (adapters w) (S (calls w))
                  (trace w ++ [Fetch (now w) req; Sleep (1000 * (attempt + 1))])
     else mkWorld (now w + spent (network (calls w) req) timeout)
                  (store w) (adapters w) (S (calls w))
                  (trace w ++ [Fetch (now w) req])).
Proof.
  unfold attemptError, spent. intros H.
  unfold attemptOnce, tryCatch, adapterRecognize, executeWithTimeout.
  unfold mbind, M_bind. fold req.
  destruct (latency (network (calls w) req) <=? timerDelay timeout)%Z.
  - destruct (answer (network (calls w) req)) as [t|m]; [discriminate|].
    injection H as ->.
    destruct (attempt <? retryCount - 1)%Z;
      unfold delay, emit, elapse, throw, mbind, M_bind, mret, M_ret;
      cbn [now store adapters calls trace]; by rewrite <- ?app_assoc.
  - injection H as <-.
    destruct (attempt <? retryCount - 1)%Z;
      unfold delay, emit, elapse, throw, mbind, M_bind, mret, M_ret;
      cbn [now store adapters calls trace]; by rewrite <- ?app_assoc.
Qed.

(** A turn of the loop whose attempt succeeds in time: the outcome is
    returned from inside the loop, after one stats update and one history
    record. *)
Lemma attemptOnce_success (attempt : Z) (w : World) (txt : string) :
  attemptText (network (calls w) req) timeout = Some txt ->
  let t := (now w + latency (network (calls w) req))%Z in
  let el := (t - startTime)%Z in
  attemptOnce network generateId config adapter imageData prompt timeout retryCount
              startTime attempt w
  = (Returned (inl {| success := true; text := Some txt; error := None;
                      elapsed := el; attempt := Some (attempt + 1)%Z |}),
     mkWorld t
             (Storage.addHistory (name config) txt true el (generateId t) t
                (Storage.updateStats true el (store w)))
             (adapters w) (S (calls w))
             (trace w ++ [Fetch (now w) req; UpdateStats true el;
                          AddHistory (name config) txt true el])).
Proof.
  unfold attemptText. intros H.
  unfold attemptOnce, tryCatch, adapterRecognize, executeWithTimeout.
  unfold mbind, M_bind. fold req.
  destruct (latency (network (calls w) req) <=? timerDelay timeout)%Z; [|discriminate].
  destruct (answer (network (calls w) req)) as [t|m]; [|discriminate].
  injection H as ->. simpl. by rewrite <- !app_assoc.
Qed.

Lemma attempt_settles (reply : Reply) :
  (exists m, attemptError reply timeout = Some m) \/
  (exists t, attemptText reply timeout = Some t).
Proof.
  unfold attemptError, attemptText.
  destruct (latency reply <=? timerDelay timeout)%Z; [|eauto].
  destruct (answer reply); eauto.
Qed.

(** Whatever the reply, a turn of the loop returns, makes one request,
    the adapter's, and leaves the adapters as they are; it records, once,
    exactly when it returns an outcome, and leaves the store as it is
    otherwise. *)
Lemma attemptOnce_run (attempt : Z) (w : World) :
  exists step w' evs,
    attemptOnce network generateId config adapter imageData prompt timeout retryCount
                startTime attempt w = (Returned step, w') /\
    trace w' = trace w ++ evs /\ requestsOf evs = [req] /\
    adapters w' = adapters w /\
    match step with
    | inl outcome =>
        success outcome = true /\
        exists result,
          recordings evs = [UpdateStats true (elapsed outcome);
                            AddHistory (name config) result true (elapsed outcome)] /\
          store w' =
            Storage.addHistory (name config) result true (elapsed outcome)
              (generateId (now w')) (now w')
              (Storage.updateStats true (elapsed outcome) (store w))
    | inr e => (exists m, e = Error m) /\ recordings evs = [] /\ store w' = store w
    end.
Proof.
  destruct (attempt_settles (network (calls w) req)) as [[m H] | [t H]].
  - rewrite (attemptOnce_failure _ _ _ H).
    destruct (attempt <? retryCount - 1)%Z;
      do 3 eexists; (split; [reflexivity|]); cbn -[timerDelay]; eauto 10.
  - rewrite (attemptOnce_success _ _ _ H).
    do 3 eexists. split; [reflexivity|]. simpl. eauto 10.
Qed.

Lemma recordings_app (l1 l2 : list Event) :
  recordings (l1 ++ l2) = recordings l1 ++ recordings l2.
Proof. unfold recordings. apply List.filter_app. Qed.

(** The loop returns for every fuel; its requests are all the adapter's;
    it records, once, exactly when it returns an outcome; an error it
    ends on is the error it started from or an [Error] object. *)
Lemma attempts_run (fuel : nat) :
  forall (attempt : Z) (lastError : Thrown) (w : World),
    exists r w' evs,
      attempts network generateId config adapter imageData prompt timeout retryCount
               startTime fuel attempt lastError w = (Returned r, w') /\
      trace w' = trace w ++ evs /\
      Forall (fun r => r = req) (requestsOf evs) /\
      adapters w' = adapters w /\
      match r with
      | inl outcome =>
          success outcome = true /\
          exists result,
            recordings evs = [UpdateStats true (elapsed outcome);
                              AddHistory (name config) result true (elapsed outcome)] /\
            store w' =
              Storage.addHistory (name config) result true (elapsed outcome)
                (generateId (now w')) (now w')
                (Storage.updateStats true (elapsed outcome) (store w))
      | inr e =>
          (e = lastError \/ exists m, e = Error m) /\ recordings evs = [] /\
          store w' = store w
      end.
Proof.
  induction fuel as [|fuel IH]; intros attempt lastError w; simpl.
  - exists (inr lastError), w, []. rewrite app_nil_r. repeat split; auto.
  - destruct (attempt <? retryCount)%Z.
    + destruct (attemptOnce_run attempt w) as (step & w1 & evs1 & Hrun & Ht1 & Hr1 & Ha1 & Hs).
      unfold mbind, M_bind. rewrite Hrun.
      destruct step as [outcome | e].
      * exists (inl outcome), w1, evs1. repeat split; try tauto.
        rewrite Hr1. by constructor.
      * destruct Hs as (Hm & Hrec1 & Hst1).
        destruct (IH (attempt + 1)%Z e w1) as (r & w2 & evs2 & Hrun2 & Ht2 & Hr2 & Ha2 & Hs2).
        exists r, w2, (evs1 ++ evs2).
        rewrite Hrun2, Ht2, Ht1, Ha2, Ha1, app_assoc, recordings_app, Hrec1.
        repeat split; auto.
        -- unfold requestsOf in *. rewrite omap_app, Hr1. by constructor.
        -- destruct r as [|e']; [by rewrite <- Hst1|].
           destruct Hs2 as ([-> | Hs2] & Hrec2 & Hst2); rewrite Hst2; auto.
    + exists (inr lastError), w, []. rewrite app_nil_r. repeat split; auto.
Qed.

(** Fuel beyond the number of turns left changes nothing. *)
Lemma attempts_fuel (fuel : nat) :
  forall (attempt : Z) (lastError : Thrown) (w : World),
    (retryCount - attempt <= Z.of_nat fuel)%Z ->
    attempts network generateId config adapter imageData prompt timeout retryCount
             startTime (S fuel) attempt lastError w
    = attempts network generateId config adapter imageData prompt timeout retryCount
               startTime fuel attempt lastError w.
Proof.
  induction fuel as [|fuel IH]; intros attempt lastError w Hle.
  - simpl. destruct (Z.ltb_spec attempt retryCount); [lia | reflexivity].
  - change (attempts network generateId config adapter imageData prompt timeout
              retryCount startTime (S (S fuel)) attempt lastError w)
      with ((if (attempt <? retryCount)%Z then
               step ← attemptOnce network generateId config adapter imageData prompt
                        timeout retryCount startTime attempt;
               match step with
               | inl outcome => mret (inl outcome)
               | inr error =>
                   attempts network generateId config adapter imageData prompt timeout
                            retryCount startTime (S fuel) (attempt + 1)%Z error
               end
             else mret (inr lastError)) w).
    change (attempts network generateId config adapter imageData prompt timeout
              retryCount startTime (S fuel) attempt lastError w)
      with ((if (attempt <? retryCount)%Z then
               step ← attemptOnce network generateId config adapter imageData prompt
                        timeout retryCount startTime attempt;
               match step with
               | inl outcome => mret (inl outcome)
               | inr error =>
                   attempts network generateId config adapter imageData prompt timeout
                            retryCount startTime fuel (attempt + 1)%Z error
               end
             else mret (inr lastError)) w).
    destruct (attempt <? retryCount)%Z; [|reflexivity].
    unfold mbind, M_bind.
    destruct (attemptOnce _ _ _ _ _ _ _ _ _ attempt w) as [[[outcome | e] | e] w1];
      try reflexivity.
    apply IH. lia.
Qed.


(** The fuel [recognize] gives the loop, the retry count, is enough: the
    loop does the same with any more. *)
Lemma attempts_enough_fuel (extra : nat) (lastError : Thrown) (w : World) :
  attempts network generateId config adapter imageData prompt timeout retryCount
           startTime (Z.to_nat retryCount + extra) 0%Z lastError w
  = attempts network generateId config adapter imageData prompt timeout retryCount
             startTime (Z.to_nat retryCount) 0%Z lastError w.
Proof.
  induction extra as [|extra IH].
  - by rewrite Nat.add_0_r.
  - rewrite <- IH, Nat.add_succ_r. apply attempts_fuel. lia.
Qed.

Lemma attempts_S (fuel : nat) (attempt : Z) (lastError : Thrown) (w : World) :
  attempts network generateId config adapter imageData prompt timeout retryCount
           startTime (S fuel) attempt lastError w
  = if (attempt <? retryCount)%Z then
      match attemptOnce network generateId config adapter imageData prompt timeout
                        retryCount startTime attempt w with
      | (Returned (inl outcome), w') => (Returned (inl outcome), w')
      | (Returned (inr error), w') =>
          attempts network generateId config adapter imageData prompt timeout
                   retryCount startTime fuel (attempt + 1)%Z error w'
      | (Threw e, w') => (Threw e, w')
      end
    else (Returned (inr lastError), w).
Proof.
  simpl. destruct (attempt <? retryCount)%Z; [|reflexivity].
  unfold mbind, M_bind.
  by destruct (attemptOnce _ _ _ _ _ _ _ _ _ attempt w) as [[[outcome | e] | e] w1].
Qed.

(** With three turns allowed and the first two attempts failing, the
    world the third attempt starts in. *)
Lemma attempts_two_failures (w : World) (e0 e1 : string) (lastError : Thrown) :
  retryCount = 3%Z ->
  attemptError (network (calls w) req) timeout = Some e0 ->
  attemptError (network (S (calls w)) req) timeout = Some e1 ->
  let t1 := (now w + spent (network (calls w) req) timeout + 1000)%Z in
  let t2 := (t1 + spent (network (S (calls w)) req) timeout + 2000)%Z in
  attempts network generateId config adapter imageData prompt timeout retryCount
           startTime 3 0%Z lastError w
  = attempts network generateId config adapter imageData prompt timeout retryCount
             startTime 1 2%Z (Error e1)
             (mkWorld t2 (store w) (adapters w) (S (S (calls w)))
                      (trace w ++ [Fetch (now w) req; Sleep 1000;
                                   Fetch t1 req; Sleep 2000])).
Proof.
  intros Hrc H0 H1 t1 t2.
  assert (Hlt0 : (0 <? retryCount)%Z = true) by (by rewrite Hrc).
  assert (Hlt1 : (0 + 1 <? retryCount)%Z = true) by (by rewrite Hrc).
  assert (Hb0 : (0 <? retryCount - 1)%Z = true) by (by rewrite Hrc).
  assert (Hb1 : (0 + 1 <? retryCount - 1)%Z = true) by (by rewrite Hrc).
  rewrite attempts_S, Hlt0, (attemptOnce_failure _ _ _ H0), Hb0.
  rewrite attempts_S, Hlt1.
  rewrite (attemptOnce_failure (0 + 1) (mkWorld _ _ _ _ _) e1) by exact H1.
  rewrite Hb1.
  cbn [now store adapters calls trace].
  change (1000 * (0 + 1))%Z with 1000%Z. change (1000 * (0 + 1 + 1))%Z with 2000%Z.
  change (0 + 1 + 1)%Z with 2%Z.
  rewrite <- app_assoc. reflexivity.
Qed.

End Loop.

(** The [try] block, once the active configuration is known. *)
Lemma dispatch_run (imageData : string) (options : Options) (startTime : Z)
      (w : World) (config : Config) :
  Storage.getActiveConfig (store w) = Some config ->
  let settings := Storage.getSettings (store w) in
  let prompt := JsString.orElse (customPrompt config) DEFAULT_RECOGNITION_PROMPT in
  let timeout := orElseZ (timeoutOption options) (Storage.timeout settings) in
  let retryCount := orElseZ (retryCountOption options) (Storage.retryCount settings) in
  dispatch network generateId imageData options startTime w
  = match getAdapter config w with
    | (Returned adapter, w1) =>
        match attempts network generateId config adapter imageData prompt timeout
                       retryCount startTime (Z.to_nat retryCount) 0%Z Null w1 with
        | (Returned (inl outcome), w2) => (Returned outcome, w2)
        | (Returned (inr lastError), w2) => (Threw lastError, w2)
        | (Threw e, w2) => (Threw e, w2)
        end
    | (Threw e, w1) => (Threw e, w1)
    end.
Proof.
  intros Hcfg settings prompt timeout retryCount.
  unfold dispatch, getActiveConfig, getSettings, readStore.
  unfold mbind, M_bind. rewrite Hcfg.
  destruct (getAdapter config w) as [[adapter | e] w1]; [|reflexivity].
  fold settings. fold prompt. fold timeout. fold retryCount.
  by destruct (attempts _ _ _ _ _ _ _ _ _ _ _ _ w1) as [[[outcome | e] | e] w2].
Qed.

(** The [try] block without an active configuration: it throws at once. *)
Lemma dispatch_not_configured (imageData : string) (options : Options)
      (startTime : Z) (w : World) :
  Storage.getActiveConfig (store w) = None ->
  dispatch network generateId imageData options startTime w
  = (Threw (Error "请先配置API"), w).
Proof.
  intros Hcfg. unfold dispatch, getActiveConfig, readStore.
  unfold mbind, M_bind. by rewrite Hcfg.
Qed.

(** The [catch] clause on an [Error] object: one stats update, one history
    record, and the failure outcome. *)
Lemma recordFailure_error (startTime : Z) (message : string) (w : World) :
  let el := (now w - startTime)%Z in
  let configName :=
    JsString.orElse (match Storage.getActiveConfig (store w) with
                     | Some c => name c
                     | None => ""
                     end) "未知" in
  recordFailure generateId startTime (Error message) w
  = (Returned {| success := false; text := None; error := Some message;
                 elapsed := el; attempt := None |},
     mkWorld (now w)
             (Storage.addHistory configName message false el (generateId (now w)) (now w)
                (Storage.updateStats false el (store w)))
             (adapters w) (calls w)
             (trace w ++ [UpdateStats false el; AddHistory configName message false el])).
Proof.
  intros el configName. unfold recordFailure, updateStats, addHistory, messageOf,
    getActiveConfig, dateNow, emit, readStore, writeStore.
  unfold mbind, M_bind, mret, M_ret. cbn [now store adapters calls trace].
  by rewrite <- app_assoc.
Qed.

(** The [catch] clause on [null]: after the stats update, reading the
    message of the error throws, and nothing catches it. *)
Lemma recordFailure_null (startTime : Z) (w : World) :
  let el := (now w - startTime)%Z in
  recordFailure generateId startTime Null w
  = (Threw (Error "Cannot read properties of null (reading 'message')"),
     mkWorld (now w) (Storage.updateStats false el (store w)) (adapters w) (calls w)
             (trace w ++ [UpdateStats false el])).
Proof.
  intros el. unfold recordFailure, updateStats, messageOf,
    getActiveConfig, dateNow, emit, readStore, writeStore, throw.
  unfold mbind, M_bind, mret, M_ret. reflexivity.
Qed.

End DispatcherFacts.

Section DispatcherClaims.
Import Api ApiManager Vocabulary.

Variable network : nat -> Request -> Reply.
Variable generateId : Z -> string.

(** [recognize], once the active configuration is known. *)
Lemma recognize_run (imageData : string) (options : Options) (w : World)
      (config : Config) :
  Storage.getActiveConfig (store w) = Some config ->
  let settings := Storage.getSettings (store w) in
  let prompt := JsString.orElse (customPrompt config) DEFAULT_RECOGNITION_PROMPT in
  let timeout := orElseZ (timeoutOption options) (Storage.timeout settings) in
  let retryCount := orElseZ (retryCountOption options) (Storage.retryCount settings) in
  exists w1,
    now w1 = now w /\ store w1 = store w /\ calls w1 = calls w /\ trace w1 = trace w /\
    adapters w1 !! adapterKey config = Some (adapterFor w config) /\
    recognize network generateId imageData options w
    = match attempts network generateId config (adapterFor w config) imageData prompt
                     timeout retryCount (now w) (Z.to_nat retryCount) 0%Z Null w1 with
      | (Returned (inl outcome), w2) => (Returned outcome, w2)
      | (Returned (inr lastError), w2) => recordFailure generateId (now w) lastError w2
      | (Threw e, w2) => recordFailure generateId (now w) e w2
      end.
Proof.
  intros Hcfg settings prompt timeout retryCount.
  destruct (getAdapter_run config w) as (w1 & Hget & Hnow & Hstore & Hcalls & Htrace & Ha & _).
  exists w1. repeat (split; [assumption|]).
  unfold recognize, tryCatch, dateNow. unfold mbind, M_bind.
  rewrite (dispatch_run network generateId _ _ _ _ _ Hcfg), Hget.
  by destruct (attempts _ _ _ _ _ _ _ _ _ _ _ _ w1) as [[[outcome | e] | e] w2].
Qed.

(** With at least one attempt allowed [recognize] returns an outcome,
    whatever the providers answer and however many attempts that takes;
    among its events there is exactly one stats update and one history
    record, both of that outcome, and the store afterwards is the store
    of before with that one update and that one record added. *)
Lemma recognize_records_once (imageData : string) (options : Options) (w : World)
      (config : Config) :
  Storage.getActiveConfig (store w) = Some config ->
  (1 <= orElseZ (retryCountOption options)
                (Storage.retryCount (Storage.getSettings (store w))))%Z ->
  let run := recognize network generateId imageData options w in
  exists (outcome : Outcome) (evs : list Event) (configName result : string),
    fst run = Returned outcome /\
    trace (snd run) = trace w ++ evs /\
    recordings evs = [UpdateStats (success outcome) (elapsed outcome);
                      AddHistory configName result (success outcome) (elapsed outcome)] /\
    store (snd run) =
      Storage.addHistory configName result (success outcome) (elapsed outcome)
        (generateId (now (snd run))) (now (snd run))
        (Storage.updateStats (success outcome) (elapsed outcome) (store w)).
Proof.
  intros Hcfg Hrc run. unfold run.
  destruct (recognize_run imageData options w config Hcfg)
    as (w1 & _ & Hstore & _ & Htrace & _ & Hrun).
  rewrite Hrun. clear Hrun.
  set (retryCount := orElseZ _ _) in *.
  destruct (Z.to_nat retryCount) as [|fuel] eqn:Hfuel; [lia|].
  rewrite attempts_S.
  destruct (Z.ltb_spec 0 retryCount); [|lia].
  match goal with
  | |- context [attemptOnce ?n ?g ?c ?a ?i ?p ?t ?r ?s 0%Z w1] =>
      destruct (attemptOnce_run n g c a i p t r s 0%Z w1)
        as (step & w2 & evs & Hstep & Ht2 & _ & _ & Hs)
  end.
  rewrite Hstep, Htrace, Hstore in *. destruct step as [outcome | e].
  { destruct Hs as (Hok & result & Hrec & Hst).
    exists outcome, evs, (name config), result. rewrite Hok. auto. }
  destruct Hs as ([m ->] & Hrec & Hst).
  match goal with
  | |- context [attempts ?n ?g ?c ?a ?i ?p ?t ?r ?s fuel ?k (Error m) w2] =>
      destruct (attempts_run n g c a i p t r s fuel k (Error m) w2)
        as (r' & w3 & evs' & Hloop & Ht3 & _ & _ & Hr)
  end.
  rewrite Hloop. rewrite Hst in Hr. destruct r' as [outcome | e].
  { destruct Hr as (Hok & result & Hrec' & Hst').
    exists outcome, (evs ++ evs'), (name config), result.
    cbn [fst snd]. rewrite Hok, Ht3, Ht2, recordings_app, Hrec, Hrec', app_assoc. auto. }
  destruct Hr as (He & Hrec' & Hst').
  assert (He' : exists m', e = Error m') by (destruct He as [-> | He]; eauto).
  destruct He' as [m' ->]. rewrite recordFailure_error.
  cbn [fst snd trace store now success elapsed].
  do 4 eexists. split; [reflexivity|].
  rewrite Ht3, Ht2, Hst', <- !app_assoc. split; [reflexivity|].
  rewrite !recordings_app, Hrec, Hrec'. split; reflexivity.
Qed.

(** C1, as amended.  A call of [recognize] with an active configuration
    and a retry count of 3.  Whatever the providers answer and however
    many of the three attempts are used, an outcome is returned, exactly
    one stats update and one history record are issued, and the store
    afterwards holds them: the statistics count one more request with its
    time, and the record is the newest entry of the history when the
    retention is positive (with a retention of zero days or less the record
    is dropped at once).  When the first two attempts fail (the adapter
    rejects, or the timer fires first), the three requests are made one
    after the other, 1000 ms and then 2000 ms after the failures of the
    first and of the second; when the third attempt fails too, the value
    returned is the failure outcome with the message of the third error;
    when it succeeds, the success outcome with [attempt = 3]. *)
Theorem C1_three_attempts_backoff_one_record
    (imageData : string) (options : Options) (w : World) (config : Config) :
  Storage.getActiveConfig (store w) = Some config ->
  orElseZ (retryCountOption options)
          (Storage.retryCount (Storage.getSettings (store w))) = 3%Z ->
  let timeout :=
    orElseZ (timeoutOption options) (Storage.timeout (Storage.getSettings (store w))) in
  let prompt := JsString.orElse (customPrompt config) DEFAULT_RECOGNITION_PROMPT in
  let req := request (adapterFor w config) imageData prompt in
  let reply k := network (calls w + k)%nat req in
  let t0 := now w in
  let t1 := (t0 + spent (reply 0%nat) timeout + 1000)%Z in
  let t2 := (t1 + spent (reply 1%nat) timeout + 2000)%Z in
  let run := recognize network generateId imageData options w in
  (exists (outcome : Outcome) (evs : list Event) (configName result : string),
     fst run = Returned outcome /\
     trace (snd run) = trace w ++ evs /\
     recordings evs = [UpdateStats (success outcome) (elapsed outcome);
                       AddHistory configName result (success outcome)
                                  (elapsed outcome)] /\
     recorded (store w) (store (snd run))
       (Storage.mkHistoryRecord configName result (success outcome) (elapsed outcome)
          (generateId (now (snd run))) (now (snd run)))) /\
  forall e0 e1 : string,
    attemptError (reply 0%nat) timeout = Some e0 ->
    attemptError (reply 1%nat) timeout = Some e1 ->
    (forall e2 : string,
       attemptError (reply 2%nat) timeout = Some e2 ->
       let tEnd := (t2 + spent (reply 2%nat) timeout)%Z in
       let el := (tEnd - t0)%Z in
       let configName := JsString.orElse (name config) "未知" in
       fst run = Returned {| success := false; text := None; error := Some e2;
                             elapsed := el; attempt := None |} /\
       trace (snd run) =
         trace w ++ [Fetch t0 req; Sleep 1000; Fetch t1 req; Sleep 2000; Fetch t2 req;
                     UpdateStats false el; AddHistory configName e2 false el] /\
       recorded (store w) (store (snd run))
         (Storage.mkHistoryRecord configName e2 false el (generateId tEnd) tEnd)) /\
    (forall txt : string,
       attemptText (reply 2%nat) timeout = Some txt ->
       let tEnd := (t2 + latency (reply 2%nat))%Z in
       let el := (tEnd - t0)%Z in
       fst run = Returned {| success := true; text := Some txt; error := None;
                             elapsed := el; attempt := Some 3%Z |} /\
       trace (snd run) =
         trace w ++ [Fetch t0 req; Sleep 1000; Fetch t1 req; Sleep 2000; Fetch t2 req;
                     UpdateStats true el; AddHistory (name config) txt true el] /\
       recorded (store w) (store (snd run))
         (Storage.mkHistoryRecord (name config) txt true el (generateId tEnd) tEnd)).
Proof.
  intros Hcfg Hrc timeout prompt req reply t0 t1 t2 run.
  split.
  { destruct (recognize_records_once imageData options w config Hcfg)
      as (outcome & evs & configName & result & Hout & Htr & Hrec & Hst).
    { rewrite Hrc. lia. }
    exists outcome, evs, configName, result.
    split; [exact Hout|]. split; [exact Htr|]. split; [exact Hrec|].
    unfold run. rewrite Hst. apply addHistory_updateStats_recorded. }
  intros e0 e1 H0 H1.
  subst run t2 t1 t0 reply. cbv beta in *.
  replace (calls w + 2)%nat with (S (S (calls w))) by lia.
  rewrite Nat.add_0_r, Nat.add_1_r in *.
  destruct (recognize_run imageData options w config Hcfg)
    as (w1 & Hnow & Hstore & Hcalls & Htrace & _ & Hrun).
  fold timeout prompt in Hrun. rewrite Hrc in Hrun.
  change (Z.to_nat 3) with 3%nat in Hrun.
  rewrite <- Hcalls in H0, H1.
  rewrite (attempts_two_failures network generateId config _ imageData prompt timeout 3
             (now w) w1 e0 e1 Null eq_refl H0 H1) in Hrun.
  rewrite attempts_S in Hrun. change (2 <? 3)%Z with true in Hrun. cbv iota in Hrun.
  rewrite Hnow, Hstore, Hcalls, Htrace in Hrun. fold req in Hrun.
  split.
  - intros e2 H2 tEnd el configName. subst el tEnd configName.
    rewrite (attemptOnce_failure network generateId config _ imageData prompt timeout 3
               (now w) 2 (mkWorld _ _ _ _ _) e2) in Hrun by exact H2.
    change (2 <? 3 - 1)%Z with false in Hrun. cbv iota in Hrun.
    cbn [attempts mret M_ret] in Hrun.
    rewrite recordFailure_error in Hrun. cbn [now store adapters calls trace] in Hrun.
    rewrite Hcfg in Hrun.
    rewrite Hrun. cbn [fst snd trace store].
    split; [reflexivity|]. split; [by rewrite <- !app_assoc|].
    apply addHistory_updateStats_recorded.
  - intros txt H2 tEnd el. subst el tEnd.
    rewrite (attemptOnce_success network generateId config _ imageData prompt timeout 3
               (now w) 2 (mkWorld _ _ _ _ _) txt) in Hrun by exact H2.
    cbn [now store adapters calls trace] in Hrun.
    rewrite Hrun. cbn [fst snd trace store].
    split; [reflexivity|]. split; [by rewrite <- !app_assoc|].
    apply addHistory_updateStats_recorded.
Qed.

(** X22.  Without an active configuration [recognize] makes no attempt
    and returns the failure outcome at once, after one stats update and
    one history record. *)
Lemma recognize_not_configured (imageData : string) (options : Options) (w : World) :
  Storage.getActiveConfig (store w) = None ->
  let run := recognize network generateId imageData options w in
  fst run = Returned {| success := false; text := None; error := Some "请先配置API";
                        elapsed := 0; attempt := None |} /\
  trace (snd run) =
    trace w ++ [UpdateStats false 0; AddHistory "未知" "请先配置API" false 0] /\
  calls (snd run) = calls w.
Proof.
  intros Hcfg run. unfold run, recognize, tryCatch, dateNow. unfold mbind, M_bind.
  rewrite (dispatch_not_configured network generateId _ _ _ _ Hcfg).
  rewrite recordFailure_error, Hcfg, Z.sub_diag. auto.
Qed.

(** C2.  [recognize] throws to its caller when the retry count in force
    is zero or less: the loop makes no attempt, [throw lastError] throws
    [null], and the catch clause, after its stats update, fails on the
    message of [null]; no outcome is returned and no history record is
    written. *)
Theorem C2_recognize_throws_when_no_attempt_is_allowed
    (imageData : string) (options : Options) (w : World) (config : Config) :
  Storage.getActiveConfig (store w) = Some config ->
  (orElseZ (retryCountOption options)
           (Storage.retryCount (Storage.getSettings (store w))) <= 0)%Z ->
  let run := recognize network generateId imageData options w in
  fst run = Threw (Error "Cannot read properties of null (reading 'message')") /\
  trace (snd run) = trace w ++ [UpdateStats false 0].
Proof.
  intros Hcfg Hrc run.
  destruct (recognize_run imageData options w config Hcfg)
    as (w1 & Hnow & _ & _ & Htrace & _ & Hrun).
  unfold run. rewrite Hrun. clear Hrun.
  set (retryCount := orElseZ _ _) in *.
  replace (Z.to_nat retryCount) with 0%nat by lia.
  cbn [attempts mret M_ret]. rewrite recordFailure_null.
  cbn [fst snd trace]. by rewrite Hnow, Htrace, Z.sub_diag.
Qed.


End DispatcherClaims.

Section DispatcherExamples.
Import Api ApiManager Vocabulary Scenario.

Lemma C1_witness :
  Storage.getActiveConfig (store (world 3)) = Some openai /\
  fst (recognize failing stamp "data:image/png;base64,AAAA" noOptions (world 3))
    = Returned {| success := false; text := None; error := Some "boom";
                  elapsed := 3600; attempt := None |} /\
  recordings (trace (snd (recognize failing stamp "data:image/png;base64,AAAA"
                                    noOptions (world 3))))
    = [UpdateStats false 3600; AddHistory "My OpenAI" "boom" false 3600] /\
  Storage.statistics (store (snd (recognize failing stamp "data:image/png;base64,AAAA"
                                            noOptions (world 3))))
    = Some (Storage.mkStats 1 0 1 3600) /\
  Storage.recognition_history
    (store (snd (recognize failing stamp "data:image/png;base64,AAAA"
                           noOptions (world 3))))
    = [Storage.mkHistoryRecord "My OpenAI" "boom" false 3600 "id-4600" 4600] /\
  fst (recognize flaky stamp "data:image/png;base64,AAAA" noOptions (world 3))
    = Returned {| success := true; text := Some "AB3x"; error := None;
                  elapsed := 3700; attempt := Some 3%Z |}.
Proof.
  split; [reflexivity|].
  destruct (C1_three_attempts_backoff_one_record failing stamp
              "data:image/png;base64,AAAA" noOptions (world 3) openai
              eq_refl eq_refl) as [_ Hthree].
  destruct (Hthree "boom" "boom" eq_refl eq_refl) as [Hfail _].
  destruct (Hfail "boom" eq_refl) as (Hout & Htrace & Hrec).
  destruct (C1_three_attempts_backoff_one_record flaky stamp
              "data:image/png;base64,AAAA" noOptions (world 3) openai
              eq_refl eq_refl) as [_ Hthree'].
  destruct (Hthree' "boom" "boom" eq_refl eq_refl) as [_ Hok].
  destruct (Hok "AB3x" eq_refl) as (Hout' & _).
  destruct Hrec as (_ & _ & _ & Hstats & Hkept & _).
  destruct (Hkept ltac:(reflexivity)) as (older & Hhistory & Holder).
  apply sublist_nil_r in Holder. subst older.
  split; [exact Hout|]. split; [by rewrite Htrace|].
  split; [exact Hstats|]. split; [exact Hhistory | exact Hout'].
Defined.

(** The statement of C1 as the specification has it, one history record
    written whatever the attempts, fails when the retention of the history
    is zero days, which the options page stores as it is typed: the
    record is filtered out as it is added, and after the three failed
    attempts the history holds nothing. *)
Lemma C1_record_dropped_without_retention :
  ~ (forall days : Z,
       exists record : Storage.HistoryRecord,
         Storage.recognition_history
           (store (snd (recognize failing stamp "data:image/png;base64,AAAA" noOptions
                                  (worldKeeping days))))
         = [record]).
Proof.
  intros H. destruct (H 0%Z) as [record Hrecord].
  vm_compute in Hrecord. discriminate Hrecord.
Qed.

Lemma C2_witness :
  Storage.getActiveConfig (store (world 0)) = Some openai /\
  (orElseZ (retryCountOption noOptions)
           (Storage.retryCount (Storage.getSettings (store (world 0)))) <= 0)%Z /\
  fst (recognize flaky stamp "data:image/png;base64,AAAA" noOptions (world 0))
    = Threw (Error "Cannot read properties of null (reading 'message')").
Proof.
  split; [reflexivity|]. split; [discriminate|].
  apply (C2_recognize_throws_when_no_attempt_is_allowed flaky stamp
           "data:image/png;base64,AAAA" noOptions (world 0) openai eq_refl).
  discriminate.
Defined.


(** Configurations without an id share the adapter of their type: the
    second is handed the adapter built for the first, its own endpoint
    notwithstanding; a configuration of another type gets its own. *)
Example adapters_without_id_are_keyed_by_type :
  let first := withId openai "" in
  let second := withId moved "" in
  let w := snd (getAdapter first (world 3)) in
  adapters w = {[ "openai_compatible" := newAdapter first ]} /\
  getAdapter second w = (Returned (newAdapter first), w) /\
  fst (getAdapter (withId proxied "") w) = Returned (newAdapter (withId proxied "")).
Proof. vm_compute. repeat split. Qed.

(** The dispatch after the edit still goes to the endpoint of before the
    edit; after [updateAdapter] it goes to the new one. *)
Example stale_endpoint_until_updateAdapter :
  map url (requestsOf (trace (snd (recognize flaky stamp "data:image/png;base64,AAAA"
                                             noOptions staleWorld))))
    = ["https://api.example.com/v1/chat/completions"] /\
  map url (requestsOf (trace (snd (recognize flaky stamp "data:image/png;base64,AAAA"
                                     noOptions
                                     (snd (updateAdapter "cfg-1" moved staleWorld))))))
    = ["https://new.example.com/v1/chat/completions"].
Proof. split; vm_compute; reflexivity. Qed.

End DispatcherExamples.

(** * Further properties *)

(** ** Strings *)

Section StringFacts.
Import JsString.

Lemma app_String (c : ascii) (s r : string) : String c s +:+ r = String c (s +:+ r).
Proof. reflexivity. Qed.

Lemma app_empty_l (s : string) : "" +:+ s = s.
Proof. reflexivity. Qed.

Lemma app_empty_r (s : string) : s +:+ "" = s.
Proof. induction s as [|c s IH]; [reflexivity|]. by rewrite app_String, IH. Qed.

Lemma app_assoc_string (a b c : string) : (a +:+ b) +:+ c = a +:+ (b +:+ c).
Proof. induction a as [|x a IH]; [reflexivity|]. by rewrite !app_String, IH. Qed.

(** [startsWith]: the string is the prefix followed by something. *)
Lemma prefix_spec (p s : string) :
  String.prefix p s = true <-> exists r, s = p +:+ r.
Proof.
  revert s. induction p as [|a p IH]; intros s; simpl.
  - split; [intros _; by exists s | by destruct s].
  - destruct s as [|b s].
    + split; [discriminate | intros [r Hr]; discriminate].
    + simpl. destruct (ascii_dec a b) as [->|Hne].
      * rewrite IH. split; intros [r Hr]; exists r.
        -- by rewrite app_String, <- Hr.
        -- rewrite app_String in Hr. by injection Hr.
      * split; [discriminate|]. intros [r Hr]. rewrite app_String in Hr.
        injection Hr as Hab _. congruence.
Qed.

(** [includes]: the string has the key somewhere inside. *)
Lemma includes_spec (s k : string) :
  includes s k = true <-> exists a b, s = a +:+ k +:+ b.
Proof.
  induction s as [|c s IH].
  - change (includes "" k) with (String.prefix k "" || false).
    rewrite orb_false_r, prefix_spec. split.
    + intros [r Hr]. by exists "", r.
    + intros ([|x a] & b & H); [by exists b | discriminate].
  - change (includes (String c s) k) with (String.prefix k (String c s) || includes s k).
    rewrite orb_true_iff, prefix_spec, IH. split.
    + intros [[r Hr] | (a & b & H)].
      * by exists "", r.
      * exists (String c a), b. by rewrite app_String, <- H.
    + intros ([|x a] & b & H).
      * left. by exists b.
      * right. rewrite app_String in H. injection H as _ H. by exists a, b.
Qed.

Lemma includes_trans (s k k' : string) :
  includes s k = true -> includes k k' = true -> includes s k' = true.
Proof.
  rewrite !includes_spec. intros (a & b & ->) (a' & b' & ->).
  exists (a +:+ a'), (b' +:+ b). by rewrite !app_assoc_string.
Qed.

Lemma stripTrailingSlashes_slashes (n : nat) :
  stripTrailingSlashes (Terms.slashes n) = "".
Proof. induction n as [|n IH]; [reflexivity|]. simpl. by rewrite IH. Qed.

Lemma stripTrailingSlashes_app_slashes (s : string) (n : nat) :
  stripTrailingSlashes (s +:+ Terms.slashes n) = stripTrailingSlashes s.
Proof.
  induction s as [|c s IH].
  - rewrite app_empty_l. apply stripTrailingSlashes_slashes.
  - rewrite app_String. simpl. by rewrite IH.
Qed.

Lemma stripTrailingSlashes_split (s : string) :
  exists n, s = stripTrailingSlashes s +:+ Terms.slashes n.
Proof.
  induction s as [|c s [n IH]]; [by exists 0%nat|]. simpl.
  destruct (Ascii.eqb_spec c "/") as [->|Hc]; simpl.
  - destruct (String.eqb_spec (stripTrailingSlashes s) "") as [E|E].
    + exists (S n). rewrite E in IH. rewrite app_empty_l in *. simpl. by rewrite <- IH.
    + exists n. by rewrite app_String, <- IH.
  - exists n. by rewrite app_String, <- IH.
Qed.

Lemma stripTrailingSlashes_no_slash (s r : string) :
  stripTrailingSlashes s <> r +:+ "/".
Proof.
  revert r. induction s as [|c s IH]; intros r; simpl.
  - by destruct r.
  - destruct (Ascii.eqb_spec c "/") as [->|Hc]; simpl.
    + destruct (String.eqb_spec (stripTrailingSlashes s) "") as [E|E].
      * by destruct r.
      * destruct r as [|x r]; [rewrite app_empty_l|rewrite app_String]; intros H.
        -- assert (stripTrailingSlashes s = "") by congruence. contradiction.
        -- assert (stripTrailingSlashes s = r +:+ "/") by congruence.
           by apply (IH r).
    + destruct r as [|x r]; [rewrite app_empty_l|rewrite app_String]; intros H.
      * assert (c = "/"%char) by congruence. contradiction.
      * assert (stripTrailingSlashes s = r +:+ "/") by congruence.
        by apply (IH r).
Qed.

(** [replace(/\/+$/, '')] removes the slashes at the end and
    nothing else: the string is the result followed by slashes only,
    the result does not end in a slash, and slashes added at the end of
    a string leave the result as it is. *)
Theorem stripTrailingSlashes_removes_the_trailing_slashes (s : string) :
  (exists n, s = stripTrailingSlashes s +:+ Terms.slashes n) /\
  (forall r, stripTrailingSlashes s <> r +:+ "/") /\
  (forall n, stripTrailingSlashes (s +:+ Terms.slashes n) = stripTrailingSlashes s).
Proof.
  split; [apply stripTrailingSlashes_split|].
  split; [apply stripTrailingSlashes_no_slash|].
  intros n. apply stripTrailingSlashes_app_slashes.
Qed.

End StringFacts.

(** ** The base URL of an adapter *)

Section BaseUrlFacts.
Import Api ApiManager Terms.

Lemma normalize_baseUrl (c : Config) (dBaseUrl dModel : string)
      (dMaxTokens : option Z) (dTemperature : option Q) :
  baseUrl (normalize c dBaseUrl dModel dMaxTokens dTemperature)
  = Some (JsString.stripTrailingSlashes (default dBaseUrl (baseUrl c))).
Proof. unfold normalize, spread. cbn [baseUrl]. by destruct (baseUrl c). Qed.

(** X19.  Slashes at the end of the base URL of a configuration make no
    difference: the adapter built is the same, so are its requests, and
    the base URL an adapter keeps never ends in a slash. *)
Theorem newAdapter_ignores_trailing_slashes (c : Config) (url : string) (n : nat) :
  newAdapter (withBaseUrl c (url +:+ slashes n)) = newAdapter (withBaseUrl c url) /\
  (forall imageData prompt,
     request (newAdapter (withBaseUrl c (url +:+ slashes n))) imageData prompt
     = request (newAdapter (withBaseUrl c url)) imageData prompt) /\
  (forall r, baseUrl (config (newAdapter c)) <> Some (r +:+ "/")).
Proof.
  assert (H : newAdapter (withBaseUrl c (url +:+ slashes n))
              = newAdapter (withBaseUrl c url)).
  { unfold newAdapter, newGeminiAdapter, newClaudeAdapter, newOpenAICompatibleAdapter,
      normalize, withBaseUrl, spread. cbn [type baseUrl fmap option_fmap option_map].
    rewrite stripTrailingSlashes_app_slashes. reflexivity. }
  split; [exact H|]. split; [intros; by rewrite H|].
  intros r. unfold newAdapter, newGeminiAdapter, newClaudeAdapter,
    newOpenAICompatibleAdapter.
  repeat case_match; cbn [config]; rewrite normalize_baseUrl;
    intros E; injection E as E; by apply stripTrailingSlashes_no_slash in E.
Qed.

End BaseUrlFacts.

(** ** The image in the request body *)

Section PayloadFacts.
Import JsString Payload Terms.

Lemma after_spec (p s r : string) : after p s = Some r <-> s = p +:+ r.
Proof.
  revert s. induction p as [|a p IH]; intros s.
  - rewrite app_empty_l. simpl. split; congruence.
  - destruct s as [|b s]; simpl; [split; discriminate|].
    rewrite app_String. destruct (Ascii.eqb_spec a b) as [->|Hne].
    + rewrite IH. split; congruence.
    + split; [discriminate | congruence].
Qed.

Lemma includes_semicolon (c : ascii) (s : string) :
  includes (String c s) ";" = Ascii.eqb c ";" || includes s ";".
Proof.
  change (includes (String c s) ";") with (String.prefix ";" (String c s) || includes s ";").
  f_equal.
  change (String.prefix ";" (String c s))
    with (if ascii_dec ";" c then String.prefix "" s else false).
  destruct (ascii_dec ";" c) as [<-|Hne].
  - by destruct s.
  - symmetry. apply Ascii.eqb_neq. congruence.
Qed.

Lemma untilSemicolon_split (s : string) :
  s = fst (untilSemicolon s) +:+ snd (untilSemicolon s) /\
  includes (fst (untilSemicolon s)) ";" = false.
Proof.
  induction s as [|c s [IH1 IH2]]; [by split|]. cbn [untilSemicolon].
  destruct (Ascii.eqb_spec c ";") as [->|Hc]; [split; reflexivity|].
  destruct (untilSemicolon s) as [m r]. cbn [fst snd] in *. split.
  - by rewrite app_String, <- IH1.
  - rewrite includes_semicolon, IH2. by apply Ascii.eqb_neq in Hc as ->.
Qed.

Lemma untilSemicolon_app (m r : string) :
  includes m ";" = false ->
  untilSemicolon (m +:+ String ";" r) = (m, String ";" r).
Proof.
  induction m as [|c m IH]; intros H.
  - rewrite app_empty_l. reflexivity.
  - rewrite includes_semicolon in H. apply orb_false_iff in H as [Hc Hm].
    rewrite app_String. cbn [untilSemicolon]. rewrite Hc, (IH Hm). reflexivity.
Qed.

Lemma truthy_spec (s : string) : truthy s = true <-> s <> "".
Proof.
  unfold truthy. rewrite negb_true_iff. destruct (String.eqb_spec s ""); split; congruence.
Qed.

(** The pattern of the adapters matches exactly the base64 data URLs
    whose parts it can take, and its groups are those parts. *)
Lemma matchDataUrl_spec (s mediaType data : string) :
  matchDataUrl s = Some (mediaType, data) <->
  s = base64Url mediaType data /\ splittable mediaType data.
Proof.
  unfold matchDataUrl, base64Url, splittable. split.
  - destruct (after "data:" s) as [rest|] eqn:Hrest; [|discriminate].
    apply after_spec in Hrest as ->.
    destruct (untilSemicolon_split rest) as [Hsplit Hsemi].
    destruct (untilSemicolon rest) as [m r]. cbn [fst snd] in *.
    destruct (truthy m) eqn:Hm; cbn [negb]; [|discriminate].
    destruct (after ";base64," r) as [d|] eqn:Hd; [|discriminate].
    apply after_spec in Hd as ->.
    destruct (truthy d) eqn:Hdt; cbn [andb]; [|discriminate].
    destruct (hasLineTerminator d) eqn:Hlt; cbn [negb]; [discriminate|].
    intros [= <- <-]. apply truthy_spec in Hm, Hdt. by rewrite Hsplit.
  - intros [-> (Hm & Hsemi & Hd & Hlt)].
    change (after "data:" ("data:" +:+ mediaType +:+ ";base64," +:+ data))
      with (Some (mediaType +:+ String ";" ("base64," +:+ data))).
    cbv iota beta. rewrite (untilSemicolon_app _ _ Hsemi).
    apply truthy_spec in Hm, Hd. rewrite Hm. cbn [negb].
    change (after ";base64," (String ";" ("base64," +:+ data))) with (Some data).
    cbv iota beta. by rewrite Hd, Hlt.
Qed.

(** X20.  The media type and the data the Claude and the Gemini adapter
    send.  A base64 data URL whose parts the pattern can take is split
    into these parts; every other string, also one that starts with
    [data:], is sent whole as the data, with the media type image/png. *)
Theorem mediaTypeAndData_splits_base64_data_urls (imageData : string) :
  (forall mediaType data,
     splittable mediaType data -> imageData = base64Url mediaType data ->
     mediaTypeAndData imageData = (mediaType, data)) /\
  ((forall mediaType data,
      splittable mediaType data -> imageData <> base64Url mediaType data) ->
   mediaTypeAndData imageData = ("image/png", imageData)).
Proof.
  unfold mediaTypeAndData. split.
  - intros m d Hok ->.
    assert (H : matchDataUrl (base64Url m d) = Some (m, d))
      by (by apply matchDataUrl_spec).
    assert (Hp : startsWith (base64Url m d) "data:" = true)
      by (apply prefix_spec; eexists; reflexivity).
    by rewrite H, Hp.
  - intros Hno. destruct (startsWith imageData "data:"); [|reflexivity].
    destruct (matchDataUrl imageData) as [[m d]|] eqn:H; [|reflexivity].
    apply matchDataUrl_spec in H as [-> Hok]. by destruct (Hno m d Hok).
Qed.

End PayloadFacts.

(** ** The content script: [handleRecognize] *)

Section ContentScriptFacts.
Import CaptchaDetector ContentScript Terms.

Variable contains : Candidate -> bool.
Variable boundingRect : Candidate -> Dom.DOMRect.
Variable captureImage : Candidate -> option (Capture.Settled string).
Variable coordinator : string -> Capture.Settled Reply.

Let tryBlock := tryBlock contains boundingRect captureImage coordinator.
Let handleRecognize := handleRecognize contains boundingRect captureImage coordinator.

Ltac in_list := repeat first [apply list_elem_of_here | apply list_elem_of_further].

Ltac not_in_list H :=
  repeat (apply elem_of_cons in H as [H|H]; [try discriminate|]);
  try (by apply elem_of_nil in H).

(** What the [try] block adds to the events, by the way it ends. *)
Lemma tryBlock_run (captchaId : string) (p : Page) :
  exists evs,
    events (snd (tryBlock captchaId p)) = events p ++ evs /\
    isProcessing (snd (tryBlock captchaId p)) = isProcessing p /\
    (forall m, m ∈ imagesSent evs ->
               (100 <= String.length m)%nat /\
               exists c, captureImage c = Some (Capture.Resolved m)) /\
    match fst (tryBlock captchaId p) with
    | Completed =>
        (exists r, responses evs = [r]) /\
        (forall c, Highlight c ∈ evs -> Unhighlight c ∈ evs)
    | Throws _ =>
        responses evs = [] /\
        (forall c, Highlight c ∈ evs -> currentCaptcha (snd (tryBlock captchaId p)) = Some c)
    | Waits =>
        responses evs = [] /\
        exists c, chosen captchaId p = Some c /\ captureImage c = None
    end.
Proof.
  unfold tryBlock, ContentScript.tryBlock.
  destruct (chosen captchaId p) as [c|].
  2:{ exists []. rewrite app_nil_r. split; [reflexivity|]. split; [reflexivity|].
      split; [intros m Hm; not_in_list Hm|].
      split; [reflexivity | intros c Hc; not_in_list Hc]. }
  destruct (contains c); cbn [negb].
  2:{ exists []. rewrite app_nil_r. split; [reflexivity|]. split; [reflexivity|].
      split; [intros m Hm; not_in_list Hm|].
      split; [reflexivity | intros c' Hc; not_in_list Hc]. }
  destruct (Qeq_bool _ 0 || Qeq_bool _ 0).
  { exists [Highlight c; Wait 100].
    cbn [fst snd events isProcessing currentCaptcha log setCurrentCaptcha].
    rewrite <- app_assoc. split; [reflexivity|]. split; [reflexivity|].
    split; [intros m Hm; not_in_list Hm|]. split; [reflexivity|].
    intros c' Hc'. not_in_list Hc'. congruence. }
  destruct (captureImage c) as [[imageData|message]|] eqn:Hcap.
  - destruct (negb (JsString.truthy imageData) || (String.length imageData <? 100)%nat)
      eqn:Hlen.
    { exists [Highlight c; Wait 100; CaptureImage c].
      cbn [fst snd events isProcessing currentCaptcha log setCurrentCaptcha].
      rewrite <- !app_assoc. split; [reflexivity|]. split; [reflexivity|].
      split; [intros m Hm; not_in_list Hm|]. split; [reflexivity|].
      intros c' Hc'. not_in_list Hc'. congruence. }
    apply orb_false_iff in Hlen as [_ Hlen]. apply Nat.ltb_ge in Hlen.
    assert (Hsent : forall m, m ∈ [imageData] ->
              (100 <= String.length m)%nat /\
              exists c, captureImage c = Some (Capture.Resolved m)).
    { intros m Hm. apply list_elem_of_singleton in Hm as ->. eauto. }
    destruct (coordinator imageData) as [response|message].
    + destruct (success response).
      * exists [Highlight c; Wait 100; CaptureImage c; SendMessage imageData;
                Unhighlight c;
                SendResponse (Recognized (text response) (elapsed response) (id c))].
        cbn [fst snd events isProcessing currentCaptcha log setCurrentCaptcha].
        rewrite <- !app_assoc. split; [reflexivity|]. split; [reflexivity|].
        split; [exact Hsent|]. split; [eauto|].
        intros c' Hc'. not_in_list Hc'. injection Hc' as <-. in_list.
      * exists [Highlight c; Wait 100; CaptureImage c; SendMessage imageData;
                Unhighlight c; SendResponse (Failed (error response))].
        cbn [fst snd events isProcessing currentCaptcha log setCurrentCaptcha].
        rewrite <- !app_assoc. split; [reflexivity|]. split; [reflexivity|].
        split; [exact Hsent|]. split; [eauto|].
        intros c' Hc'. not_in_list Hc'. injection Hc' as <-. in_list.
    + exists [Highlight c; Wait 100; CaptureImage c; SendMessage imageData].
      cbn [fst snd events isProcessing currentCaptcha log setCurrentCaptcha].
      rewrite <- !app_assoc. split; [reflexivity|]. split; [reflexivity|].
      split; [exact Hsent|]. split; [reflexivity|].
      intros c' Hc'. not_in_list Hc'. congruence.
  - exists [Highlight c; Wait 100; CaptureImage c].
    cbn [fst snd events isProcessing currentCaptcha log setCurrentCaptcha].
    rewrite <- !app_assoc. split; [reflexivity|]. split; [reflexivity|].
    split; [intros m Hm; not_in_list Hm|]. split; [reflexivity|].
    intros c' Hc'. not_in_list Hc'. congruence.
  - exists [Highlight c; Wait 100; CaptureImage c].
    cbn [fst snd events isProcessing currentCaptcha log setCurrentCaptcha].
    rewrite <- !app_assoc. split; [reflexivity|]. split; [reflexivity|].
    split; [intros m Hm; not_in_list Hm|]. split; [reflexivity|]. eauto.
Qed.

Lemma responses_app (l1 l2 : list Event) :
  responses (l1 ++ l2) = responses l1 ++ responses l2.
Proof. unfold responses. apply omap_app. Qed.

Lemma imagesSent_app (l1 l2 : list Event) :
  imagesSent (l1 ++ l2) = imagesSent l1 ++ imagesSent l2.
Proof. unfold imagesSent. apply omap_app. Qed.

(** X13.  A recognize request whose image capture settles is answered
    exactly once, whatever goes wrong on the way; the busy flag is
    afterwards what it was before (a request that arrives while another is
    in progress is answered with 正在处理中 and does nothing else), and a
    highlight the request has set is removed again. *)
Theorem handleRecognize_answers_once
    (settles : forall c, captureImage c <> None) (captchaId : string) (p : Page) :
  exists evs r,
    events (handleRecognize captchaId p) = events p ++ evs /\
    responses evs = [r] /\
    isProcessing (handleRecognize captchaId p) = isProcessing p /\
    (isProcessing p = true -> evs = [SendResponse busy]) /\
    (forall c, Highlight c ∈ evs -> Unhighlight c ∈ evs).
Proof.
  unfold handleRecognize, ContentScript.handleRecognize.
  destruct (isProcessing p) eqn:Hbusy.
  { exists [SendResponse busy], busy. cbn [events isProcessing log].
    repeat split; [exact Hbusy|]. intros c Hc. not_in_list Hc. }
  destruct (tryBlock_run captchaId (setIsProcessing true p))
    as (evs & Hev & _ & _ & Hend).
  fold tryBlock. destruct (tryBlock captchaId (setIsProcessing true p)) as [completion p1].
  cbn [fst snd events setIsProcessing] in *.
  destruct completion as [|message|].
  - destruct Hend as [[r Hr] Hhl]. exists evs, r. cbn [events isProcessing setIsProcessing].
    repeat split; [exact Hev | exact Hr | discriminate | exact Hhl].
  - destruct Hend as [Hr Hhl].
    destruct (currentCaptcha p1) as [c|] eqn:Hcur.
    + exists (evs ++ [Unhighlight c; SendResponse (Failed (Some message))]),
        (Failed (Some message)).
      cbn [events isProcessing setIsProcessing log].
      rewrite Hev, <- !app_assoc, responses_app, Hr.
      repeat split; [discriminate|].
      intros c' Hc'. apply elem_of_app in Hc' as [Hc'|Hc']; [|not_in_list Hc'].
      specialize (Hhl _ Hc'). injection Hhl as ->.
      apply elem_of_app. right. in_list.
    + exists (evs ++ [SendResponse (Failed (Some message))]), (Failed (Some message)).
      cbn [events isProcessing setIsProcessing log].
      rewrite Hev, <- !app_assoc, responses_app, Hr.
      repeat split; [discriminate|].
      intros c' Hc'. apply elem_of_app in Hc' as [Hc'|Hc']; [|not_in_list Hc'].
      specialize (Hhl _ Hc'). discriminate.
  - destruct Hend as [_ (c & _ & Hc)]. by destruct (settles c).
Qed.

(** X14.  The only image data the content script sends to the service
    worker are data that the capture resolved with and that are at least
    100 characters long: an empty or a short capture is never sent. *)
Theorem handleRecognize_sends_only_captured_images (captchaId : string) (p : Page) :
  exists evs,
    events (handleRecognize captchaId p) = events p ++ evs /\
    (length (imagesSent evs) <= 1)%nat /\
    forall imageData,
      imageData ∈ imagesSent evs ->
      (100 <= String.length imageData)%nat /\
      exists c, captureImage c = Some (Capture.Resolved imageData).
Proof.
  unfold handleRecognize, ContentScript.handleRecognize.
  destruct (isProcessing p) eqn:Hbusy.
  { exists [SendResponse busy]. cbn [events log].
    split; [reflexivity|]. split; [cbn; lia|]. intros m Hm. not_in_list Hm. }
  destruct (tryBlock_run captchaId (setIsProcessing true p))
    as (evs & Hev & _ & Hsent & Hend).
  assert (Hone : (length (imagesSent evs) <= 1)%nat).
  { revert Hev. unfold tryBlock, ContentScript.tryBlock.
    repeat case_match; cbn [fst snd events setIsProcessing log setCurrentCaptcha];
      rewrite <- ?app_assoc; intros Hev; try apply app_inv_head in Hev;
      try (rewrite <- (app_nil_r (events p)) in Hev at 1; apply app_inv_head in Hev);
      subst evs; cbn; lia. }
  fold tryBlock. destruct (tryBlock captchaId (setIsProcessing true p)) as [completion p1].
  cbn [fst snd events setIsProcessing] in *.
  destruct completion as [|message|].
  - exists evs. cbn [events setIsProcessing]. auto.
  - exists (evs ++ match currentCaptcha p1 with
                   | Some c => [Unhighlight c]
                   | None => []
                   end ++ [SendResponse (Failed (Some message))]).
    destruct (currentCaptcha p1) as [c|];
      cbn [events isProcessing setIsProcessing log];
      rewrite Hev, <- ?app_assoc, !imagesSent_app; cbn [imagesSent omap app];
      rewrite ?app_nil_r; auto.
  - exists evs. auto.
Qed.

(** X15.  A capture that never settles leaves the request without an
    answer and the content script busy for good: every later recognize
    request is answered with 正在处理中, and nothing else happens. *)
Theorem handleRecognize_pending_capture_blocks
    (captchaId : string) (p : Page) (c : Candidate) :
  isProcessing p = false ->
  chosen captchaId p = Some c ->
  contains c = true ->
  Qeq_bool (Dom.width (boundingRect c)) 0 || Qeq_bool (Dom.height (boundingRect c)) 0
    = false ->
  captureImage c = None ->
  let p' := handleRecognize captchaId p in
  isProcessing p' = true /\
  responses (events p') = responses (events p) /\
  forall laterId,
    events (handleRecognize laterId p') = events p' ++ [SendResponse busy] /\
    isProcessing (handleRecognize laterId p') = true.
Proof.
  intros Hidle Hchosen Hcontains Hrect Hcap p'.
  assert (Hp' : p' = log (CaptureImage c) (log (Wait 100) (log (Highlight c)
                  (setCurrentCaptcha c (setIsProcessing true p))))).
  { unfold p', handleRecognize, ContentScript.handleRecognize, ContentScript.tryBlock.
    rewrite Hidle.
    change (chosen captchaId (setIsProcessing true p)) with (chosen captchaId p).
    rewrite Hchosen, Hcontains. cbn [negb]. rewrite Hrect, Hcap. reflexivity. }
  rewrite Hp'. split; [reflexivity|]. split.
  - cbn [events log setCurrentCaptcha setIsProcessing].
    rewrite !responses_app. cbn. by rewrite !app_nil_r.
  - intros laterId. split; reflexivity.
Qed.

End ContentScriptFacts.

(** ** Testing a connection *)

Section ConnectionTestFacts.
Import Api ApiManager ConnectionTest Vocabulary.

Variable network : nat -> Request -> Reply.

Lemma testConnection_returns (config : Config) (w : World) :
  exists outcome w', testConnection network config w = (Returned outcome, w').
Proof.
  unfold testConnection, tryCatch, dateNow, adapterTestConnection, executeWithTimeout,
    elapse, throw, messageOf.
  unfold mbind, M_bind, mret, M_ret. cbn [latency answer].
  destruct (_ <=? timerDelay 30000)%Z; [destruct (answer _)|]; eauto.
Qed.

(** X23.  [testConnection] never throws and tests the configuration it
    is given: it makes one request, built from a new adapter for that
    configuration and not from the adapter cache, leaves the cache and
    the store as they are, and returns after at most thirty seconds with
    the time spent; the outcome is a success exactly when the provider
    answers without an error no later than the timer of thirty seconds
    fires (an answer due at exactly 30000 ms still wins: its request left
    before the timer was set). *)
Theorem testConnection_tests_the_configuration_given (config : Config) (w : World) :
  let req := testRequest (newAdapter config) in
  let reply := network (calls w) req in
  exists outcome w',
    testConnection network config w = (Returned outcome, w') /\
    store w' = store w /\ adapters w' = adapters w /\
    trace w' = trace w ++ [Fetch (now w) req] /\
    elapsed outcome = (now w' - now w)%Z /\
    elapsed outcome = spent reply 30000 /\ (elapsed outcome <= 30000)%Z /\
    (success outcome = true <->
     (latency reply <= 30000)%Z /\ exists t, answer reply = Text t) /\
    match attemptError reply 30000 with
    | Some m =>
        success outcome = false /\ error outcome = Some m /\ message outcome = None
    | None =>
        success outcome = true /\ error outcome = None /\
        message outcome = Some "连接成功"
    end.
Proof.
  intros req reply.
  unfold testConnection, tryCatch, dateNow, adapterTestConnection, executeWithTimeout,
    attemptError, spent, elapse, throw, messageOf.
  unfold mbind, M_bind, mret, M_ret. fold req. fold reply.
  cbn [latency answer].
  change (timerDelay 30000) with 30000%Z.
  destruct (Z.leb_spec (latency reply) 30000) as [Hle|Hgt].
  - destruct (answer reply) as [t|m] eqn:Hanswer; do 2 eexists;
      (split; [reflexivity|]); cbn [store adapters trace now elapsed success error message];
      (do 3 (split; [reflexivity|])); (split; [lia|]); (split; [lia|]);
      (split; [lia|]); split; try (by repeat split).
    + split; [eauto | reflexivity].
    + split; [discriminate | intros [_ [t' Ht]]; discriminate].
  - do 2 eexists. split; [reflexivity|].
    cbn [store adapters trace now elapsed success error message].
    do 3 (split; [reflexivity|]). split; [lia|]. split; [lia|].
    split; [lia|]. split; [|by repeat split].
    split; [discriminate | lia].
Qed.

End ConnectionTestFacts.

(** ** The service worker *)

Section ServiceWorkerFacts.
Import Api ApiManager ServiceWorker.

Variable network : nat -> Request -> Reply.
Variable generateId : Z -> string.

(** What [recognize] throws, when it throws, is an error object. *)
Lemma recognize_throws_an_error (imageData : string) (options : Options)
      (w w' : World) (e : Thrown) :
  recognize network generateId imageData options w = (Threw e, w') ->
  exists m, e = Error m.
Proof.
  unfold recognize, tryCatch, dateNow. unfold mbind, M_bind.
  destruct (dispatch network generateId imageData options (now w) w) as [[o|e0] w1];
    [discriminate|].
  destruct e0 as [m|].
  - rewrite recordFailure_error. discriminate.
  - rewrite recordFailure_null. intros [= <- _]. eauto.
Qed.

(** X24.  The service worker answers every message exactly once and
    [handleMessage] never throws.  A [recognize] call that throws (the
    retry count in force is zero) is answered with a failure carrying the
    message of the error; image data that are missing or empty are
    answered with 缺少图像数据 without a call of [recognize]: nothing is
    requested and nothing is recorded. *)
Theorem handleMessage_answers_once (message : Message) (s : Worker) :
  exists r s',
    handleMessage network generateId message s = (Returned tt, s') /\
    sent s' = sent s ++ [r] /\
    (forall imageData m w',
       message = recognizeCaptcha (Some imageData) ->
       JsString.truthy imageData = true ->
       recognize network generateId imageData (mkOptions None None) (world s)
       = (Threw (Error m), w') ->
       r = Failed m) /\
    (forall imageData,
       message = recognizeCaptcha imageData -> missing imageData = true ->
       r = Failed "缺少图像数据" /\ world s' = world s).
Proof.
  unfold handleMessage, tryCatchW.
  destruct message as [imageData|config| | | |limit|].
  - unfold handleRecognizeCaptcha.
    destruct (missing imageData) eqn:Hmiss.
    + do 2 eexists. split; [reflexivity|]. split; [reflexivity|]. split.
      * intros i m w' [= ->] Ht. simpl in Hmiss. by rewrite Ht in Hmiss.
      * auto.
    + unfold mbind, W_bind, await, sendResponse.
      destruct (recognize network generateId (default "" imageData) (mkOptions None None)
                          (world s)) as [[outcome|e] w1] eqn:Hrun.
      * do 2 eexists. split; [reflexivity|]. split; [reflexivity|]. split.
        -- intros i m w' [= ->] _ Hthrew. simpl in Hrun. congruence.
        -- intros i [= <-] Hm. congruence.
      * destruct (recognize_throws_an_error _ _ _ _ _ Hrun) as [m ->].
        do 2 eexists. split; [reflexivity|]. split; [reflexivity|]. split.
        -- intros i m' w' [= ->] _ Hthrew. simpl in Hrun. congruence.
        -- intros i [= <-] Hm. congruence.
  - unfold handleTestConnection. destruct config as [config|].
    + destruct (testConnection_returns network config (world s))
        as (outcome & w' & Hrun).
      unfold mbind, W_bind, await, sendResponse. rewrite Hrun.
      do 2 eexists. split; [reflexivity|]. split; [reflexivity|].
      split; intros; discriminate.
    + do 2 eexists. split; [reflexivity|]. split; [reflexivity|].
      split; intros; discriminate.
  - do 2 eexists. split; [reflexivity|]. split; [reflexivity|].
    split; intros; discriminate.
  - do 2 eexists. split; [reflexivity|]. split; [reflexivity|].
    split; intros; discriminate.
  - do 2 eexists. split; [reflexivity|]. split; [reflexivity|].
    split; intros; discriminate.
  - do 2 eexists. split; [reflexivity|]. split; [reflexivity|].
    split; intros; discriminate.
  - do 2 eexists. split; [reflexivity|]. split; [reflexivity|].
    split; intros; discriminate.
Qed.

(** X25.  The answer to [getActiveConfig] never carries the API key: the
    configuration answered is the active one with its key replaced by
    six stars, or by the empty string when there is no key; the world is
    left as it is. *)
Theorem handleGetActiveConfig_hides_the_key (s : Worker) :
  let answered := mask <$> Storage.getActiveConfig (store (world s)) in
  handleMessage network generateId getActiveConfig s
  = (Returned tt, mkWorker (world s) (sent s ++ [ActiveConfig answered])) /\
  forall config,
    answered = Some config ->
    (apiKey config = Some "******" \/ apiKey config = Some "") /\
    exists active,
      Storage.getActiveConfig (store (world s)) = Some active /\
      (apiKey config = Some "******" <-> apiKey active <> Some "") /\
      id config = id active /\ name config = name active /\ type config = type active /\
      baseUrl config = baseUrl active /\ model config = model active.
Proof.
  intros answered. split; [reflexivity|].
  subst answered. intros config Hc.
  destruct (Storage.getActiveConfig (store (world s))) as [active|] eqn:Hactive;
    [|discriminate].
  injection Hc as <-.
  assert (Hkey : exists k, apiKey active = Some k).
  { unfold Storage.getActiveConfig in Hactive.
    destruct (Storage.getActiveConfigId _); [|discriminate].
    apply find_some in Hactive as [Hin _].
    unfold Storage.getDecryptedApiConfigs in Hin.
    apply list_elem_of_In, list_elem_of_fmap in Hin as (c & -> & _).
    eexists. reflexivity. }
  destruct Hkey as [k Hk].
  unfold mask. cbn [apiKey id name type baseUrl model]. rewrite Hk.
  unfold truthyKey, JsString.truthy.
  destruct (String.eqb_spec k "") as [->|Hne]; cbn [negb].
  - split; [by right|]. exists active. repeat split; try reflexivity; congruence.
  - split; [by left|]. exists active. repeat split; try reflexivity; congruence.
Qed.

End ServiceWorkerFacts.

(** ** The configurations in the store *)

Section ConfigStoreFacts.
Import Api Storage ConfigStore Terms.

Lemma find_filter {A} (p q : A -> bool) (l : list A) :
  (forall x, p x = true -> q x = true) ->
  List.find p (List.filter q l) = List.find p l.
Proof.
  intros Hpq. induction l as [|x l IH]; [reflexivity|]. simpl.
  destruct (q x) eqn:Hq; simpl.
  - by rewrite IH.
  - rewrite IH. destruct (p x) eqn:Hp; [|reflexivity].
    rewrite (Hpq x Hp) in Hq. discriminate.
Qed.

Lemma find_app_Some {A} (p : A -> bool) (l l' : list A) (x : A) :
  List.find p l = Some x -> List.find p (l ++ l') = Some x.
Proof.
  induction l as [|y l IH]; simpl; [discriminate|].
  destruct (p y); [done | exact IH].
Qed.

Lemma find_fmap {A B} (f : A -> B) (p : B -> bool) (l : list A) :
  List.find p (f <$> l) = f <$> List.find (fun x => p (f x)) l.
Proof.
  induction l as [|x l IH]; [reflexivity|]. simpl.
  destruct (p (f x)); [reflexivity | exact IH].
Qed.

Lemma filter_elem {A} (q : A -> bool) (l : list A) (x : A) :
  x ∈ List.filter q l <-> x ∈ l /\ q x = true.
Proof. rewrite !list_elem_of_In. apply filter_In. Qed.

Lemma getActiveConfig_find (st : Store) :
  getActiveConfig st =
  match getActiveConfigId st with
  | Some activeId =>
      decrypted <$> List.find (fun c => String.eqb (Api.id c) activeId) (api_configs st)
  | None => None
  end.
Proof.
  unfold getActiveConfig, getDecryptedApiConfigs.
  destruct (getActiveConfigId st); [|reflexivity]. apply find_fmap.
Qed.

(** The store after [deleteApiConfig]: the other configurations, and the
    active identifier set to that of the first of them, left as it was
    (it was not the one deleted), or removed. *)
Lemma deleteApiConfig_cases (id : string) (st : Store) :
  let kept := List.filter (fun c => negb (String.eqb (Api.id c) id)) (api_configs st) in
  api_configs (deleteApiConfig id st) = kept /\
  ((exists first rest, kept = first :: rest /\
      deleteApiConfig id st = setActiveConfigId (Api.id first) (setApiConfigs kept st)) \/
   (getActiveConfigId st <> Some id /\ deleteApiConfig id st = setApiConfigs kept st) \/
   (kept = [] /\ deleteApiConfig id st = removeActiveConfigId (setApiConfigs kept st))).
Proof.
  intros kept. unfold deleteApiConfig. fold kept.
  change (getActiveConfigId (setApiConfigs kept st)) with (getActiveConfigId st).
  destruct (getActiveConfigId st) as [a|].
  - destruct (String.eqb_spec a id) as [E|E]; cbn [andb].
    + destruct kept as [|first rest] eqn:E'; cbn [length Nat.ltb Nat.leb Nat.eqb].
      * split; [reflexivity|]. right. right. by split.
      * split; [reflexivity|]. left. by exists first, rest.
    + destruct kept as [|first rest] eqn:E'; cbn [length Nat.eqb].
      * split; [reflexivity|]. right. right. by split.
      * split; [reflexivity|]. right. left. split; [congruence | reflexivity].
  - cbn [andb]. destruct kept as [|first rest] eqn:E'; cbn [length Nat.eqb].
    + split; [reflexivity|]. right. right. by split.
    + split; [reflexivity|]. right. left. by split.
Qed.

(** X28.  After [deleteApiConfig(id)] no configuration has the
    identifier, the other configurations are kept in their order, and the
    active identifier is never the one deleted; a configuration that was
    active and was not the one deleted stays active, and when no
    configuration is left there is no active identifier. *)
Theorem deleteApiConfig_leaves_no_reference (id : string) (st : Store) :
  let st' := deleteApiConfig id st in
  api_configs st' = List.filter (fun c => negb (String.eqb (Api.id c) id)) (api_configs st) /\
  (forall c, c ∈ api_configs st' -> Api.id c <> id) /\
  getActiveConfigId st' <> Some id /\
  (forall active, getActiveConfig st = Some active -> Api.id active <> id ->
                  getActiveConfig st' = Some active) /\
  (api_configs st' = [] -> getActiveConfigId st' = None).
Proof.
  intros st'.
  assert (Hconfigs : api_configs st' =
            List.filter (fun c => negb (String.eqb (Api.id c) id)) (api_configs st)).
  { unfold st', deleteApiConfig. repeat case_match; reflexivity. }
  split; [exact Hconfigs|]. split.
  { intros c Hc. rewrite Hconfigs in Hc. apply filter_elem in Hc as [_ Hc].
    apply negb_true_iff, String.eqb_neq in Hc. exact Hc. }
  assert (Hfirst : forall first rest,
            List.filter (fun c => negb (String.eqb (Api.id c) id)) (api_configs st)
            = first :: rest -> Api.id first <> id).
  { intros first rest E.
    assert (Hin : first ∈ List.filter (fun c => negb (String.eqb (Api.id c) id))
                                      (api_configs st)) by (rewrite E; apply list_elem_of_here).
    apply filter_elem in Hin as [_ Hin]. by apply negb_true_iff, String.eqb_neq in Hin. }
  split; [|split].
  - unfold st', deleteApiConfig, getActiveConfigId, removeActiveConfigId,
      setActiveConfigId, setApiConfigs. cbn [active_config_id api_configs].
    destruct (JsString.truthy (active_config_id st)) eqn:Ht.
    + destruct (String.eqb_spec (active_config_id st) id) as [E|E]; cbn [andb].
      * destruct (List.filter _ (api_configs st)) as [|first rest] eqn:Hf;
          cbn [length Nat.ltb Nat.leb Nat.eqb active_config_id].
        -- discriminate.
        -- destruct (JsString.truthy (Api.id first)); [|discriminate].
           intros [= H]. by apply (Hfirst first rest).
      * destruct (length (List.filter _ (api_configs st)) =? 0)%nat;
          cbn [active_config_id]; [discriminate|].
        rewrite Ht. congruence.
    + cbn [andb]. destruct (length (List.filter _ (api_configs st)) =? 0)%nat;
        cbn [active_config_id]; [discriminate|]. by rewrite Ht.
  - intros active Hactive Hid.
    rewrite getActiveConfig_find in Hactive |- *.
    destruct (getActiveConfigId st) as [a|] eqn:Ha; [|discriminate].
    destruct (List.find _ (api_configs st)) as [c|] eqn:Hfind; [|discriminate].
    injection Hactive as <-. cbn [decrypted Api.id] in Hid.
    destruct (find_some _ _ Hfind) as [Hin Heq]. apply String.eqb_eq in Heq.
    assert (Hne : a <> id) by congruence.
    assert (Hkeep : c ∈ List.filter (fun c => negb (String.eqb (Api.id c) id))
                                    (api_configs st)).
    { apply filter_elem. split; [by apply list_elem_of_In|].
      by apply negb_true_iff, String.eqb_neq. }
    assert (Hst' : st' = setApiConfigs
                     (List.filter (fun c => negb (String.eqb (Api.id c) id))
                                  (api_configs st)) st).
    { unfold st', deleteApiConfig.
      change (getActiveConfigId (setApiConfigs _ st)) with (getActiveConfigId st).
      rewrite Ha. apply String.eqb_neq in Hne. rewrite Hne. cbn [andb].
      destruct (List.filter _ (api_configs st)) as [|first rest]; [|reflexivity].
      by apply elem_of_nil in Hkeep. }
    rewrite Hst'.
    change (getActiveConfigId (setApiConfigs _ st)) with (getActiveConfigId st).
    rewrite Ha. cbn [api_configs setApiConfigs].
    rewrite find_filter, Hfind; [reflexivity|].
    intros x Hx. apply String.eqb_eq in Hx. apply negb_true_iff, String.eqb_neq. congruence.
  - rewrite Hconfigs. intros Hnil.
    unfold st', deleteApiConfig. rewrite Hnil. cbn [length Nat.ltb Nat.leb Nat.eqb].
    rewrite andb_false_r. reflexivity.
Qed.

(** A store in which every configuration has an identifier and, when
    there is a configuration, the active identifier is that of one of
    them. *)
Lemma findIndex_Some {A} (p : A -> bool) (l : list A) (i : nat) :
  findIndex p l = Some i ->
  exists x, l !! i = Some x /\ p x = true /\
            forall j y, (j < i)%nat -> l !! j = Some y -> p y = false.
Proof.
  revert i. induction l as [|x l IH]; intros i; simpl; [discriminate|].
  destruct (p x) eqn:Hp.
  - intros [= <-]. exists x. repeat split; [exact Hp|]. intros j y Hj. lia.
  - destruct (findIndex p l) as [k|]; [|discriminate]. intros [= <-].
    destruct (IH k eq_refl) as (y & Hy & Hpy & Hbefore).
    exists y. repeat split; [exact Hy | exact Hpy |].
    intros [|j] z Hj Hz; simpl in Hz; [by injection Hz as <-|].
    apply (Hbefore j z); [lia | exact Hz].
Qed.

Lemma findIndex_None {A} (p : A -> bool) (l : list A) :
  findIndex p l = None -> forall x, x ∈ l -> p x = false.
Proof.
  induction l as [|x l IH]; simpl; intros H y Hy; [by apply elem_of_nil in Hy|].
  destruct (p x) eqn:Hp; [discriminate|].
  destruct (findIndex p l); [discriminate|].
  apply elem_of_cons in Hy as [->|Hy]; [exact Hp | by apply IH].
Qed.

(** X29.  [updateApiConfig(id, updates)] throws 配置不存在 exactly when no
    configuration has the identifier, and then changes nothing;
    otherwise it replaces the first configuration with the identifier by
    its merge with the update, and leaves every other configuration, the
    number of configurations and the active identifier as they are. *)
Theorem updateApiConfig_changes_one_configuration
    (id : string) (updates : Updates) (st : Store) :
  match updateApiConfig id updates st with
  | inl message =>
      message = "配置不存在" /\ forall c, c ∈ api_configs st -> Api.id c <> id
  | inr st' =>
      exists index c,
        api_configs st !! index = Some c /\ Api.id c = id /\
        (forall j c', (j < index)%nat -> api_configs st !! j = Some c' -> Api.id c' <> id) /\
        api_configs st' !! index = Some (merge c updates) /\
        (forall j, j <> index -> api_configs st' !! j = api_configs st !! j) /\
        length (api_configs st') = length (api_configs st) /\
        active_config_id st' = active_config_id st
  end.
Proof.
  unfold updateApiConfig.
  destruct (findIndex _ (api_configs st)) as [index|] eqn:Hfind.
  - destruct (findIndex_Some _ _ _ Hfind) as (c & Hc & Hid & Hbefore).
    exists index, c. cbn [api_configs active_config_id setApiConfigs].
    split; [exact Hc|]. split; [by apply String.eqb_eq|]. split.
    { intros j c' Hj Hc'. apply String.eqb_neq. by apply (Hbefore j c'). }
    split; [by rewrite list_lookup_alter_eq, Hc|].
    split; [intros j Hj; by rewrite list_lookup_alter_ne|].
    split; [apply length_alter | reflexivity].
  - split; [reflexivity|]. intros c Hc. apply String.eqb_neq.
    by apply (findIndex_None _ _ Hfind).
Qed.

Lemma deleteApiConfig_wellFormed (id : string) (st : Store) :
  wellFormed st -> wellFormed (deleteApiConfig id st).
Proof.
  intros [Hids Hactive].
  destruct (deleteApiConfig_cases id st) as [Hconfigs Hst'].
  split.
  { intros c Hc. rewrite Hconfigs in Hc. apply filter_elem in Hc as [Hc _].
    by apply Hids. }
  rewrite Hconfigs.
  destruct (List.filter _ (api_configs st)) as [|first rest] eqn:Hf; [done|].
  intros _. destruct Hactive as (c & Hc & Hid).
  { intros Hnil. rewrite Hnil in Hf. discriminate. }
  destruct Hst' as [(f & r & [= <- <-] & Hst') | [[Hne Hst'] | [Hnil _]]];
    [| |discriminate]; rewrite Hst'.
  - exists first. split; [apply list_elem_of_here | reflexivity].
  - exists c. split; [|exact Hid]. rewrite <- Hf. apply filter_elem.
    split; [exact Hc|]. apply negb_true_iff, String.eqb_neq.
    intros E. apply Hne. unfold getActiveConfigId.
    assert (Ht : JsString.truthy (active_config_id st) = true).
    { unfold JsString.truthy. rewrite Hid.
      apply negb_true_iff, String.eqb_neq. by apply Hids. }
    rewrite Ht. congruence.
Qed.

Lemma wellFormed_active (st : Store) :
  wellFormed st -> (getActiveConfig st = None <-> api_configs st = []).
Proof.
  intros [Hids Hactive]. rewrite getActiveConfig_find. split.
  - intros Hnone. destruct (api_configs st) as [|c0 l] eqn:E; [reflexivity|].
    destruct Hactive as (c & Hc & Hid); [discriminate|].
    unfold getActiveConfigId in Hnone. rewrite Hid in Hnone.
    assert (Ht : JsString.truthy (Api.id c) = true).
    { unfold JsString.truthy. by apply negb_true_iff, String.eqb_neq, Hids. }
    rewrite Ht in Hnone.
    destruct (List.find _ (c0 :: l)) eqn:Hfind; [discriminate|].
    apply list_elem_of_In in Hc. apply (find_none _ _ Hfind c) in Hc.
    by rewrite String.eqb_refl in Hc.
  - intros ->. by destruct (getActiveConfigId st).
Qed.

Lemma wellFormed_apply (op : Operation) (st : Store) :
  wellFormed st -> issuable op st = true -> wellFormed (apply op st).
Proof.
  intros [Hids Hactive] Hop. destruct op as [config newId|id updates|id|id];
    cbn [apply issuable] in *.
  - (* Add *)
    apply negb_true_iff, String.eqb_neq in Hop.
    unfold addApiConfig. cbn [snd]. split.
    + intros c Hc.
      assert (Hc' : c ∈ api_configs st ++
                [{| Api.id := newId; name := name config; type := type config;
                    baseUrl := baseUrl config; model := model config;
                    apiKey := storedKey (apiKey config);
                    maxTokens := maxTokens config; temperature := temperature config;
                    customHeaders := customHeaders config;
                    customPrompt := customPrompt config |}])
        by (revert Hc; by case_match).
      apply elem_of_app in Hc' as [Hc'|Hc']; [by apply Hids|].
      apply list_elem_of_singleton in Hc' as ->. exact Hop.
    + intros _. rewrite length_app. cbn [length Api.id].
      destruct (api_configs st) as [|c0 l] eqn:E.
      * cbn [length Nat.add Nat.eqb app active_config_id api_configs
             setActiveConfigId setApiConfigs].
        eexists. split; [apply list_elem_of_here | reflexivity].
      * destruct Hactive as (c & Hc & Hid); [discriminate|].
        replace (length (c0 :: l) + 1 =? 1)%nat with false
          by (symmetry; apply Nat.eqb_neq; simpl; lia).
        cbn [active_config_id api_configs setApiConfigs].
        exists c. split; [apply elem_of_app; by left | exact Hid].
  - (* Update *)
    apply bool_decide_eq_true in Hop.
    destruct (updateApiConfig id updates st) as [m|st'] eqn:E; [by split|].
    unfold updateApiConfig in E.
    destruct (findIndex _ (api_configs st)) as [index|]; [|discriminate].
    injection E as <-. unfold wellFormed.
    cbn [api_configs active_config_id setApiConfigs].
    assert (Hmerge : forall c, Api.id (merge c updates) = Api.id c)
      by (intros c; unfold merge; cbn [Api.id]; by rewrite Hop).
    assert (Hin : forall c, c ∈ alter (fun c => merge c updates) index (api_configs st) ->
                            exists c0, c0 ∈ api_configs st /\ Api.id c = Api.id c0).
    { intros c Hc. apply list_elem_of_lookup in Hc as [j Hj].
      destruct (decide (j = index)) as [->|Hne].
      - rewrite list_lookup_alter_eq in Hj.
        destruct (api_configs st !! index) as [c0|] eqn:E0; [|discriminate].
        injection Hj as <-. exists c0. split; [|apply Hmerge].
        by apply list_elem_of_lookup_2 in E0.
      - rewrite list_lookup_alter_ne in Hj by congruence.
        exists c. split; [|reflexivity]. by apply list_elem_of_lookup_2 in Hj. }
    split.
    + intros c Hc. destruct (Hin c Hc) as (c0 & Hc0 & ->). by apply Hids.
    + intros Hne. destruct Hactive as (c & Hc & Hid).
      { intros Hnil. rewrite Hnil in Hne. by destruct index. }
      apply list_elem_of_lookup in Hc as [j Hj].
      destruct (decide (j = index)) as [->|Hneq].
      * exists (merge c updates). split; [|by rewrite Hmerge].
        apply (list_elem_of_lookup_2 _ index). by rewrite list_lookup_alter_eq, Hj.
      * exists c. split; [|exact Hid].
        apply (list_elem_of_lookup_2 _ j). by rewrite list_lookup_alter_ne.
  - (* Delete *)
    apply deleteApiConfig_wellFormed. by split.
  - (* Activate *)
    split; [exact Hids|]. intros _. cbn [active_config_id api_configs setActiveConfigId].
    apply existsb_exists in Hop as (c & Hc & Heq). apply String.eqb_eq in Heq.
    exists c. split; [by apply list_elem_of_In | congruence].
Qed.

Lemma wellFormed_run (ops : list Operation) :
  forall st0 st, wellFormed st0 -> run ops st0 = Some st -> wellFormed st.
Proof.
  induction ops as [|op ops IH]; intros st0 st Hwf; simpl.
  - by intros [= <-].
  - destruct (issuable op st0) eqn:Hop; [|discriminate].
    apply IH. by apply wellFormed_apply.
Qed.

(** X30.  Whatever configurations the options page adds, edits,
    deletes and activates, starting from nothing: as long as a
    configuration exists, an active configuration is found (so that
    [recognize] does not fail with 请先配置API), and every configuration
    has an identifier. *)
Theorem configured_store_has_an_active_configuration
    (ops : list Operation) (st : Store) :
  run ops empty = Some st ->
  (getActiveConfig st = None <-> api_configs st = []) /\
  (forall c, c ∈ api_configs st -> Api.id c <> "").
Proof.
  intros Hrun.
  assert (Hwf : wellFormed st).
  { apply (wellFormed_run ops empty st); [|exact Hrun].
    split; [intros c Hc; by apply elem_of_nil in Hc | done]. }
  split; [by apply wellFormed_active | apply Hwf].
Qed.

(** X27.  [addApiConfig] gives the new configuration the generated
    identifier, whatever identifier it came with, and returns it.  The
    first configuration of a store becomes the active one, with its key
    as given; a configuration added to a store that has an active one
    leaves that one active. *)
Theorem addApiConfig_first_becomes_active (config : Config) (newId : string) (st : Store) :
  let st' := snd (addApiConfig config newId st) in
  fst (addApiConfig config newId st) = newId /\
  (api_configs st = [] -> JsString.truthy newId = true ->
   exists active,
     getActiveConfig st' = Some active /\ Api.id active = newId /\
     name active = name config /\ type active = type config /\
     baseUrl active = baseUrl config /\ model active = model config /\
     apiKey active = Some (default "" (truthyKey (apiKey config)))) /\
  (forall active, getActiveConfig st = Some active -> getActiveConfig st' = Some active).
Proof.
  intros st'. split; [reflexivity|]. split.
  - intros Hnil Hid. unfold st', addApiConfig. rewrite Hnil.
    cbn [snd app length Nat.eqb Api.id].
    rewrite getActiveConfig_find. unfold getActiveConfigId.
    cbn [active_config_id api_configs setActiveConfigId setApiConfigs].
    rewrite Hid. cbn [List.find Api.id]. rewrite String.eqb_refl.
    eexists. split; [reflexivity|]. cbn [decrypted Api.id name type baseUrl model apiKey].
    repeat split. unfold storedKey, truthyKey.
    destruct (apiKey config) as [k|]; [|reflexivity].
    destruct (JsString.truthy k) eqn:Hk; cbn [default from_option id Datatypes.id];
      [by rewrite Hk | reflexivity].
  - intros active Hactive. rewrite getActiveConfig_find in Hactive |- *.
    destruct (getActiveConfigId st) as [a|] eqn:Ha; [|discriminate].
    destruct (List.find _ (api_configs st)) as [c|] eqn:Hfind; [|discriminate].
    assert (Hlen : (length (api_configs st ++ [c]) =? 1)%nat = false).
    { apply Nat.eqb_neq. rewrite length_app. cbn [length].
      destruct (api_configs st); [discriminate | simpl; lia]. }
    unfold st', addApiConfig. cbn [snd].
    rewrite length_app in Hlen |- *. cbn [length] in Hlen |- *. rewrite Hlen.
    change (getActiveConfigId (setApiConfigs _ st)) with (getActiveConfigId st).
    rewrite Ha. cbn [api_configs setApiConfigs].
    rewrite (find_app_Some _ _ _ _ Hfind). exact Hactive.
Qed.

End ConfigStoreFacts.

(** ** The history *)

Section HistoryFacts.
Import Storage.

(** X26.  The history [addHistory] leaves has at most 500 records, all
    of them younger than the retention period; they are records of the
    history before, or the new record, in the order they had.  With a
    retention of zero days or less nothing of the present or the past is
    kept, the new record included. *)
Theorem addHistory_keeps_recent_records
    (configName result : string) (ok : bool) (elapsed : Z) (newId : string) (now : Z)
    (st : Store) :
  let newRecord := mkHistoryRecord configName result ok elapsed newId now in
  let history :=
    recognition_history (addHistory configName result ok elapsed newId now st) in
  let retentionMs := (historyRetention (getSettings st) * 24 * 60 * 60 * 1000)%Z in
  (length history <= 500)%nat /\
  (forall r, r ∈ history -> (now - retentionMs < timestamp r)%Z) /\
  sublist history (newRecord :: recognition_history st) /\
  ((historyRetention (getSettings st) <= 0)%Z ->
   (newRecord ∉ history) /\ forall r, r ∈ history -> (now < timestamp r)%Z).
Proof.
  intros newRecord history retentionMs.
  assert (Hyoung : forall r, r ∈ history -> (now - retentionMs < timestamp r)%Z).
  { intros r Hr. unfold history, addHistory in Hr. cbn [recognition_history] in Hr.
    apply elem_of_take in Hr as (i & Hr & _).
    apply list_elem_of_lookup_2, filter_elem in Hr as [_ Hr].
    fold retentionMs in Hr. lia. }
  split; [|split; [exact Hyoung|split]].
  - unfold history, addHistory. cbn [recognition_history]. rewrite length_take. lia.
  - unfold history, addHistory. cbn [recognition_history].
    etrans; [apply sublist_take|]. etrans; [apply List_filter_sublist|].
    constructor. unfold getHistory. apply sublist_take.
  - intros Hret.
    assert (Hfuture : forall r, r ∈ history -> (now < timestamp r)%Z).
    { intros r Hr. specialize (Hyoung r Hr). unfold retentionMs in Hyoung. lia. }
    split; [|exact Hfuture].
    intros Hin. specialize (Hfuture _ Hin). cbn [timestamp newRecord] in Hfuture. lia.
Qed.

End HistoryFacts.

(** ** The dispatcher: how much a call of [recognize] can do *)

Section DispatcherBounds.
Import Api ApiManager Vocabulary Terms.

Variable network : nat -> Request -> Reply.
Variable generateId : Z -> string.

Lemma requestsOf_app (l1 l2 : list Event) :
  requestsOf (l1 ++ l2) = requestsOf l1 ++ requestsOf l2.
Proof. unfold requestsOf. apply omap_app. Qed.

(** A timer never waits longer than asked, and never a negative time. *)
Lemma timerDelay_nonneg (ms : Z) : (0 <= timerDelay ms)%Z.
Proof. unfold timerDelay. lia. Qed.

Lemma timerDelay_le (ms : Z) : (0 <= ms)%Z -> (timerDelay ms <= ms)%Z.
Proof.
  intros Hms. unfold timerDelay, toInt32.
  pose proof (Z.mod_le (ms + 2 ^ 31) (2 ^ 32) ltac:(lia) ltac:(lia)). lia.
Qed.

Section Loop.
Variables (config : Config) (adapter : Adapter) (imageData prompt : string)
          (timeout retryCount startTime : Z).

(** A timeout beyond the 32-bit range: 3000000000 ms is a delay of 0, and
    -3000000000 ms one of 1294967296 ms. *)
Example timerDelay_wraps :
  timerDelay 30000 = 30000%Z /\ timerDelay (-5) = 0%Z /\
  timerDelay 3000000000 = 0%Z /\ timerDelay (-3000000000) = 1294967296%Z.
Proof. repeat split. Qed.

Lemma spent_bounded (reply : Reply) : (spent reply timeout <= timerDelay timeout)%Z.
Proof.
  unfold spent. destruct (Z.leb_spec (latency reply) (timerDelay timeout)); lia.
Qed.

(** The time the turns from [attempt] on can take. *)
Let budget (attempt : Z) : Z :=
  if (attempt <? retryCount)%Z
  then ((retryCount - attempt) * timerDelay timeout
        + 500 * (retryCount * (retryCount - 1) - attempt * (attempt + 1)))%Z
  else 0%Z.

Lemma budget_step (attempt : Z) (reply : Reply) :
  (0 <= attempt < retryCount)%Z ->
  (spent reply timeout
   + (if (attempt <? retryCount - 1)%Z then timerDelay (1000 * (attempt + 1)) else 0)
   + budget (attempt + 1) <= budget attempt)%Z.
Proof.
  intros Ha. pose proof (spent_bounded reply) as Hs.
  pose proof (timerDelay_le (1000 * (attempt + 1)) ltac:(lia)) as Hd.
  unfold budget.
  destruct (Z.ltb_spec attempt retryCount); [|lia].
  destruct (Z.ltb_spec attempt (retryCount - 1));
    destruct (Z.ltb_spec (attempt + 1) retryCount); try lia.
  assert (attempt = retryCount - 1)%Z as -> by lia. lia.
Qed.

Lemma budget_nonneg (attempt : Z) : (0 <= attempt)%Z -> (0 <= budget attempt)%Z.
Proof.
  intros Ha. unfold budget. destruct (Z.ltb_spec attempt retryCount); [|lia].
  assert (attempt * (attempt + 1) <= retryCount * (retryCount - 1))%Z by nia.
  pose proof (timerDelay_nonneg timeout).
  assert (0 <= (retryCount - attempt) * timerDelay timeout)%Z by nia. lia.
Qed.

(** The loop from [attempt] on: it makes at most as many requests as
    turns are left and stays within the budget; an outcome it returns
    carries the time since the start and the number of the attempt. *)
Lemma attempts_bounded (fuel : nat) :
  forall (attempt : Z) (lastError : Thrown) (w : World),
    (0 <= attempt)%Z ->
    exists r w' evs,
      attempts network generateId config adapter imageData prompt timeout retryCount
               startTime fuel attempt lastError w = (Returned r, w') /\
      trace w' = trace w ++ evs /\
      (Z.of_nat (length (requestsOf evs)) <= Z.max 0 (retryCount - attempt))%Z /\
      (now w' - now w <= budget attempt)%Z /\
      match r with
      | inl outcome =>
          success outcome = true /\
          elapsed outcome = (now w' - startTime)%Z /\
          ApiManager.attempt outcome
          = Some (attempt + Z.of_nat (length (requestsOf evs)))%Z /\
          (1 <= length (requestsOf evs))%nat
      | inr e =>
          ((exists m, e = Error m) /\ (1 <= length (requestsOf evs))%nat) \/
          (e = lastError /\ (fuel = 0%nat \/ (retryCount <= attempt)%Z))
      end.
Proof.
  induction fuel as [|fuel IH]; intros attempt lastError w Ha.
  - exists (inr lastError), w, []. rewrite app_nil_r. cbn [attempts].
    pose proof (budget_nonneg attempt Ha).
    repeat split; [cbn; lia | lia | right; auto].
  - rewrite attempts_S. destruct (Z.ltb_spec attempt retryCount) as [Hlt|Hge].
    2:{ exists (inr lastError), w, []. rewrite app_nil_r.
        pose proof (budget_nonneg attempt Ha).
        repeat split; [cbn; lia | lia | right; auto]. }
    set (req := request adapter imageData prompt).
    pose proof (budget_step attempt (network (calls w) req) (conj Ha Hlt)) as Hstep.
    destruct (attempt_settles timeout (network (calls w) req)) as [[m H] | [t H]].
    + rewrite (attemptOnce_failure network generateId config adapter imageData prompt
                 timeout retryCount startTime attempt w m H).
      fold req in Hstep |- *.
      match goal with
      | |- context [attempts _ _ _ _ _ _ _ _ _ fuel _ (Error m) ?w1] =>
          destruct (IH (attempt + 1)%Z (Error m) w1 ltac:(lia))
            as (r & w2 & evs2 & Hrun & Ht & Hn & Hb & Hr)
      end.
      rewrite Hrun.
      destruct (attempt <? retryCount - 1)%Z; cbn [now trace] in Ht, Hb.
      * exists r, w2, ([Fetch (now w) req; Sleep (1000 * (attempt + 1))] ++ evs2).
        split; [reflexivity|]. split; [by rewrite Ht, <- app_assoc|].
        rewrite requestsOf_app, length_app.
        change (requestsOf [Fetch (now w) req; Sleep (1000 * (attempt + 1))]) with [req].
        cbn [length].
        split; [lia|]. split; [lia|].
        destruct r as [outcome|e].
        -- destruct Hr as (Hok & Hel & Hatt & _). repeat split; try assumption; [|lia].
           rewrite Hatt. f_equal. lia.
        -- left. destruct Hr as [[Hm _]|[-> _]]; split; eauto; lia.
      * exists r, w2, ([Fetch (now w) req] ++ evs2).
        split; [reflexivity|]. split; [by rewrite Ht, <- app_assoc|].
        rewrite requestsOf_app, length_app.
        change (requestsOf [Fetch (now w) req]) with [req]. cbn [length].
        split; [lia|]. split; [lia|].
        destruct r as [outcome|e].
        -- destruct Hr as (Hok & Hel & Hatt & _). repeat split; try assumption; [|lia].
           rewrite Hatt. f_equal. lia.
        -- left. destruct Hr as [[Hm _]|[-> _]]; split; eauto; lia.
    + rewrite (attemptOnce_success network generateId config adapter imageData prompt
                 timeout retryCount startTime attempt w t H).
      fold req in Hstep |- *.
      eexists _, _, [Fetch (now w) req; UpdateStats true _; AddHistory (name config) t true _].
      split; [reflexivity|]. cbn [now trace success elapsed ApiManager.attempt].
      split; [reflexivity|].
      match goal with
      | |- context [requestsOf ?l] => change (requestsOf l) with [req]
      end.
      cbn [length].
      assert (Hl : (latency (network (calls w) req) <= spent (network (calls w) req) timeout)%Z).
      { unfold attemptText in H. unfold spent.
        destruct (latency (network (calls w) req) <=? timerDelay timeout)%Z;
          [lia | discriminate]. }
      pose proof (budget_nonneg (attempt + 1) ltac:(lia)).
      pose proof (timerDelay_nonneg (1000 * (attempt + 1))).
      split; [lia|]. split; [destruct (attempt <? retryCount - 1)%Z; lia|].
      repeat split; lia.
Qed.

End Loop.

(** X21.  A call of [recognize] with an active configuration and at
    least one attempt allowed returns an outcome after at least one and
    at most [retryCount] requests; the time elapsed that the outcome
    reports is the time the call took, and, every timer firing when its
    delay is over, it is at most [retryCount] times the delay of the
    timeout timer plus the backoffs between the attempts.  The delay of
    the timer is what [setTimeout] makes of the timeout, its value as a
    32-bit integer, or 0 when that is negative, and not the timeout
    itself.  A success reports as its attempt the number of requests
    made. *)
Theorem recognize_is_bounded
    (imageData : string) (options : Options) (w : World) (config : Config) :
  Storage.getActiveConfig (store w) = Some config ->
  let settings := Storage.getSettings (store w) in
  let timeout := orElseZ (timeoutOption options) (Storage.timeout settings) in
  let retryCount := orElseZ (retryCountOption options) (Storage.retryCount settings) in
  (1 <= retryCount)%Z ->
  let run := recognize network generateId imageData options w in
  exists outcome evs,
    fst run = Returned outcome /\
    trace (snd run) = trace w ++ evs /\
    (1 <= length (requestsOf evs))%nat /\
    (Z.of_nat (length (requestsOf evs)) <= retryCount)%Z /\
    elapsed outcome = (now (snd run) - now w)%Z /\
    (elapsed outcome <= timeBudget retryCount timeout)%Z /\
    (success outcome = true ->
     attempt outcome = Some (Z.of_nat (length (requestsOf evs)))).
Proof.
  intros Hcfg settings timeout retryCount Hrc run. unfold run.
  destruct (recognize_run network generateId imageData options w config Hcfg)
    as (w1 & Hnow & _ & _ & Htrace & _ & Hrun).
  fold settings timeout retryCount in Hrun. rewrite Hrun. clear Hrun.
  match goal with
  | |- context [attempts ?n ?g ?c ?a ?i ?p ?t ?r ?s ?f 0%Z Null w1] =>
      destruct (attempts_bounded c a i p t r s f 0%Z Null w1 ltac:(lia))
        as (r' & w2 & evs & Hloop & Ht & Hn & Hb & Hr)
  end.
  rewrite Hloop.
  assert (Hbudget : (now w2 - now w <= timeBudget retryCount timeout)%Z).
  { rewrite <- Hnow. etrans; [exact Hb|]. unfold timeBudget.
    destruct (Z.ltb_spec 0 retryCount); lia. }
  destruct r' as [outcome|e].
  - destruct Hr as (Hok & Hel & Hatt & Hone).
    exists outcome, evs. cbn [fst snd].
    rewrite Ht, Htrace, Hel, Hatt. repeat split; try assumption; lia.
  - destruct Hr as [[[m ->] Hone]|[_ [Hf|Hge]]]; [|lia|lia].
    rewrite recordFailure_error. cbn [fst snd now trace elapsed success].
    eexists _, (evs ++ [UpdateStats false _; AddHistory _ m false _]).
    split; [reflexivity|]. split; [by rewrite Ht, Htrace, <- app_assoc|].
    rewrite requestsOf_app, length_app.
    match goal with
    | |- context [requestsOf [?a; ?b]] => change (requestsOf [a; b]) with (@nil Request)
    end.
    cbn [length]. rewrite Nat.add_0_r. repeat split; try assumption; try lia. discriminate.
Qed.

End DispatcherBounds.

(** ** The element pickers *)

Section ElementPickerFacts.
Import PickerEvents ElementPicker.

Variable generateSelector : nat -> option string.

(** What holds of the module's variables whatever happened: while the
    picker is not active no callback is kept, the listeners and the
    tooltip are there exactly while it is active, and no callback was
    called. *)
Let invariant (s : State) : Prop :=
  (isActive s = false -> onSelectCallback s = None) /\
  listening s = isActive s /\ tooltip s = isActive s /\ calls s = [].

Lemma step_invariant (s : State) (a : Action) :
  invariant s -> invariant (step generateSelector s a).
Proof.
  intros (Hcb & Hl & Ht & Hcalls). destruct s as [active hovered cb lis tip cs].
  cbn [isActive onSelectCallback listening tooltip calls] in *. subst lis tip cs.
  destruct a as [callback| |[under|onCancel|key]]; cbn [step dispatch].
  - unfold startPicker. cbn [isActive]. destruct active; repeat split; auto; discriminate.
  - unfold stopPicker. cbn [isActive]. destruct active; repeat split; auto.
  - cbn [listening]. destruct active; [|repeat split; auto].
    unfold handleMouseMove. cbn [isActive negb].
    destruct under; repeat split; auto; discriminate.
  - cbn [listening tooltip]. destruct active.
    + unfold handleClick. cbn [isActive negb hoveredElement].
      rewrite andb_false_r.
      destruct hovered as [e|]; [|repeat split; auto; discriminate].
      destruct (generateSelector e); [|repeat split; auto; discriminate].
      unfold stopPicker, notify. cbn. repeat split; auto.
    + rewrite andb_false_r. repeat split; auto.
  - cbn [listening]. destruct active; [|repeat split; auto].
    unfold handleKeyDown. cbn [isActive negb].
    destruct (String.eqb key "Escape"); [|repeat split; auto; discriminate].
    unfold stopPicker, notify. cbn. repeat split; auto.
Qed.

Lemma run_invariant (actions : list Action) : invariant (run generateSelector actions).
Proof.
  unfold run. induction actions as [|a actions IH] using rev_ind.
  - repeat split; auto.
  - rewrite fold_left_app. apply step_invariant, IH.
Qed.

(** X16.  The picker of element-picker.js never calls the callback it
    was started with, whatever the user does and however often it is
    started and stopped: [stopPicker] forgets the callback before the
    handlers look for it.  A click on a hovered element ends the picker
    all the same. *)
Theorem element_picker_never_calls_back (actions : list Action) :
  let s := run generateSelector actions in
  calls s = [] /\
  forall e selector,
    isActive s = true -> hoveredElement s = Some e ->
    generateSelector e = Some selector ->
    let s' := step generateSelector s (User (Click false)) in
    isActive s' = false /\ calls s' = [].
Proof.
  intros s. pose proof (run_invariant actions) as Hinv. fold s in Hinv.
  split; [apply Hinv|]. intros e selector Hactive Hhover Hsel s'.
  pose proof (step_invariant s (User (Click false)) Hinv) as Hinv'. fold s' in Hinv'.
  split; [|apply Hinv'].
  destruct Hinv as (_ & Hl & _). unfold s'. cbn [step dispatch].
  rewrite Hl, Hactive. unfold handleClick. rewrite Hactive, Hhover, Hsel.
  cbn [negb andb]. unfold stopPicker, notify. rewrite Hactive. reflexivity.
Qed.

End ElementPickerFacts.

Section ContentPickerFacts.
Import PickerEvents ContentPicker.

Variable generateSelector : nat -> option string.

Let dispatch := dispatch generateSelector.
Let run := run generateSelector.

Let invariant (s : State) : Prop :=
  listening s = isActive s /\ tooltip s = isActive s /\
  (isActive s = true -> results s = []) /\
  (isActive s = false -> exists r, results s = [r]).

(** What an event does to a picker: it leaves the results as they are
    (and, once the picker has ended, everything), or it ends the picker
    with one result: the hovered element on a click, wherever the click
    lands, or a cancellation on the Escape key. *)
Lemma dispatch_cases (s : State) (e : UserEvent) :
  invariant s ->
  invariant (dispatch s e) /\
  (isActive s = false -> dispatch s e = s) /\
  (results (dispatch s e) = results s \/
   (isActive s = true /\ isActive (dispatch s e) = false /\
    ((exists el selector onCancel,
        e = Click onCancel /\ hoveredElement s = Some el /\
        generateSelector el = Some selector /\
        results (dispatch s e) = [Selected el selector]) \/
     (e = KeyDown "Escape" /\ results (dispatch s e) = [Cancelled])))).
Proof.
  intros (Hl & Ht & Hres & Hdone). destruct s as [active hovered lis tip rs].
  cbn [isActive hoveredElement listening tooltip results] in *. subst lis tip.
  destruct active.
  - specialize (Hres eq_refl). subst rs. clear Hdone.
    destruct e as [under|onCancel|key]; unfold dispatch; cbn [ContentPicker.dispatch listening tooltip].
    + unfold handleMouseMove. cbn [isActive negb].
      destruct under; (split; [repeat split; auto; discriminate|]);
        (split; [discriminate|]); by left.
    + unfold handleClick. cbn [isActive negb hoveredElement]. rewrite andb_false_r.
      destruct hovered as [el|].
      2:{ split; [repeat split; auto; discriminate|]. split; [discriminate|]. by left. }
      destruct (generateSelector el) as [selector|] eqn:Hsel.
      2:{ split; [repeat split; auto; discriminate|]. split; [discriminate|]. by left. }
      unfold cleanup, callback. cbn.
      split; [repeat split; eauto; discriminate|]. split; [discriminate|].
      right. repeat split. left. eauto 10.
    + unfold handleKeyDown. cbn [isActive negb].
      destruct (String.eqb_spec key "Escape") as [->|Hkey].
      * unfold cleanup, callback. cbn.
        split; [repeat split; eauto; discriminate|]. split; [discriminate|].
        right. repeat split. by right.
      * split; [repeat split; auto; discriminate|]. split; [discriminate|]. by left.
  - assert (Hsame : dispatch (mkState false hovered false false rs) e
                    = mkState false hovered false false rs).
    { destruct e as [under|onCancel|key]; unfold dispatch;
        cbn [ContentPicker.dispatch listening tooltip]; [reflexivity| |reflexivity].
      by rewrite andb_false_r. }
    rewrite Hsame. split; [repeat split; auto|]. split; [reflexivity | by left].
Qed.

Lemma run_snoc (events : list UserEvent) (e : UserEvent) :
  run (events ++ [e]) = dispatch (run events) e.
Proof. unfold run, ContentPicker.run. by rewrite fold_left_app. Qed.

Lemma run_invariant_content (events : list UserEvent) : invariant (run events).
Proof.
  induction events as [|e events IH] using rev_ind.
  - repeat split; auto; discriminate.
  - rewrite run_snoc. by apply dispatch_cases.
Qed.

Lemma hovered_was_under_the_pointer (events : list UserEvent) (el : nat) :
  hoveredElement (run events) = Some el -> MouseMove (OverTarget el) ∈ events.
Proof.
  induction events as [|e events IH] using rev_ind; [discriminate|].
  rewrite run_snoc. intros H. apply elem_of_app.
  destruct (isActive (run events)) eqn:Hactive.
  2:{ left. apply IH.
      destruct (dispatch_cases (run events) e (run_invariant_content events))
        as (_ & Hsame & _).
      by rewrite (Hsame Hactive) in H. }
  pose proof (run_invariant_content events) as (Hl & _).
  revert H. unfold dispatch. destruct e as [under|onCancel|key];
    cbn [ContentPicker.dispatch]; rewrite Hl, Hactive.
  - unfold handleMouseMove. rewrite Hactive. cbn [negb].
    destruct under as [|el'|]; cbn [hoveredElement]; intros H; try (left; by apply IH).
    injection H as ->. right. apply list_elem_of_here.
  - unfold handleClick. rewrite Hactive. cbn [negb]. rewrite andb_false_r.
    destruct (hoveredElement (run events)) as [el'|] eqn:Hh; [|congruence].
    destruct (generateSelector el'); cbn [hoveredElement cleanup callback];
      intros H; left; apply IH; congruence.
  - unfold handleKeyDown. rewrite Hactive. cbn [negb].
    destruct (String.eqb key "Escape"); cbn [hoveredElement cleanup callback];
      intros H; left; by apply IH.
Qed.

(** X17.  The picker of content.js calls its callback at most once, and
    exactly once when it has ended.  A cancellation is only ever the
    answer to the Escape key; a selection is an element that was under
    the pointer, with the selector generated for it, chosen by a click. *)
Theorem content_picker_calls_back_once (events : list UserEvent) :
  let s := run events in
  (length (results s) <= 1)%nat /\
  (isActive s = false <-> length (results s) = 1%nat) /\
  (Cancelled ∈ results s -> KeyDown "Escape" ∈ events) /\
  (forall el selector,
     Selected el selector ∈ results s ->
     generateSelector el = Some selector /\
     MouseMove (OverTarget el) ∈ events /\ exists onCancel, Click onCancel ∈ events).
Proof.
  intros s. subst s.
  pose proof (run_invariant_content events) as (_ & _ & Hactive & Hdone).
  split; [|split].
  { destruct (isActive (run events)).
    - rewrite (Hactive eq_refl). simpl. lia.
    - destruct (Hdone eq_refl) as [r ->]. simpl. lia. }
  { destruct (isActive (run events)).
    - rewrite (Hactive eq_refl). split; discriminate.
    - destruct (Hdone eq_refl) as [r ->]. split; reflexivity. }
  clear Hactive Hdone.
  induction events as [|e events [IH1 IH2]] using rev_ind.
  { split; [intros H | intros el selector H]; by apply elem_of_nil in H. }
  rewrite run_snoc.
  destruct (dispatch_cases (run events) e (run_invariant_content events))
    as (_ & _ & [Hsame | (_ & _ & [Hclick | [-> Hkey]])]).
  - rewrite Hsame. split.
    + intros H. apply elem_of_app. left. by apply IH1.
    + intros el selector H. destruct (IH2 el selector H) as (H1 & H2 & b & H3).
      split; [exact H1|]. split; [apply elem_of_app; by left|].
      exists b. apply elem_of_app. by left.
  - destruct Hclick as (el & selector & onCancel & -> & Hh & Hsel & Hres).
    rewrite Hres. split.
    + intros H. apply list_elem_of_singleton in H. discriminate.
    + intros el' selector' H. apply list_elem_of_singleton in H. injection H as -> ->.
      split; [exact Hsel|]. split.
      * apply elem_of_app. left. by apply hovered_was_under_the_pointer.
      * exists onCancel. apply elem_of_app. right. apply list_elem_of_here.
  - rewrite Hkey. split.
    + intros _. apply elem_of_app. right. apply list_elem_of_here.
    + intros el selector H. apply list_elem_of_singleton in H. discriminate.
Qed.

(** X18.  A click on the cancel button of the tooltip does not cancel:
    the click listener of the document stops the event before it reaches
    the button.  With an element hovered before (the pointer crossing
    the tooltip does not unset it) the click selects that element;
    with none the click does nothing and the picker stays active. *)
Theorem content_picker_cancel_button_does_not_cancel (events : list UserEvent) :
  let s := run events in
  isActive s = true ->
  match hoveredElement s with
  | Some el =>
      forall selector,
        generateSelector el = Some selector ->
        results (dispatch s (Click true)) = [Selected el selector] /\
        dispatch (dispatch s (MouseMove OverPicker)) (Click true) = dispatch s (Click true)
  | None => dispatch s (Click true) = s
  end.
Proof.
  intros s Hactive.
  pose proof (run_invariant_content events) as (Hl & Ht & Hres & _). fold s in Hl, Ht, Hres.
  specialize (Hres Hactive).
  destruct (hoveredElement s) as [el|] eqn:Hh.
  - intros selector Hsel.
    assert (Hmove : dispatch s (MouseMove OverPicker) = s).
    { unfold dispatch. cbn [ContentPicker.dispatch]. rewrite Hl, Hactive.
      unfold handleMouseMove. by rewrite Hactive. }
    rewrite Hmove. split; [|reflexivity].
    unfold dispatch. cbn [ContentPicker.dispatch]. rewrite Hl, Ht, Hactive.
    unfold handleClick. rewrite Hactive, Hh, Hsel. cbn [negb andb].
    unfold cleanup, callback. cbn [results]. by rewrite Hres.
  - unfold dispatch. cbn [ContentPicker.dispatch]. rewrite Hl, Ht, Hactive.
    unfold handleClick. rewrite Hactive, Hh. reflexivity.
Qed.

End ContentPickerFacts.

(** ** The detector: what a scan lists *)

Section ScanFacts.
Import Dom CaptchaDetector Vocabulary.

Variable doc : Document.

Lemma srcContainsKeywords_truthy s :
  JsString.truthy s && srcContainsKeywords s = srcContainsKeywords s.
Proof.
  unfold srcContainsKeywords. by destruct (JsString.truthy s).
Qed.







Lemma prefix_NoDup {A} (l k : list A) : l `prefix_of` k -> NoDup k -> NoDup l.
Proof. intros [r ->] H. by apply NoDup_app in H as [H _]. Qed.


(** ** Calls that return *)














(** The decimal notation of a number starts with a digit. *)
Lemma pretty_N_go_head (x : N) :
  forall s, (0 < x)%N -> exists d r, pretty_N_go x s = String (pretty_N_char d) r.
Proof.
  induction (N.lt_wf_0 x) as [x _ IH]. intros s Hx.
  rewrite pretty_N_go_step by exact Hx.
  destruct (decide (x `div` 10 = 0)%N) as [E|E].
  - rewrite E, pretty_N_go_0. eauto.
  - apply IH.
    + apply N.div_lt; lia.
    + apply N.neq_0_lt_0. exact E.
Qed.

Lemma pretty_nat_head (n : nat) : exists d r, pretty n = String (pretty_N_char d) r.
Proof.
  unfold pretty, pretty_nat, pretty, pretty_N. case_decide as E.
  - exists 0%N, "". reflexivity.
  - apply pretty_N_go_head. lia.
Qed.

Lemma pretty_N_char_digit (d : N) :
  pretty_N_char d <> "c"%char /\ pretty_N_char d <> "s"%char.
Proof. unfold pretty_N_char. repeat case_match; split; discriminate. Qed.

Lemma app_inv_prefix (p a b : string) : p +:+ a = p +:+ b -> a = b.
Proof.
  induction p as [|c p IH]; [by rewrite !app_empty_l|].
  rewrite !app_String. intros H. injection H as H. by apply IH.
Qed.

(** The identifiers a [forEach] hands out are the prefix followed by the
    index, and no identifier is handed out twice. *)
Lemma pushes_ids t (l : list Node) :
  forall index,
    NoDup (id <$> snd (pushes doc t index l)) /\
    forall s, s ∈ id <$> snd (pushes doc t index l) ->
              exists i, (index <= i)%nat /\ s = idPrefix t +:+ pretty i.
Proof.
  induction l as [|x l IH]; intros index; cbn [pushes].
  { split; [constructor | intros s Hs; by apply elem_of_nil in Hs]. }
  destruct (IH (S index)) as [IH1 IH2].
  destruct (examine doc t x index) as [[c|]|member] eqn:E.
  - apply examine_entry in E as (score & input & _ & _ & _ & ->).
    destruct (pushes doc t (S index) l) as [r cs]. cbn [fst snd] in *.
    rewrite fmap_cons. cbn [id entry]. split.
    + apply NoDup_cons. split; [|exact IH1].
      intros Hin. destruct (IH2 _ Hin) as (i & Hi & Heq).
      apply app_inv_prefix in Heq. apply (inj pretty) in Heq. lia.
    + intros s Hs. apply elem_of_cons in Hs as [->|Hs]; [by exists index|].
      destruct (IH2 _ Hs) as (i & Hi & Heq). exists i. split; [lia | exact Heq].
  - split; [exact IH1|]. intros s Hs.
    destruct (IH2 _ Hs) as (i & Hi & Heq). exists i. split; [lia | exact Heq].
  - cbn [snd]. split; [constructor | intros s Hs; by apply elem_of_nil in Hs].
Qed.

Lemma scan_ids (this : Detector) :
  NoDup (id <$> detectedCaptchas (snd (scan doc this))) /\
  forall c, c ∈ detectedCaptchas (snd (scan doc this)) -> JsString.truthy (id c) = true.
Proof.
  destruct (scan_detected doc this) as (cs & -> & Hprefix & _).
  destruct (pushes_ids image (selected doc image) 0) as [N1 I1].
  destruct (pushes_ids canvas (selected doc canvas) 0) as [N2 I2].
  destruct (pushes_ids svg (selected doc svg) 0) as [N3 I3].
  cbn [idPrefix] in I1, I2, I3.
  split.
  - apply (prefix_NoDup _ (id <$> (snd (pushes doc image 0 (selected doc image)) ++
                                   snd (pushes doc canvas 0 (selected doc canvas)) ++
                                   snd (pushes doc svg 0 (selected doc svg))))).
    { destruct Hprefix as [k ->]. rewrite fmap_app. by apply prefix_app_r. }
    rewrite !fmap_app.
    apply NoDup_app. split; [exact N1|]. split.
    + intros s H1 H2. destruct (I1 s H1) as (i & _ & ->).
      destruct (pretty_nat_head i) as (d & r & Hd).
      destruct (pretty_N_char_digit d) as [Hc Hs].
      apply elem_of_app in H2 as [H2|H2].
      * destruct (I2 _ H2) as (j & _ & Hj).
        change ("captcha-canvas-" +:+ pretty j)
          with ("captcha-" +:+ String "c" ("anvas-" +:+ pretty j)) in Hj.
        apply app_inv_prefix in Hj. rewrite Hd in Hj. congruence.
      * destruct (I3 _ H2) as (j & _ & Hj).
        change ("captcha-svg-" +:+ pretty j)
          with ("captcha-" +:+ String "s" ("vg-" +:+ pretty j)) in Hj.
        apply app_inv_prefix in Hj. rewrite Hd in Hj. congruence.
    + apply NoDup_app. split; [exact N2|]. split; [|exact N3].
      intros s H1 H2. destruct (I2 s H1) as (i & _ & ->).
      destruct (I3 _ H2) as (j & _ & Hj). discriminate.
  - intros c Hc. eapply elem_of_prefix in Hc; [|exact Hprefix].
    assert (Hid : id c ∈ id <$> (snd (pushes doc image 0 (selected doc image)) ++
                                 snd (pushes doc canvas 0 (selected doc canvas)) ++
                                 snd (pushes doc svg 0 (selected doc svg))))
      by (apply list_elem_of_fmap; eauto).
    rewrite !fmap_app in Hid.
    apply elem_of_app in Hid as [H|H]; [|apply elem_of_app in H as [H|H]];
      [destruct (I1 _ H) as (i & _ & ->) | destruct (I2 _ H) as (i & _ & ->)
       | destruct (I3 _ H) as (i & _ & ->)]; reflexivity.
Qed.

Lemma find_by_id (l : list Candidate) (c : Candidate) :
  NoDup (id <$> l) -> c ∈ l ->
  List.find (fun c' => String.eqb (id c') (id c)) l = Some c.
Proof.
  induction l as [|x l IH]; intros Hnd Hc; [by apply elem_of_nil in Hc|].
  rewrite fmap_cons in Hnd. apply NoDup_cons in Hnd as [Hx Hnd].
  cbn [List.find]. apply elem_of_cons in Hc as [->|Hc].
  - by rewrite String.eqb_refl.
  - destruct (String.eqb_spec (id x) (id c)) as [E|E]; [|by apply IH].
    exfalso. apply Hx. rewrite E. apply list_elem_of_fmap. eauto.
Qed.

(** X2.  The identifiers of the candidates of a scan are pairwise
    different and not empty, so that a recognize request that names a
    candidate by its identifier settles on that candidate. *)
Theorem scan_candidates_are_chosen_by_their_id
    (this : Detector) (p : ContentScript.Page) (c : Candidate) :
  ContentScript.detector p = snd (scan doc this) ->
  c ∈ detectedCaptchas (snd (scan doc this)) ->
  NoDup (id <$> detectedCaptchas (snd (scan doc this))) /\
  ContentScript.chosen (id c) p = Some c.
Proof.
  intros Hp Hc. destruct (scan_ids this) as [Hnd Hids].
  split; [exact Hnd|]. unfold ContentScript.chosen.
  rewrite (Hids c Hc), Hp. by apply find_by_id.
Qed.

Lemma inputLoop_found (input : Node) (fuel : nat) :
  forall parent,
    inputLoop doc fuel parent = Js.Returned (Some input) ->
    doc !! fst input = Some (snd input) /\
    isTextInput (snd input) = true /\
    isCaptchaInputByName (snd input) = true /\
    exists ancestor, ancestor ∈ walk doc fuel parent /\
                     isDescendantOf doc ancestor input = true.
Proof.
  induction fuel as [|fuel IH]; intros parent; cbn [inputLoop walk]; [discriminate|].
  destruct parent as [p| |]; try discriminate.
  destruct (findCaptchaInput doc p) as [[i|]|member] eqn:Hfind;
    cbn [mbind Js.Result_bind]; try discriminate.
  - intros [= ->]. unfold findCaptchaInput in Hfind.
    destruct (named (snd p) "querySelectorAll"); [discriminate|].
    injection Hfind as Hfind.
    apply find_some in Hfind as [Hin Hname].
    unfold querySelectorAllIn in Hin. apply filter_In in Hin as [Hin Hsel].
    apply list_elem_of_In, nodes_lookup in Hin.
    apply andb_true_iff in Hsel as [Hsel Hunder].
    repeat split; auto. exists p. split; [apply list_elem_of_here | exact Hunder].
  - intros H. destruct (IH _ H) as (H1 & H2 & H3 & ancestor & H4 & H5).
    repeat split; auto. exists ancestor. split; [by apply list_elem_of_further | exact H5].
Qed.

Lemma walk_ancestors (fuel : nat) :
  forall x,
    (forall a, a ∈ x :: ancestors doc fuel x ->
               named (snd a) "parentElement" = None) ->
    walk doc fuel (parentElementOf doc x) = ancestors doc fuel x.
Proof.
  induction fuel as [|fuel IH]; intros x Hx; [reflexivity|].
  cbn [walk ancestors]. unfold parentElementOf.
  rewrite (Hx x) by apply list_elem_of_here.
  cbn [ancestors] in Hx.
  destruct (parentOf doc x) as [p|]; [|reflexivity].
  f_equal. apply IH. intros a Ha. apply Hx. by apply list_elem_of_further.
Qed.

(** X4.  The input a candidate is linked to is a text input of the
    document.  Either it is named like a CAPTCHA input and lies under one
    of the at most five elements the walk up from the element visits, its
    five nearest ancestors when no form on the way has a control named
    parentElement; or it sits to the right of the element, less than
    150 px from its right edge and less than 50 px higher or lower, or
    below it, less than 100 px from its bottom edge and less than 100 px
    to the left or the right, the distances taken in double precision. *)
Theorem findRelatedInput_is_a_text_input (x input : Node) :
  findRelatedInput doc x = Js.Returned (Some input) ->
  doc !! fst input = Some (snd input) /\
  isTextInput (snd input) = true /\
  ((isCaptchaInputByName (snd input) = true /\
    exists ancestor, ancestor ∈ walk doc 5 (parentElementOf doc x) /\
                     isDescendantOf doc ancestor input = true) \/
   (let r := rect (snd x) in
    let inputRect := rect (snd input) in
    (right r < left inputRect /\
     Double.sub (left inputRect) (right r) < 150 /\
     Qabs (Double.sub (top inputRect) (top r)) < 50) \/
    (bottom r < top inputRect /\
     Double.sub (top inputRect) (bottom r) < 100 /\
     Qabs (Double.sub (left inputRect) (left r)) < 100))%Q) /\
  ((forall a, a ∈ x :: ancestors doc 5 x ->
              named (snd a) "parentElement" = None) ->
   walk doc 5 (parentElementOf doc x) = ancestors doc 5 x).
Proof.
  unfold findRelatedInput. intros Hfound.
  assert (Hwalk := walk_ancestors 5 x).
  destruct (inputLoop doc 5 (parentElementOf doc x)) as [[i|]|member] eqn:Hloop;
    cbn [mbind Js.Result_bind] in Hfound; try discriminate.
  - injection Hfound as ->.
    destruct (inputLoop_found _ _ _ Hloop) as (H1 & H2 & H3 & H4). auto 6.
  - injection Hfound as Hfind. apply find_some in Hfind as [Hin Hpos].
    apply list_elem_of_In, querySelectorAll_elem in Hin as [H1 H2].
    split; [exact H1|]. split; [exact H2|]. split; [|exact Hwalk]. right.
    cbv zeta. unfold positioned, Qgt_bool in Hpos.
    rewrite orb_true_iff, !andb_true_iff, !Qlt_bool_iff in Hpos. tauto.
Qed.

(** X3.  Every candidate of a scan refers to a visible element of the
    document of the kind its type names; its confidence is at least 10,
    and at least 25 unless it is an image that was accepted for its alt
    text alone, which the confidence does not count. *)
Theorem scan_candidates_have_evidence (this : Detector) (c : Candidate) :
  c ∈ detectedCaptchas (snd (scan doc this)) ->
  exists e,
    doc !! element c = Some e /\
    isVisible e = true /\
    tagName e = match type c with image => IMG | canvas => CANVAS | svg => SVG end /\
    (10 <= confidence c)%Z /\
    ((confidence c < 25)%Z ->
     type c = image /\ matchesKeywordsInText (alt e) = true).
Proof.
  intros Hc.
  destruct (scan_elem _ _ _ Hc) as (x & Hx & _ & Htag & Hlikely & Hconf & _ & _).
  exists (snd x). split; [exact Hx|].
  destruct (likely_size _ _ _ Hlikely) as [Hsize Hvisible].
  split; [exact Hvisible|].
  split; [rewrite Htag; by destruct (type c)|].
  unfold calculateConfidence in Hconf. rewrite srcContainsKeywords_truthy, Hsize in Hconf.
  destruct (type c); cbn [likely] in Hlikely;
    unfold isLikelyCaptcha, isLikelyCanvasCaptcha, isLikelySvgCaptcha,
      hasNearbyInput in Hlikely;
    rewrite Hsize, Hvisible in Hlikely; cbn [negb] in Hlikely;
    destruct (matchesKeywords (snd x)) as [[|]|];
    cbn [mbind Js.Result_bind] in Hlikely, Hconf; try discriminate;
    destruct (srcContainsKeywords (src (snd x)));
    destruct (parentContainsKeywords doc x) as [[|]|];
    cbn [mbind Js.Result_bind] in Hlikely, Hconf; try discriminate;
    destruct (findRelatedInput doc x) as [[i|]|];
    cbn [mbind Js.Result_bind mret Js.Result_ret] in Hlikely, Hconf; try discriminate;
    injection Hconf as <-;
    try (split; [lia | intros; lia]);
    destruct (matchesKeywordsInText (alt (snd x))); try discriminate;
    (split; [lia | intros; auto]).
Qed.

End ScanFacts.

(** ** The detector: the keywords *)

Section KeywordFacts.
Import JsString Dom CaptchaDetector Terms.

Lemma includes_code (s k : string) :
  includes k "code" = true -> includes s "code" = false -> includes s k = false.
Proof.
  intros Hk Hs. destruct (includes s k) eqn:E; [|reflexivity].
  by rewrite (includes_trans _ _ _ E Hk) in Hs.
Qed.

Lemma includes_captcha (s k : string) :
  includes k "captcha" = true -> includes s "captcha" = false -> includes s k = false.
Proof.
  intros Hk Hs. destruct (includes s k) eqn:E; [|reflexivity].
  by rewrite (includes_trans _ _ _ E Hk) in Hs.
Qed.

Lemma classKeywords_core (s : string) :
  some classKeywords (fun k => includes s k) = some classCore (fun k => includes s k).
Proof.
  unfold some, classKeywords, classCore. cbn [existsb].
  destruct (includes s "code") eqn:Hcode.
  - destruct (includes s "captcha"), (includes s "verify"); reflexivity.
  - rewrite (includes_code s "vcode"), (includes_code s "imgcode"),
      (includes_code s "checkcode"), (includes_code s "seccode"),
      (includes_code s "authcode"), (includes_code s "validcode") by done.
    reflexivity.
Qed.

Lemma idKeywords_core (s : string) :
  some idKeywords (fun k => includes s k) = some idCore (fun k => includes s k).
Proof.
  unfold some, idKeywords, idCore. cbn [existsb].
  destruct (includes s "code") eqn:Hcode.
  - destruct (includes s "captcha"), (includes s "verify"); reflexivity.
  - rewrite (includes_code s "vcode"), (includes_code s "imgcode"),
      (includes_code s "checkcode"), (includes_code s "seccode"),
      (includes_code s "authcode"), (includes_code s "validcode"),
      (includes_code s "codeImg") by done.
    destruct (includes s "captcha") eqn:Hcaptcha.
    + reflexivity.
    + rewrite (includes_captcha s "captchaImg") by done.
      destruct (includes s "verify"), (includes s "yzm"); reflexivity.
Qed.

Lemma lowerAscii_not_I (c : ascii) : lowerAscii c <> "I"%char.
Proof. destruct c as [[] [] [] [] [] [] [] []]; vm_compute; discriminate. Qed.

Lemma toLowerCase_no_I (s a b : string) : toLowerCase s <> a +:+ String "I" b.
Proof.
  revert a. induction s as [|c s IH]; intros a; cbn [toLowerCase].
  - by destruct a.
  - destruct a as [|x a]; [rewrite app_empty_l|rewrite app_String]; intros H.
    + injection H as H _. by apply lowerAscii_not_I in H.
    + injection H as _ H. by apply IH in H.
Qed.

Lemma toLowerCase_never_includes (s k a b : string) :
  k = a +:+ String "I" b -> includes (toLowerCase s) k = false.
Proof.
  intros ->. destruct (includes (toLowerCase s) _) eqn:E; [|reflexivity].
  apply includes_spec in E as (x & y & E).
  rewrite (app_assoc_string a), app_String, <- app_assoc_string in E.
  by apply toLowerCase_no_I in E.
Qed.

(** X5.  Whether an element matches the keywords is decided by six of
    the twelve class keywords and four of the twelve id keywords: each of
    the others contains the keyword code or captcha.  The id keywords
    captchaImg and codeImg never match by themselves, the id being
    compared in lower case.  On a form with a control named id the call
    throws instead. *)
Theorem matchesKeywords_is_decided_by_the_core_keywords (e : Element) :
  matchesKeywords e =
    match named e "id" with
    | Some _ => Js.TypeError "toLowerCase"
    | None =>
        Js.Returned
          (some classCore (fun k => includes (toLowerCase (classNameToString e)) k) ||
           some idCore (fun k => includes (toLowerCase (elemId e)) k))
    end /\
  includes (toLowerCase (elemId e)) "captchaImg" = false /\
  includes (toLowerCase (elemId e)) "codeImg" = false.
Proof.
  split; [|split].
  - unfold matchesKeywords, idToLowerCase.
    destruct (named e "id"); [reflexivity|].
    cbn [mbind Js.Result_bind mret Js.Result_ret].
    by rewrite classKeywords_core, idKeywords_core.
  - by apply (toLowerCase_never_includes _ _ "captcha" "mg").
  - by apply (toLowerCase_never_includes _ _ "code" "mg").
Qed.

(** X6.  The class attribute of an svg element never counts: its
    [className] is an object whose string is [object SVGAnimatedString],
    so that an svg element matches the keywords by its id only. *)
Theorem svg_matches_by_id_only (e : Element) :
  tagName e = SVG ->
  matchesKeywords e
  = Js.Returned (some idCore (fun k => includes (toLowerCase (elemId e)) k)).
Proof.
  intros Htag. unfold matchesKeywords, idToLowerCase, named, classNameToString, named.
  rewrite Htag. cbn [mbind Js.Result_bind mret Js.Result_ret].
  rewrite idKeywords_core. reflexivity.
Qed.

End KeywordFacts.

(** ** The confidence and the five signals *)

Section ConfidenceFacts.
Import JsString Dom CaptchaDetector ConfidenceSpec Vocabulary Terms.

Lemma containsKeyword_class (s : string) :
  containsKeyword classKeywords s
  = some classKeywords (fun k => includes (toLowerCase s) k).
Proof. reflexivity. Qed.

Lemma containsKeyword_id (s : string) :
  containsKeyword idKeywords s
  = some idKeywords (fun k => includes (toLowerCase s) k).
Proof.
  rewrite idKeywords_core.
  unfold containsKeyword, some, idKeywords, idCore. cbn [existsb].
  change (toLowerCase "captcha") with "captcha".
  change (toLowerCase "verify") with "verify".
  change (toLowerCase "code") with "code".
  change (toLowerCase "vcode") with "vcode".
  change (toLowerCase "imgcode") with "imgcode".
  change (toLowerCase "checkcode") with "checkcode".
  change (toLowerCase "seccode") with "seccode".
  change (toLowerCase "authcode") with "authcode".
  change (toLowerCase "validcode") with "validcode".
  change (toLowerCase "yzm") with "yzm".
  change (toLowerCase "captchaImg") with "captchaimg".
  change (toLowerCase "codeImg") with "codeimg".
  set (ls := toLowerCase s).
  destruct (includes ls "code") eqn:Hcode.
  - destruct (includes ls "captcha"), (includes ls "verify"); reflexivity.
  - rewrite (includes_code ls "vcode"), (includes_code ls "imgcode"),
      (includes_code ls "checkcode"), (includes_code ls "seccode"),
      (includes_code ls "authcode"), (includes_code ls "validcode"),
      (includes_code ls "codeimg") by done.
    destruct (includes ls "captcha") eqn:Hcaptcha.
    + reflexivity.
    + rewrite (includes_captcha ls "captchaimg") by done.
      destruct (includes ls "verify"), (includes ls "yzm"); reflexivity.
Qed.

(** On an HTML element that reads its own attributes, the test of the
    code is the signal of the specification. *)
Lemma matchesKeywords_ownKeyword (e : Element) :
  plainElement e = true -> matchesKeywords e = Js.Returned (ownKeyword e).
Proof.
  intros He. unfold plainElement in He.
  unfold matchesKeywords, idToLowerCase, classNameToString, ownKeyword.
  rewrite containsKeyword_class, containsKeyword_id.
  destruct (named e "className"), (named e "id"), (named e "parentElement"),
    (tagName e); try discriminate; reflexivity.
Qed.

Lemma parentElementOf_plain doc (x : Node) :
  plainElement (snd x) = true ->
  parentElementOf doc x
  = match parentOf doc x with
    | Some p => ParentElement p
    | None => NoParent
    end.
Proof.
  intros Hx. unfold plainElement in Hx. unfold parentElementOf.
  destruct (named (snd x) "className"), (named (snd x) "id"),
    (named (snd x) "parentElement"), (tagName (snd x)); try discriminate; reflexivity.
Qed.

Lemma parentLoop_ancestors doc (levels : nat) :
  forall x,
    Forall (fun a => plainElement (snd a) = true) (x :: ancestors doc levels x) ->
    parentLoop doc levels (parentElementOf doc x)
    = Js.Returned (existsb (fun a => ownKeyword (snd a)) (ancestors doc levels x)).
Proof.
  induction levels as [|levels IH]; intros x Hx; [reflexivity|].
  apply Forall_cons in Hx as [Hx Hancestors].
  rewrite (parentElementOf_plain _ _ Hx).
  cbn [parentLoop ancestors] in *.
  destruct (parentOf doc x) as [p|]; [|reflexivity].
  pose proof Hancestors as Hp. apply Forall_cons in Hp as [Hp _].
  rewrite (matchesKeywords_ownKeyword _ Hp).
  cbn [mbind Js.Result_bind existsb].
  destruct (ownKeyword (snd p)); [reflexivity|]. by apply IH.
Qed.

Lemma sourceUrlKeyword_src (e : Element) :
  truthy (src e) && srcContainsKeywords (src e) = sourceUrlKeyword e.
Proof.
  unfold srcContainsKeywords, sourceUrlKeyword. rewrite containsKeyword_class.
  unfold truthy. destruct (String.eqb_spec (src e) "") as [->|Hsrc]; reflexivity.
Qed.

Lemma sizeWithinEnvelope_isCaptchaSize (e : Element) :
  isCaptchaSize (width (rect e)) (height (rect e)) = sizeWithinEnvelope e.
Proof.
  unfold sizeWithinEnvelope. symmetry.
  destruct (isCaptchaSize _ _) eqn:E.
  - apply bool_decide_eq_true. by apply isCaptchaSize_bounds.
  - apply bool_decide_eq_false. intros H. apply isCaptchaSize_bounds in H. congruence.
Qed.

Lemma calculateConfidence_range doc (x : Node) (score : Z) :
  calculateConfidence doc x = Js.Returned score -> (0 <= score <= 100)%Z.
Proof.
  unfold calculateConfidence.
  destruct (matchesKeywords (snd x)) as [[|]|]; cbn [mbind Js.Result_bind];
    try discriminate;
    destruct (truthy (src (snd x)) && srcContainsKeywords (src (snd x)));
    destruct (parentContainsKeywords doc x) as [[|]|]; cbn [mbind Js.Result_bind];
    try discriminate;
    destruct (findRelatedInput doc x) as [[i|]|]; cbn [mbind Js.Result_bind];
    try discriminate;
    destruct (isCaptchaSize _ _); intros [= <-]; lia.
Qed.

(** A scan starts from an empty list: what was in the detector does not
    count. *)
Lemma scan_again doc (this other : Detector) : scan doc other = scan doc this.
Proof. by rewrite !scan_run. Qed.

(** For every candidate a scan leaves, the confidence lies between 0 and
    100, and a second scan of the same document gives the same result.
    When the element and its three nearest ancestors are HTML elements
    that read their own class, id and parent, the confidence is the sum
    of the weights of the five signals as the specification names them,
    capped at 100. *)
Theorem confidence_is_the_capped_signal_sum doc this c :
  c ∈ detectedCaptchas (snd (scan doc this)) ->
  exists x : Node,
    node doc (element c) = Some x /\
    (0 <= confidence c <= 100)%Z /\
    scan doc (snd (scan doc this)) = scan doc this /\
    (Forall (fun a => plainElement (snd a) = true) (x :: ancestors doc 3 x) ->
     confidence c = ConfidenceSpec.score doc c x).
Proof.
  intros Hc.
  destruct (scan_elem _ _ _ Hc) as (x & Hx & Hfst & _ & _ & Hconf & Hinput & _).
  exists x. split.
  { unfold node. rewrite Hx. destruct x as [n e]; simpl in *. by rewrite Hfst. }
  split; [exact (calculateConfidence_range _ _ _ Hconf)|].
  split; [apply scan_again|].
  intros Hplain. pose proof Hplain as Hown. apply Forall_cons in Hown as [Hown _].
  destruct Hinput as (input & Hinput & Hlinked).
  unfold calculateConfidence, parentContainsKeywords in Hconf.
  rewrite (matchesKeywords_ownKeyword _ Hown), (parentLoop_ancestors _ _ _ Hplain),
    Hinput, sourceUrlKeyword_src, sizeWithinEnvelope_isCaptchaSize in Hconf.
  unfold ConfidenceSpec.score, signals, ancestorKeyword, linkedInputFound.
  rewrite Hlinked.
  set (inParent := existsb (fun a => ownKeyword (snd a)) (ancestors doc 3 x)) in *.
  cbn [mbind Js.Result_bind mret Js.Result_ret] in Hconf.
  destruct (ownKeyword (snd x)), (sourceUrlKeyword (snd x)), inParent,
    input as [i|], (sizeWithinEnvelope (snd x));
    injection Hconf as <-; reflexivity.
Qed.

(** The confidence of the scenario's image is the sum of its signals. *)
Example confidence_of_the_scenario :
  exists x,
    node Scenario.plain (element Cases.candidate) = Some x /\
    snd (scan Scenario.plain (mkDetector [])) = mkDetector [Cases.candidate] /\
    signals Scenario.plain Cases.candidate x
    = [(true, 30%Z); (false, 20%Z); (false, 15%Z); (true, 25%Z); (true, 10%Z)] /\
    confidence Cases.candidate = ConfidenceSpec.score Scenario.plain Cases.candidate x.
Proof.
  eexists. split; [reflexivity|]. split; [reflexivity|]. split; reflexivity.
Qed.

(** C4.  The specification has the confidence of every candidate as the
    sum of the weights of the signals that fire, capped at 100: own
    class/id keyword 30, source-URL keyword 20, ancestor keyword within
    three levels 15, linked input found 25, size within the envelope 10.
    The code breaks it on an svg element: for a visible svg of 120 by 40
    with class captcha, next to a text input named vcode, a scan returns
    one candidate, linked to that input, with confidence 35 (input and
    size), where the signals that fire sum to 65: the class keyword adds
    nothing, the [className] of an svg element being an object and no
    string. *)
Theorem C4_svg_class_keyword_adds_nothing :
  exists c : Candidate,
    scan Cases.svgDocument (mkDetector []) = (Js.Returned [c], mkDetector [c]) /\
    type c = svg /\
    node Cases.svgDocument (element c) = Some (2%nat, Cases.svgCaptcha) /\
    inputElement c = Some 3%nat /\
    classAttr Cases.svgCaptcha = "captcha" /\
    ownKeyword Cases.svgCaptcha = true /\
    matchesKeywords Cases.svgCaptcha = Js.Returned false /\
    signals Cases.svgDocument c (2%nat, Cases.svgCaptcha)
    = [(true, 30%Z); (false, 20%Z); (false, 15%Z); (true, 25%Z); (true, 10%Z)] /\
    ConfidenceSpec.score Cases.svgDocument c (2%nat, Cases.svgCaptcha) = 65%Z /\
    confidence c = 35%Z.
Proof.
  eexists. split; [vm_compute; reflexivity|].
  repeat split.
Qed.

End ConfidenceFacts.

(** ** What a capture resolves with *)

Section CaptureResults.
Import Capture.

Variable pngPayload : string -> Z -> Z -> string.

Lemma toDataURL_data_uri (c : Canvas) (v : string) :
  toDataURL pngPayload c = Resolved v -> JsString.startsWith v "data:" = true.
Proof.
  unfold toDataURL. repeat case_match; intros [= <-];
    apply prefix_spec; eexists; reflexivity.
Qed.

Lemma content_capture_data_uri (img : Img) (pending : Pending) (v : string) :
  outcome (captureImgElement pngPayload img pending) = Resolved v ->
  JsString.startsWith v "data:" = true.
Proof.
  unfold captureImgElement, fallback, captureElementAsScreenshot.
  repeat case_match; simplify_eq; cbn [outcome]; intros [= <-];
    try assumption; eauto using toDataURL_data_uri.
Qed.

(** X11.  Whatever content.js resolves the capture of an img element
    with is a data URI, which the OpenAI-compatible adapter passes on as
    the image URL unchanged. *)
Theorem content_capture_resolves_with_a_data_uri
    (img : Img) (pending : Pending) (v : string) :
  outcome (captureImgElement pngPayload img pending) = Resolved v ->
  JsString.startsWith v "data:" = true /\ Payload.imageUrl v = v.
Proof.
  intros H. apply content_capture_data_uri in H.
  split; [exact H|]. unfold Payload.imageUrl. by rewrite H.
Qed.

(** X12.  [captureSvgElement] creates one object URL and releases it,
    whether the image built from the markup loads or not.  The promise
    rejects with SVG转换失败 when it does not load; when it loads, the
    promise resolves with a data URI, unless reading the canvas back
    fails: then it never settles, for nothing catches the error in the
    load handler and no timer runs. *)
Theorem captureSvgElement_releases_the_object_url
    (svg : SvgCapture.Svg) (url : string) (image : SvgCapture.Rasterized) :
  let r := SvgCapture.captureSvgElement pngPayload svg url image in
  Terms.created (SvgCapture.steps r) = [url] /\
  Terms.revoked (SvgCapture.steps r) = [url] /\
  (SvgCapture.outcome r = None <-> exists bitmap, image = SvgCapture.Loaded bitmap true) /\
  (image = SvgCapture.Broken -> SvgCapture.outcome r = Some (Rejected "SVG转换失败")) /\
  (forall v, SvgCapture.outcome r = Some (Resolved v) ->
             JsString.startsWith v "data:" = true).
Proof.
  intros r. unfold r, SvgCapture.captureSvgElement.
  destruct image as [bitmap taints|].
  - destruct (toDataURL pngPayload _) as [dataUrl|message] eqn:Hdata;
      cbn [SvgCapture.steps SvgCapture.outcome].
    + split; [reflexivity|]. split; [reflexivity|]. split.
      * split; [discriminate|]. intros [b [= -> ->]].
        unfold toDataURL in Hdata. discriminate.
      * split; [discriminate|]. intros v [= <-]. eauto using toDataURL_data_uri.
    + split; [reflexivity|]. split; [reflexivity|]. split.
      * split; [|reflexivity]. intros _. exists bitmap.
        unfold toDataURL in Hdata. cbn [originClean] in Hdata.
        destruct taints; [reflexivity|]. cbn [negb] in Hdata.
        by destruct (_ || _).
      * split; discriminate.
  - cbn [SvgCapture.steps SvgCapture.outcome].
    split; [reflexivity|]. split; [reflexivity|]. split.
    + split; [discriminate|]. intros [b H]. discriminate.
    + split; [reflexivity|]. intros v [= H].
Qed.

End CaptureResults.

(** ** The further properties on the cases *)

Section FurtherExamples.
Import Dom CaptchaDetector.

Lemma scan_candidates_are_chosen_by_their_id_witness :
  Cases.candidate ∈ detectedCaptchas (snd (scan Scenario.plain (mkDetector []))) /\
  NoDup (id <$> detectedCaptchas (snd (scan Scenario.plain (mkDetector [])))) /\
  ContentScript.chosen "captcha-0" Cases.page = Some Cases.candidate.
Proof.
  assert (Hin : Cases.candidate
                ∈ detectedCaptchas (snd (scan Scenario.plain (mkDetector [])))).
  { vm_compute. apply list_elem_of_here. }
  split; [exact Hin|].
  exact (scan_candidates_are_chosen_by_their_id Scenario.plain (mkDetector [])
           Cases.page Cases.candidate eq_refl Hin).
Defined.

Lemma scan_candidates_have_evidence_witness :
  Cases.candidate ∈ detectedCaptchas (snd (scan Scenario.plain (mkDetector []))) /\
  exists e,
    Scenario.plain !! 2%nat = Some e /\ isVisible e = true /\ tagName e = IMG /\
    (10 <= 65)%Z /\
    ((65 < 25)%Z -> image = image /\ matchesKeywordsInText (alt e) = true).
Proof.
  assert (Hin : Cases.candidate
                ∈ detectedCaptchas (snd (scan Scenario.plain (mkDetector [])))).
  { vm_compute. apply list_elem_of_here. }
  split; [exact Hin|].
  exact (scan_candidates_have_evidence Scenario.plain (mkDetector []) Cases.candidate Hin).
Defined.

(** The input of the scenario is found by its name, under the body. *)
Lemma findRelatedInput_is_a_text_input_witness :
  findRelatedInput Scenario.plain (2%nat, Scenario.img 100 200)
  = Js.Returned (Some (3%nat, Scenario.input 100 200 150 30)) /\
  Scenario.plain !! 3%nat = Some (Scenario.input 100 200 150 30) /\
  isTextInput (Scenario.input 100 200 150 30) = true /\
  Vocabulary.walk Scenario.plain 5
    (parentElementOf Scenario.plain (2%nat, Scenario.img 100 200))
  = [(1%nat, Scenario.body "" ""); (0%nat, Scenario.html "" "")] /\
  isCaptchaInputByName (Scenario.input 100 200 150 30) = true /\
  isDescendantOf Scenario.plain (1%nat, Scenario.body "" "")
                 (3%nat, Scenario.input 100 200 150 30) = true.
Proof.
  assert (H : findRelatedInput Scenario.plain (2%nat, Scenario.img 100 200)
              = Js.Returned (Some (3%nat, Scenario.input 100 200 150 30)))
    by (vm_compute; reflexivity).
  split; [exact H|].
  destruct (findRelatedInput_is_a_text_input Scenario.plain _ _ H) as (H1 & H2 & _).
  split; [exact H1|]. split; [exact H2|]. repeat split.
Defined.

(** An input without a name is linked by its place: 149 px to the right
    of the image it is, 150 px to the right it is not; 99 px below the
    image it is, 100 px below it is not. *)
Example findRelatedInput_by_place :
  let nameless (x y : Q) : Element :=
    mkElement INPUT "" "" "" "" "" "" None
              {| left := x; top := y; width := 150; height := 30 |} Scenario.shown
              (Some 1%nat) in
  let page (x y : Q) : Document :=
    [Scenario.html "" ""; Scenario.body "" ""; Scenario.img 100 200; nameless x y] in
  let linked (x y : Q) : Js.Result (option nat) :=
    match findRelatedInput (page x y) (2%nat, Scenario.img 100 200) with
    | Js.Returned input => Js.Returned (fst <$> input)
    | Js.TypeError member => Js.TypeError member
    end in
  linked (220 + 149)%Q 200%Q = Js.Returned (Some 3%nat) /\
  linked (220 + 150)%Q 200%Q = Js.Returned None /\
  linked (220 + 149)%Q (200 + 49)%Q = Js.Returned (Some 3%nat) /\
  linked (220 + 149)%Q (200 + 50)%Q = Js.Returned None /\
  linked 100%Q (240 + 99)%Q = Js.Returned (Some 3%nat) /\
  linked 100%Q (240 + 100)%Q = Js.Returned None /\
  linked (100 + 99)%Q (240 + 99)%Q = Js.Returned (Some 3%nat) /\
  linked (100 + 100)%Q (240 + 99)%Q = Js.Returned None.
Proof. vm_compute. repeat split. Qed.

(** An svg element with the class captcha and the id logo matches no
    keyword. *)
Lemma svg_matches_by_id_only_witness :
  tagName Cases.svgElement = SVG /\
  matchesKeywords Cases.svgElement
  = Js.Returned
      (some Terms.idCore (fun k => JsString.includes (JsString.toLowerCase "logo") k)) /\
  matchesKeywords Cases.svgElement = Js.Returned false.
Proof.
  split; [reflexivity|]. split; [|reflexivity].
  exact (svg_matches_by_id_only Cases.svgElement eq_refl).
Defined.

(** A form with a control named id among the ancestors of an image: the
    scan throws, and leaves the candidates found before the image.  An svg
    element inside a group whose class names a CAPTCHA is no candidate: the
    class of the group is an object too. *)
Example scan_throws_on_a_shadowed_id :
  let form : Element :=
    mkElement (FORM [("id", Control 3%nat "[object HTMLInputElement]")]) "login" "" ""
              "" "" "" None Scenario.page Scenario.shown (Some 0%nat) in
  let inForm (e : Element) : Element :=
    mkElement (tagName e) (elemId e) (classAttr e) (name e) (placeholder e) (src e)
              (alt e) (typeAttr e) (rect e) (style e) (Some 1%nat) in
  let control : Element :=
    mkElement INPUT "" "" "id" "" "" "" (Some "hidden")
              {| left := 0; top := 0; width := 0; height := 0 |} Scenario.shown
              (Some 1%nat) in
  let page : Document :=
    [Scenario.html "" ""; form; inForm (Scenario.img 100 200); control] in
  scan page (mkDetector []) = (Js.TypeError "toLowerCase", mkDetector []) /\
  let group : Element :=
    mkElement (GRAPHIC "g") "" "captcha" "" "" "" "" None Scenario.page Scenario.shown
              (Some 0%nat) in
  let inner : Element :=
    mkElement SVG "" "" "" "" "" "" None
              {| left := 100; top := 200; width := 120; height := 40 |} Scenario.shown
              (Some 1%nat) in
  scan [Scenario.html "" ""; group; inner] (mkDetector [])
  = (Js.Returned [], mkDetector []).
Proof. vm_compute. split; reflexivity. Qed.

Lemma content_capture_resolves_with_a_data_uri_witness :
  Capture.outcome (Capture.captureImgElement (fun b _ _ => b) Scenario.shownImg
                     Capture.Never)
  = Capture.Resolved "data:image/png;base64,shown" /\
  JsString.startsWith "data:image/png;base64,shown" "data:" = true /\
  Payload.imageUrl "data:image/png;base64,shown" = "data:image/png;base64,shown".
Proof.
  split; [reflexivity|].
  exact (content_capture_resolves_with_a_data_uri (fun b _ _ => b) Scenario.shownImg
           Capture.Never "data:image/png;base64,shown" eq_refl).
Defined.

Lemma content_capture_tainted_witness :
  Capture.outcome (Capture.captureImgElement (fun b _ _ => b) Cases.crossOriginImg
                     Capture.Never)
  = Capture.Rejected "无法捕获跨域图片，请尝试手动截图".
Proof.
  exact (content_capture_tainted (fun b _ _ => b) Cases.crossOriginImg Capture.Never
           eq_refl eq_refl eq_refl eq_refl).
Defined.

Lemma content_capture_clean_witness :
  Capture.outcome (Capture.captureImgElement (fun b _ _ => b) Scenario.shownImg
                     Capture.Never)
  = Capture.Resolved "data:image/png;base64,shown".
Proof.
  exact (content_capture_clean (fun b _ _ => b) Scenario.shownImg Capture.Never
           eq_refl eq_refl eq_refl eq_refl).
Defined.

(** A recognize request on the page of the scenario, the capture
    resolving with an image too short to be one. *)
Lemma handleRecognize_answers_once_witness :
  exists evs r,
    ContentScript.events
      (ContentScript.handleRecognize (fun _ => true) candRect
         (fun _ => Some (Capture.Resolved "data:,")) (Cases.answering "AB3x")
         "captcha-0" Cases.page)
    = ContentScript.events Cases.page ++ evs /\
    Terms.responses evs = [r] /\
    r = ContentScript.Failed (Some "图像数据无效，请重试").
Proof.
  destruct (handleRecognize_answers_once (fun _ => true) candRect
              (fun _ => Some (Capture.Resolved "data:,")) (Cases.answering "AB3x")
              ltac:(discriminate) "captcha-0" Cases.page)
    as (evs & r & Hev & Hr & _).
  exists evs, r. split; [exact Hev|]. split; [exact Hr|].
  assert (Hevs : evs = [ContentScript.Highlight Cases.candidate; ContentScript.Wait 100;
                        ContentScript.CaptureImage Cases.candidate;
                        ContentScript.Unhighlight Cases.candidate;
                        ContentScript.SendResponse
                          (ContentScript.Failed (Some "图像数据无效，请重试"))]).
  { vm_compute in Hev. exact (eq_sym Hev). }
  rewrite Hevs in Hr. by injection Hr as <-.
Defined.

(** An svg whose image taints the canvas: the capture never settles,
    and the content script stays busy. *)
Lemma handleRecognize_pending_capture_blocks_witness :
  let captureImage := fun _ : Candidate =>
    SvgCapture.outcome
      (SvgCapture.captureSvgElement (fun b _ _ => b) (SvgCapture.mkSvg 120 40)
         "blob:1" (SvgCapture.Loaded "svg" true)) in
  let p' := ContentScript.handleRecognize (fun _ => true) candRect captureImage
              (Cases.answering "AB3x") "" Cases.svgPage in
  ContentScript.isProcessing p' = true /\
  Terms.responses (ContentScript.events p') = [] /\
  forall laterId,
    ContentScript.events
      (ContentScript.handleRecognize (fun _ => true) candRect captureImage
         (Cases.answering "AB3x") laterId p')
    = ContentScript.events p' ++ [ContentScript.SendResponse Terms.busy] /\
    ContentScript.isProcessing
      (ContentScript.handleRecognize (fun _ => true) candRect captureImage
         (Cases.answering "AB3x") laterId p') = true.
Proof.
  exact (handleRecognize_pending_capture_blocks (fun _ => true) candRect
           (fun _ => SvgCapture.outcome
              (SvgCapture.captureSvgElement (fun b _ _ => b) (SvgCapture.mkSvg 120 40)
                 "blob:1" (SvgCapture.Loaded "svg" true)))
           (Cases.answering "AB3x") "" Cases.svgPage Cases.svgCandidate
           eq_refl eq_refl eq_refl eq_refl eq_refl).
Defined.

(** Two configurations added and the first, the active one, deleted:
    the second is active. *)
Lemma configured_store_has_an_active_configuration_witness :
  exists st,
    ConfigStore.run [ConfigStore.Add Scenario.openai "id-1";
                     ConfigStore.Add Scenario.moved "id-2";
                     ConfigStore.Delete "id-1"] ConfigStore.empty = Some st /\
    Storage.active_config_id st = "id-2" /\
    (Storage.getActiveConfig st = None <-> Storage.api_configs st = []) /\
    (forall c, c ∈ Storage.api_configs st -> Api.id c <> "").
Proof.
  eexists. split; [reflexivity|]. split; [reflexivity|].
  exact (configured_store_has_an_active_configuration
           [ConfigStore.Add Scenario.openai "id-1";
            ConfigStore.Add Scenario.moved "id-2";
            ConfigStore.Delete "id-1"] _ eq_refl).
Defined.

Lemma recognize_is_bounded_witness :
  exists outcome evs,
    fst (ApiManager.recognize Scenario.failing Scenario.stamp "img" Scenario.noOptions
           (Scenario.world 3)) = ApiManager.Returned outcome /\
    ApiManager.trace
      (snd (ApiManager.recognize Scenario.failing Scenario.stamp "img" Scenario.noOptions
              (Scenario.world 3))) = [] ++ evs /\
    (1 <= length (Vocabulary.requestsOf evs))%nat /\
    (Z.of_nat (length (Vocabulary.requestsOf evs)) <= 3)%Z /\
    ApiManager.elapsed outcome = 3600%Z /\
    (ApiManager.elapsed outcome <= Terms.timeBudget 3 30000)%Z.
Proof.
  destruct (recognize_is_bounded Scenario.failing Scenario.stamp "img" Scenario.noOptions
              (Scenario.world 3) (Storage.decrypted Scenario.openai) eq_refl
              ltac:(discriminate))
    as (outcome & evs & Hrun & Htrace & Hone & Hmost & Hel & Hbudget & _).
  exists outcome, evs. repeat split; assumption.
Defined.

Lemma recognize_not_configured_witness :
  fst (ApiManager.recognize Scenario.failing Scenario.stamp "img" Scenario.noOptions
         Cases.unconfigured)
  = ApiManager.Returned
      {| ApiManager.success := false; ApiManager.text := None;
         ApiManager.error := Some "请先配置API"; ApiManager.elapsed := 0;
         ApiManager.attempt := None |} /\
  ApiManager.calls
    (snd (ApiManager.recognize Scenario.failing Scenario.stamp "img" Scenario.noOptions
            Cases.unconfigured)) = 0%nat.
Proof.
  destruct (recognize_not_configured Scenario.failing Scenario.stamp "img"
              Scenario.noOptions Cases.unconfigured eq_refl) as (H1 & _ & H2).
  split; assumption.
Defined.

(** The pointer crosses an image and moves on to the tooltip; the click
    on the cancel button selects the image. *)
Lemma content_picker_cancel_button_does_not_cancel_witness :
  ContentPicker.results
    (ContentPicker.run (fun _ => Some "#captchaImg")
       [PickerEvents.MouseMove (PickerEvents.OverTarget 2);
        PickerEvents.MouseMove PickerEvents.OverPicker;
        PickerEvents.Click true])
  = [PickerEvents.Selected 2 "#captchaImg"].
Proof.
  pose proof (content_picker_cancel_button_does_not_cancel (fun _ => Some "#captchaImg")
                [PickerEvents.MouseMove (PickerEvents.OverTarget 2)] eq_refl) as H.
  cbn in H. destruct (H "#captchaImg" eq_refl) as [H1 H2].
  reflexivity.
Defined.

End FurtherExamples.
